(** * GitValidation: validation, sanitisation and parsing of Git metadata

    A shallow embedding of the [GitValidation] class of
    [src/utils/gitValidation.ts] (validators for branch, tag and remote
    names, remote URLs, stash messages and file paths; the branch-name
    sanitiser; the Conventional Commits generator and parser), together
    with the small part of ECMAScript the class relies on: strings as
    sequences of UTF-16 code units, the [String.prototype] methods it
    calls, and a backtracking regular-expression matcher written in the
    continuation-passing style of ECMA-262. Three built-in operations are
    not computed: [toLowerCase], [toUpperCase] and the writing of a number
    are the methods of the class [Builtins], known by the properties
    ECMA-262 and the Unicode case tables give them, and every theorem is
    proved for every instance of the class. The classes that call
    [GitValidation], or that stand beside it in the services directory,
    follow: [BranchProtectionManager], [CommitTemplateManager] and
    [ErrorHandlerService]. *)

From Stdlib Require Import String Ascii DecimalString.
From Stdlib Require Import List NArith ZArith Lia Bool.
Import ListNotations.

Set Implicit Arguments.

(** ** ECMAScript strings *)

Module JS.

(** A string is a sequence of UTF-16 code units. *)
Definition cu := N.
Bind Scope N_scope with cu.
Definition str := list cu.

Local Open Scope N_scope.

(** Literals: a Rocq string read as Latin-1 code units. *)
Definition js (s : string) : str := map N_of_ascii (list_ascii_of_string s).

Definition NUL : cu := 0%N.
Definition LF : cu := 10%N.
Definition nl : str := [LF].

Definition between (lo hi c : cu) : bool := (lo <=? c)%N && (c <=? hi)%N.

Definition mem (c : cu) (l : list cu) : bool := existsb (N.eqb c) l.

Fixpoint str_eqb (a b : str) : bool :=
  match a, b with
  | [], [] => true
  | x :: a', y :: b' => (x =? y)%N && str_eqb a' b'
  | _, _ => false
  end.

(** LineTerminator: LF, CR, LS, PS. *)
Definition isLineTerminator (c : cu) : bool := mem c [10; 13; 8232; 8233].

(** WhiteSpace and LineTerminator code units: the set stripped by [trim]
    and matched by the class escape [\s]. *)
Definition isWhiteSpace (c : cu) : bool :=
  mem c [9; 10; 11; 12; 13; 32; 160; 5760; 8232; 8233; 8239; 8287; 12288; 65279]
  || between 8192 8202 c.

Definition isUpper (c : cu) : bool := between 65 90 c.
Definition isLower (c : cu) : bool := between 97 122 c.
Definition isDigit (c : cu) : bool := between 48 57 c.

(** The class escape [\w]: [A-Za-z0-9_]. *)
Definition isWord (c : cu) : bool :=
  isUpper c || isLower c || isDigit c || (c =? 95)%N.

(** Case conversion within Basic Latin, one code unit at a time. It is
    what the [i] flag of a pattern written in Basic Latin compares by:
    without the [u] flag, Canonicalize never lets a code unit above 127
    match a Basic Latin letter. *)
Definition isBasicLatin (c : cu) : bool := (c <? 128)%N.
Definition lowerCU (c : cu) : cu := if isUpper c then (c + 32)%N else c.
Definition upperCU (c : cu) : cu := if isLower c then (c - 32)%N else c.
Definition canonical (s : str) : str := map upperCU s.

(** Characters that case conversion leaves in place: white space, and the
    Basic Latin characters other than the letters it converts. *)
Definition keptByLowerCase (c : cu) : bool :=
  isWhiteSpace c || (isBasicLatin c && negb (isUpper c)).
Definition keptByUpperCase (c : cu) : bool :=
  isWhiteSpace c || (isBasicLatin c && negb (isLower c)).

Fixpoint dropWhile (p : cu -> bool) (s : str) : str :=
  match s with
  | [] => []
  | c :: tl => if p c then dropWhile p tl else s
  end.

Definition trimStart (s : str) : str := dropWhile isWhiteSpace s.
Definition trimEnd (s : str) : str := rev (dropWhile isWhiteSpace (rev s)).
Definition trim (s : str) : str := trimEnd (trimStart s).

(** A string is trimmed when neither end is white space. *)
Definition trimmed (s : str) : Prop :=
  match s with [] => True | c :: _ => isWhiteSpace c = false end /\
  match rev s with [] => True | c :: _ => isWhiteSpace c = false end.

Fixpoint startsWith (s p : str) {struct p} : bool :=
  match p, s with
  | [], _ => true
  | x :: p', y :: s' => (x =? y)%N && startsWith s' p'
  | _ :: _, [] => false
  end.

Definition endsWith (s p : str) : bool := startsWith (rev s) (rev p).

(** [s.includes(p)]: [p] occurs in [s] as a substring. *)
Fixpoint includes (s p : str) : bool :=
  startsWith s p || match s with [] => false | _ :: tl => includes tl p end.

(** [s.substring(0, n)] for an integral [n]; a negative end counts as 0. *)
Definition substring0 (s : str) (n : Z) : str := firstn (Z.to_nat n) s.

(** [s.split(sep)] for a one-unit separator: never the empty array. *)
Fixpoint split (sep : cu) (s : str) : list str :=
  match s with
  | [] => [[]]
  | c :: tl =>
      if (c =? sep)%N then [] :: split sep tl
      else match split sep tl with
           | h :: t => (c :: h) :: t
           | [] => [[c]]
           end
  end.

(** [a.join(sep)]. *)
Fixpoint join (sep : str) (l : list str) : str :=
  match l with
  | [] => []
  | [a] => a
  | a :: tl => a ++ sep ++ join sep tl
  end.

(** [a.includes(x)] on an array of strings. *)
Definition arrayIncludes (a : list str) (x : str) : bool := existsb (str_eqb x) a.

(** The decimal digits of an integer, with a minus sign when negative. *)
Definition decimal (z : Z) : str := js (NilZero.string_of_int (Z.to_int z)).

(** An own property of an options object: missing, present with the value
    [undefined], or present with a value. *)
Inductive prop (A : Type) : Type :=
| Absent
| Undefined
| Value (v : A).
Arguments Absent {A}.
Arguments Undefined {A}.

(** [{ ...defaults, ...options }] on one property. *)
Definition spread {A} (dflt : option A) (o : prop A) : option A :=
  match o with
  | Absent => dflt
  | Undefined => None
  | Value v => Some v
  end.

(** Truthiness of a possibly-undefined string, number or boolean. *)
Definition truthyStr (s : option str) : bool :=
  match s with Some (_ :: _) => true | _ => false end.
Definition truthyNum (n : option Z) : bool :=
  match n with Some z => negb (z =? 0)%Z | None => false end.
Definition truthyBool (b : option bool) : bool :=
  match b with Some true => true | _ => false end.

(** *** Built-in operations that are not computed here

    [String.prototype.toLowerCase] and [toUpperCase] follow the case
    tables of Unicode, code point by code point, and [Number::toString]
    writes large numbers with the shortest digits that read back and, from
    [1e21] on, with an exponent. The tables and the digit search are not
    part of this development: the three operations are the methods of a
    class, and what is proved holds for every host whose methods have the
    properties below, which ECMA-262 and the Unicode case tables give them.

    - On a string of Basic Latin characters the conversions are those of
      [lowerCU] and [upperCU].
    - [toLowerCase] returns no letter [A-Z]: each has a lower-case form, and
      no character is mapped to one of them. Likewise [toUpperCase] returns
      no letter [a-z].
    - White space and the Basic Latin characters that are not converted stay
      in the string: they have no case mapping and are never half of a
      surrogate pair.
    - An integer in the safe range, [-(2^53) < z < 2^53], is written in
      plain decimal digits. *)
Class Builtins : Type := {
  toLowerCase : str -> str;
  toUpperCase : str -> str;
  numberToString : Z -> str;
  toLowerCase_basic : forall s : str,
    forallb isBasicLatin s = true -> toLowerCase s = map lowerCU s;
  toUpperCase_basic : forall s : str,
    forallb isBasicLatin s = true -> toUpperCase s = map upperCU s;
  toLowerCase_lower : forall (s : str) (c : cu),
    In c (toLowerCase s) -> isUpper c = false;
  toUpperCase_upper : forall (s : str) (c : cu),
    In c (toUpperCase s) -> isLower c = false;
  toLowerCase_keeps : forall (s : str) (c : cu),
    In c s -> keptByLowerCase c = true -> In c (toLowerCase s);
  toUpperCase_keeps : forall (s : str) (c : cu),
    In c s -> keptByUpperCase c = true -> In c (toUpperCase s);
  numberToString_safe : forall z : Z,
    (Z.abs z < 2 ^ 53)%Z -> numberToString z = decimal z
}.

Definition showNat {builtins : Builtins} (n : nat) : str :=
  numberToString (Z.of_nat n).

End JS.

(** ** Regular expressions *)

Module RegExp.
Import JS.

(** The pattern syntax the class uses: character classes, sequence,
    alternation, the greedy star, capturing groups and the two anchors
    (no [m] flag, so they are the ends of the input). *)
Inductive regex : Type :=
| Empty
| Chars (cls : cu -> bool)
| Seq (r1 r2 : regex)
| Alt (r1 r2 : regex)
| Star (r : regex)
| Group (n : nat) (r : regex)
| Bol
| Eol.

(** Derived forms: [r+], [r?], [r{2,}], literals, with and without the
    [i] flag. *)
Definition Plus (r : regex) : regex := Seq r (Star r).
Definition Opt (r : regex) : regex := Alt r Empty.
Definition AtLeast2 (r : regex) : regex := Seq r (Seq r (Star r)).
Definition Chr (c : cu) : regex := Chars (N.eqb c).
Definition ChrI (c : cu) : regex := Chars (fun x => (upperCU x =? upperCU c)%N).
Definition Lit (s : str) : regex := fold_right (fun c r => Seq (Chr c) r) Empty s.
Definition LitI (s : str) : regex := fold_right (fun c r => Seq (ChrI c) r) Empty s.
Definition OneOf (l : list cu) : regex := Chars (fun c => mem c l).
Definition NoneOf (l : list cu) : regex := Chars (fun c => negb (mem c l)).
Fixpoint seqs (l : list regex) : regex :=
  match l with
  | [] => Empty
  | [r] => r
  | r :: tl => Seq r (seqs tl)
  end.

(** A match state: the index reached, the input left from there, and the
    captures made so far (most recent first). *)
Record MatchState : Type := mkState {
  endIndex : nat;
  rest : str;
  captures : list (nat * str)
}.

Definition Continuation := MatchState -> option MatchState.
Definition Matcher := MatchState -> Continuation -> option MatchState.

(** RepeatMatcher for [r*]: try one more iteration first (greedy), and
    refuse an iteration that consumed nothing. [fuel] bounds the number of
    iterations by the length of the input left. *)
Fixpoint repeatMatcher (m : Matcher) (fuel : nat) (x : MatchState)
    (c : Continuation) : option MatchState :=
  match fuel with
  | O => c x
  | S fuel' =>
      match m x (fun y =>
                   if (length (rest y) <? length (rest x))%nat
                   then repeatMatcher m fuel' y c
                   else None) with
      | Some r => Some r
      | None => c x
      end
  end.

Fixpoint compile (r : regex) : Matcher :=
  match r with
  | Empty => fun x c => c x
  | Chars cls => fun x c =>
      match rest x with
      | ch :: tl =>
          if cls ch then c (mkState (S (endIndex x)) tl (captures x)) else None
      | [] => None
      end
  | Seq r1 r2 => fun x c => compile r1 x (fun y => compile r2 y c)
  | Alt r1 r2 => fun x c =>
      match compile r1 x c with
      | Some r => Some r
      | None => compile r2 x c
      end
  | Star r1 => fun x c => repeatMatcher (compile r1) (length (rest x)) x c
  | Group n r1 => fun x c =>
      compile r1 x (fun y =>
        c (mkState (endIndex y) (rest y)
             ((n, firstn (endIndex y - endIndex x) (rest x)) :: captures y)))
  | Bol => fun x c => if (endIndex x =? 0)%nat then c x else None
  | Eol => fun x c => match rest x with [] => c x | _ :: _ => None end
  end.

(** One attempt at index [i], where [s] is the input from [i] on. *)
Definition matchAt (r : regex) (i : nat) (s : str) : option MatchState :=
  compile r (mkState i s []) Some.

(** RegExpBuiltinExec without [g] or [y]: the leftmost index with a match.
    The result is the start index and the final state. *)
Fixpoint execFrom (r : regex) (i : nat) (s : str) : option (nat * MatchState) :=
  match matchAt r i s with
  | Some y => Some (i, y)
  | None =>
      match s with
      | [] => None
      | _ :: tl => execFrom r (S i) tl
      end
  end.

Definition exec (r : regex) (s : str) : option (nat * MatchState) := execFrom r 0 s.

(** [r.test(s)]. *)
Definition test (r : regex) (s : str) : bool :=
  match exec r s with Some _ => true | None => false end.

(** The value of capture group [n] after a match: [None] is [undefined]. *)
Fixpoint capture (n : nat) (caps : list (nat * str)) : option str :=
  match caps with
  | [] => None
  | (k, v) :: tl => if (k =? n)%nat then Some v else capture n tl
  end.

(** [s.match(r)] without [g]: the captures of the leftmost match. *)
Definition matchCaptures (r : regex) (s : str) : option (list (nat * str)) :=
  match exec r s with
  | Some (_, y) => Some (captures y)
  | None => None
  end.

(** [s.replace(r, repl)] without [g], for a replacement free of [$]: the
    leftmost match is replaced. *)
Definition replaceFirst (r : regex) (repl : str) (s : str) : str :=
  match exec r s with
  | Some (i, y) => firstn i s ++ repl ++ rest y
  | None => s
  end.

(** [s.replace(r, repl)] with [g]: every match, left to right, each search
    resuming where the previous match ended (one unit further after an
    empty match). *)
Fixpoint replaceAllFrom (r : regex) (repl : str) (fuel i : nat) (s : str) : str :=
  match fuel with
  | O => s
  | S fuel' =>
      let step :=
        match s with
        | [] => []
        | ch :: tl => ch :: replaceAllFrom r repl fuel' (S i) tl
        end in
      match matchAt r i s with
      | Some y =>
          if (endIndex y =? i)%nat then repl ++ step
          else repl ++ replaceAllFrom r repl fuel' (endIndex y) (rest y)
      | None => step
      end
  end.

Definition replaceAll (r : regex) (repl : str) (s : str) : str :=
  replaceAllFrom r repl (S (length s)) 0 s.

(** The paths through a pattern: [Matches r x y] when [r] can take the
    matcher from state [x] to state [y]. The matcher above explores these
    paths in priority order and returns the first one its continuation
    accepts. *)
Inductive Matches : regex -> MatchState -> MatchState -> Prop :=
| MEmpty x : Matches Empty x x
| MChars cls x ch tl :
    rest x = ch :: tl -> cls ch = true ->
    Matches (Chars cls) x (mkState (S (endIndex x)) tl (captures x))
| MSeq r1 r2 x y z :
    Matches r1 x y -> Matches r2 y z -> Matches (Seq r1 r2) x z
| MAltL r1 r2 x y : Matches r1 x y -> Matches (Alt r1 r2) x y
| MAltR r1 r2 x y : Matches r2 x y -> Matches (Alt r1 r2) x y
| MStarStop r x : Matches (Star r) x x
| MStarStep r x y z :
    Matches r x y -> (length (rest y) < length (rest x))%nat ->
    Matches (Star r) y z -> Matches (Star r) x z
| MGroup n r x y :
    Matches r x y ->
    Matches (Group n r) x
      (mkState (endIndex y) (rest y)
         ((n, firstn (endIndex y - endIndex x) (rest x)) :: captures y))
| MBol x : endIndex x = 0%nat -> Matches Bol x x
| MEol x : rest x = [] -> Matches Eol x x.

(** Patterns read as languages. [Lang r L]: the paths through [r] consume
    exactly the strings of [L], wherever they start. [EndLang r L]: the
    paths through [r], which ends on [$], start exactly on the inputs of
    [L]. *)
Definition Lang (r : regex) (L : str -> Prop) : Prop :=
  (forall x y, Matches r x y ->
     exists t, rest x = t ++ rest y /\
               endIndex y = (endIndex x + length t)%nat /\ L t) /\
  (forall t, L t -> forall i tl caps,
     exists caps', Matches r (mkState i (t ++ tl) caps)
                             (mkState (i + length t) tl caps')).

Definition EndLang (r : regex) (L : str -> Prop) : Prop :=
  (forall x y, Matches r x y -> L (rest x)) /\
  (forall t, L t -> forall i caps, exists y, Matches r (mkState i t caps) y).

End RegExp.

(** ** The GitValidation class *)

Module GitValidation.
Import JS RegExp.

Section Host.
Context {builtins : Builtins}.

Definition code (a : ascii) : cu := N_of_ascii a.

(** *** Results and options *)

Record ValidationResult : Type := mkResult {
  valid : bool;
  error : option str;
  warnings : option (list str);
  suggestions : option (list str)
}.

(** [{ valid: false, error }], [{ valid: true }] and the other shapes of
    object literal the validators return. *)
Definition reject (e : str) : ValidationResult := mkResult false (Some e) None None.
Definition rejectWith (e : str) (sugg : list str) : ValidationResult :=
  mkResult false (Some e) None (Some sugg).
Definition accept : ValidationResult := mkResult true None None None.
Definition acceptSuggesting (sugg : list str) : ValidationResult :=
  mkResult true None None (Some sugg).
Definition acceptWarning (warn : list str) : ValidationResult :=
  mkResult true None (Some warn) None.
Definition acceptWith (warn sugg : list str) : ValidationResult :=
  mkResult true None (Some warn) (Some sugg).

(** [pattern] is a RegExp object; it enters the class through its [test]
    method only, so it is kept as the predicate that method computes. *)
Record BranchValidationOptions : Type := mkBranchOptions {
  allowSlash : prop bool;
  maxLength : prop Z;
  reservedNames : prop (list str);
  pattern : prop (str -> bool);
  enforcePrefix : prop (list str)
}.

Record CommitMessageOptions : Type := mkCommitOptions {
  maxSubjectLength : prop Z;
  maxBodyLineLength : prop Z;
  requireType : prop bool;
  requireScope : prop bool;
  allowedTypes : prop (list str);
  allowedScopes : prop (list str)
}.

(** The empty options object [{}], the default argument of both
    validators. *)
Definition noBranchOptions : BranchValidationOptions :=
  mkBranchOptions Absent Absent Absent Absent Absent.
Definition noCommitOptions : CommitMessageOptions :=
  mkCommitOptions Absent Absent Absent Absent Absent Absent.

Definition DEFAULT_BRANCH_OPTIONS : BranchValidationOptions :=
  mkBranchOptions (Value true) (Value 250%Z)
    (Value (map js ["HEAD"; "FETCH_HEAD"; "ORIG_HEAD"; "MERGE_HEAD";
                    "CHERRY_PICK_HEAD"]%string))
    Absent Absent.

Definition DEFAULT_COMMIT_OPTIONS : CommitMessageOptions :=
  mkCommitOptions (Value 72%Z) (Value 100%Z) (Value false) (Value false)
    (Value (map js ["feat"; "fix"; "docs"; "style"; "refactor"; "perf";
                    "test"; "build"; "ci"; "chore"; "revert"]%string))
    Absent.

(** Reading property [f] of [{ ...defaults, ...options }]. *)
Definition merged {O A} (f : O -> prop A) (defaults options : O) : option A :=
  spread (spread None (f defaults)) (f options).

(** *** Patterns *)

Definition whitespace : regex := Chars isWhiteSpace.
Definition nonWhitespace : regex := Chars (fun c => negb (isWhiteSpace c)).
Definition word : regex := Chars isWord.
Definition digit : regex := Chars isDigit.
(** [.] without the [s] flag. *)
Definition dot : regex := Chars (fun c => negb (isLineTerminator c)).

(** The characters of [[~^:?*\[\]@{\\]]. *)
Definition specialChars : list cu := [126; 94; 58; 63; 42; 91; 93; 64; 123; 92]%N.

(** [/\.\./], [/\/\//], [/\s/], [/[\x00-\x1f\x7f]/], [/[~^:?*\[\]@{\\]/],
    [/[A-Z]/], [/_/]. *)
Definition consecutiveDots : regex := Lit (js "..").
Definition consecutiveSlashes : regex := Lit (js "//").
Definition controlChars : regex :=
  Chars (fun c => between 0 31 c || (c =? 127)%N).
Definition special : regex := OneOf specialChars.
Definition upperCase : regex := Chars isUpper.
Definition underscore : regex := Chr (code "_").

(** [/^(\w+)(?:\(([^)]+)\))?(!)?:\s*(.+)$/] *)
Definition conventionalPattern : regex :=
  seqs [Bol;
        Group 1 (Plus word);
        Opt (seqs [Chr (code "("); Group 2 (Plus (NoneOf [code ")"])); Chr (code ")")]);
        Opt (Group 3 (Chr (code "!")));
        Chr (code ":");
        Star whitespace;
        Group 4 (Plus dot);
        Eol].

(** [/^[A-Z]/] *)
Definition capitalised : regex := Seq Bol upperCase.

(** [/^v?\d+\.\d+\.\d+(-[\w.]+)?(\+[\w.]+)?$/] *)
Definition wordOrDot : regex := Chars (fun c => isWord c || (c =? code ".")%N).
Definition semverPattern : regex :=
  seqs [Bol; Opt (Chr (code "v"));
        Plus digit; Chr (code "."); Plus digit; Chr (code "."); Plus digit;
        Opt (Group 1 (Seq (Chr (code "-")) (Plus wordOrDot)));
        Opt (Group 2 (Seq (Chr (code "+")) (Plus wordOrDot)));
        Eol].

(** [/[~^:?*\[\]@{\\\/]/] *)
Definition remoteSpecial : regex := OneOf (specialChars ++ [code "/"]).

(** [/^https?:\/\/[^\s]+\.git$/i], [/^git@[^\s:]+:[^\s]+\.git$/i],
    [/^ssh:\/\/[^\s]+\.git$/i], [/^git:\/\/[^\s]+\.git$/i] and
    [/^(file:\/\/)?\/[^\s]+$/]. *)
Definition httpsPattern : regex :=
  seqs [Bol; LitI (js "http"); Opt (ChrI (code "s")); LitI (js "://");
        Plus nonWhitespace; LitI (js ".git"); Eol].
Definition sshPattern1 : regex :=
  seqs [Bol; LitI (js "git@");
        Plus (Chars (fun c => negb (isWhiteSpace c || (c =? code ":")%N)));
        ChrI (code ":"); Plus nonWhitespace; LitI (js ".git"); Eol].
Definition sshPattern2 : regex :=
  seqs [Bol; LitI (js "ssh://"); Plus nonWhitespace; LitI (js ".git"); Eol].
Definition gitPattern : regex :=
  seqs [Bol; LitI (js "git://"); Plus nonWhitespace; LitI (js ".git"); Eol].
Definition filePattern : regex :=
  seqs [Bol; Opt (Group 1 (Lit (js "file://"))); Chr (code "/");
        Plus nonWhitespace; Eol].

(** [/(^|\/)\.\.($|\/)/] *)
Definition parentReference : regex :=
  seqs [Group 1 (Alt Bol (Chr (code "/"))); Lit (js "..");
        Group 2 (Alt Eol (Chr (code "/")))].

(** The patterns of the sanitiser: [/\s+/g], [/_+/g], [/\.{2,}/g],
    [/\/{2,}/g], [/^[-./]+/] and [/[-./]+$/]. *)
Definition separators : regex := OneOf [code "-"; code "."; code "/"].
Definition whitespaceRun : regex := Plus whitespace.
Definition underscoreRun : regex := Plus underscore.
Definition dotRun : regex := AtLeast2 (Chr (code ".")).
Definition slashRun : regex := AtLeast2 (Chr (code "/")).
Definition leadingSeparators : regex := Seq Bol (Plus separators).
Definition trailingSeparators : regex := Seq (Plus separators) Eol.

(** [/^[\w-]+:\s|^[\w-]+\s#/] *)
Definition wordOrDash : regex := Chars (fun c => isWord c || (c =? code "-")%N).
Definition footerToken : regex :=
  Alt (seqs [Bol; Plus wordOrDash; Chr (code ":"); whitespace])
      (seqs [Bol; Plus wordOrDash; whitespace; Chr (code "#")]).

(** *** validateBranchName *)

Definition isBlank (s : str) : bool :=
  match s with [] => true | _ :: _ => (length (trim s) =? 0)%nat end.

Definition exceeds (len : nat) (limit : option Z) : bool :=
  truthyNum limit &&
  match limit with Some m => (Z.of_nat len >? m)%Z | None => false end.

Definition limitText (limit : option Z) : str :=
  match limit with Some m => numberToString m | None => js "undefined" end.

Definition quote (s : str) : str := [39%N] ++ s ++ [39%N].

Definition validateBranchName (name : str) (options : BranchValidationOptions)
    : ValidationResult :=
  let opt {A} (f : BranchValidationOptions -> prop A) :=
    merged f DEFAULT_BRANCH_OPTIONS options in
  if isBlank name then reject (js "Branch name cannot be empty") else
  let trimmedName := trim name in
  if exceeds (length trimmedName) (opt maxLength) then
    reject (js "Branch name exceeds maximum length of "
            ++ limitText (opt maxLength) ++ js " characters") else
  if match opt reservedNames with
     | Some l => arrayIncludes l (toUpperCase trimmedName)
     | None => false
     end then
    reject (quote trimmedName
            ++ js " is a reserved name and cannot be used as a branch name") else
  if startsWith trimmedName (js ".") then
    reject (js "Branch name cannot start with a dot") else
  if endsWith trimmedName (js ".") then
    reject (js "Branch name cannot end with a dot") else
  if endsWith trimmedName (js ".lock") then
    reject (js "Branch name cannot end with .lock") else
  if test consecutiveDots trimmedName then
    reject (js "Branch name cannot contain consecutive dots") else
  if startsWith trimmedName (js "-") then
    reject (js "Branch name cannot start with a dash") else
  if endsWith trimmedName (js "/") then
    reject (js "Branch name cannot end with a slash") else
  if test consecutiveSlashes trimmedName then
    reject (js "Branch name cannot contain consecutive slashes") else
  if test whitespace trimmedName then
    reject (js "Branch name cannot contain spaces") else
  if test controlChars trimmedName then
    reject (js "Branch name cannot contain control characters") else
  if test special trimmedName then
    reject (js "Branch name cannot contain special characters: ~ ^ : ? * [ ] @ { "
            ++ [92%N]) else
  if negb (truthyBool (opt allowSlash)) && includes trimmedName (js "/") then
    reject (js "Branch name cannot contain slashes") else
  match (match opt enforcePrefix with
         | Some (p :: ps) =>
             if existsb (fun prefix => startsWith trimmedName (prefix ++ js "/"))
                  (p :: ps)
             then None
             else Some (rejectWith
                          (js "Branch name must start with one of: "
                           ++ join (js ", ") (p :: ps))
                          (map (fun q => q ++ js "/" ++ trimmedName) (p :: ps)))
         | _ => None
         end) with
  | Some r => r
  | None =>
  if match opt pattern with
     | Some p => negb (p trimmedName)
     | None => false
     end then
    reject (js "Branch name does not match the required pattern") else
  let suggestions :=
    if negb (includes trimmedName (js "/")) then
      [js "Consider using a prefix like feature/, bugfix/, or hotfix/ for better organization"]
    else [] in
  let warnings :=
    (if (length trimmedName <? 3)%nat then
       [js "Branch name is very short, consider using a more descriptive name"]
     else [])
    ++ (if test upperCase trimmedName then
          [js "Branch name contains uppercase letters, lowercase is recommended"]
        else [])
    ++ (if test underscore trimmedName then
          [js "Branch name contains underscores, consider using dashes instead"]
        else []) in
  acceptWith warnings suggestions
  end.

(** *** sanitizeBranchName *)

Definition sanitizeBranchName (name : str) : str :=
  substring0
    (replaceFirst trailingSeparators []
      (replaceFirst leadingSeparators []
        (replaceAll slashRun (js "/")
          (replaceAll dotRun (js ".")
            (replaceAll special []
              (replaceAll underscoreRun (js "-")
                (replaceAll whitespaceRun (js "-")
                  (toLowerCase (trim name)))))))))
    250.

(** *** validateCommitMessage *)

(** The warnings of the loop [for (let i = 2; i < lines.length; i++)], where
    [ls] is the lines from index [i] on. *)
Fixpoint bodyLineWarnings (limit : option Z) (i : nat) (ls : list str)
    : list str :=
  match ls with
  | [] => []
  | line :: tl =>
      (if exceeds (length line) limit then
         [js "Line " ++ showNat (i + 1) ++ js " exceeds " ++ limitText limit
          ++ js " characters"]
       else [])
      ++ bodyLineWarnings limit (S i) tl
  end.

Definition validateCommitMessage (message : str) (options : CommitMessageOptions)
    : ValidationResult :=
  let opt {A} (f : CommitMessageOptions -> prop A) :=
    merged f DEFAULT_COMMIT_OPTIONS options in
  if isBlank message then reject (js "Commit message cannot be empty") else
  let lines := split LF message in
  let subject := trim (hd [] lines) in
  if (length subject =? 0)%nat then
    reject (js "Commit subject line cannot be empty") else
  if exceeds (length subject) (opt maxSubjectLength) then
    rejectWith
      (js "Commit subject line exceeds " ++ limitText (opt maxSubjectLength)
       ++ js " characters (" ++ showNat (length subject) ++ js ")")
      [js "Consider: " ++ [34%N]
       ++ substring0 subject
            (match opt maxSubjectLength with Some m => m - 3 | None => 0 end)%Z
       ++ js "..." ++ [34%N]] else
  let match_ := matchCaptures conventionalPattern subject in
  match (if truthyBool (opt requireType) then
           match match_ with
           | None =>
               Some (rejectWith
                       (js "Commit message must follow Conventional Commits format: type(scope): description")
                       [js "Example: feat: " ++ subject;
                        js "Example: fix(core): " ++ subject])
           | Some caps =>
               let type := match capture 1 caps with Some t => t | None => [] end in
               let scope := capture 2 caps in
               if match opt allowedTypes with
                  | Some l => negb (arrayIncludes l type)
                  | None => false
                  end then
                 Some (reject
                         (js "Invalid commit type: " ++ quote type
                          ++ js ". Allowed types: "
                          ++ join (js ", ")
                               (match opt allowedTypes with Some l => l | None => [] end)))
               else if truthyBool (opt requireScope) && negb (truthyStr scope) then
                 Some (reject
                         (js "Commit message must include a scope: type(scope): description"))
               else
                 match scope, opt allowedScopes with
                 | Some (c :: sc), Some l =>
                     if negb (arrayIncludes l (c :: sc)) then
                       Some (reject
                               (js "Invalid commit scope: " ++ quote (c :: sc)
                                ++ js ". Allowed scopes: " ++ join (js ", ") l))
                     else None
                 | _, _ => None
                 end
           end
         else None) with
  | Some r => r
  | None =>
  let matched := match match_ with Some _ => true | None => false end in
  let warnings :=
    (match lines with
     | _ :: second :: body =>
         (if (0 <? length (trim second))%nat then
            [js "The second line should be blank to separate subject from body"]
          else [])
         ++ bodyLineWarnings (opt maxBodyLineLength) 2 body
     | _ => []
     end)
    ++ (if endsWith subject (js ".") then
          [js "Subject line should not end with a period"]
        else []) in
  let suggestions :=
    (if negb (test capitalised subject) && negb matched then
       [js "Consider capitalizing the first letter of the subject"]
     else [])
    ++ (if negb matched && (0 <? length subject)%nat then
          [js "Consider using Conventional Commits format: type(scope): description"]
        else []) in
  acceptWith warnings suggestions
  end.

(** *** validateTagName, validateRemoteName, validateRemoteUrl,
    validateStashMessage, validateFilePath *)

Definition validateTagName (name : str) : ValidationResult :=
  if isBlank name then reject (js "Tag name cannot be empty") else
  let trimmedName := trim name in
  if test whitespace trimmedName then
    reject (js "Tag name cannot contain spaces") else
  if test special trimmedName then
    reject (js "Tag name cannot contain special characters: ~ ^ : ? * [ ] @ { "
            ++ [92%N]) else
  if startsWith trimmedName (js "-") then
    reject (js "Tag name cannot start with a dash") else
  if negb (test semverPattern trimmedName) then
    acceptSuggesting [js "Consider using semantic versioning format: v1.0.0"]
  else accept.

Definition validateRemoteName (name : str) : ValidationResult :=
  if isBlank name then reject (js "Remote name cannot be empty") else
  let trimmedName := trim name in
  if test whitespace trimmedName then
    reject (js "Remote name cannot contain spaces") else
  if test remoteSpecial trimmedName then
    reject (js "Remote name cannot contain special characters") else
  if negb (arrayIncludes (map js ["origin"; "upstream"; "fork"]%string)
             (toLowerCase trimmedName)) then
    acceptSuggesting [js "Common remote names: origin, upstream, fork"]
  else accept.

Definition validateRemoteUrl (url : str) : ValidationResult :=
  if isBlank url then reject (js "Remote URL cannot be empty") else
  let trimmedUrl := trim url in
  let isValid :=
    test httpsPattern trimmedUrl
    || test sshPattern1 trimmedUrl
    || test sshPattern2 trimmedUrl
    || test gitPattern trimmedUrl
    || test filePattern trimmedUrl in
  if negb isValid then
    rejectWith (js "Invalid remote URL format")
      [js "HTTPS: https://github.com/user/repo.git";
       js "SSH: git@github.com:user/repo.git"] else
  if test gitPattern trimmedUrl then
    acceptWarning [js "Git protocol is unencrypted. Consider using HTTPS or SSH."]
  else accept.

Definition validateStashMessage (message : str) : ValidationResult :=
  if isBlank message then
    acceptSuggesting [js "Consider adding a descriptive message for your stash"] else
  let trimmedMessage := trim message in
  if (500 <? length trimmedMessage)%nat then
    reject (js "Stash message is too long (max 500 characters)")
  else accept.

Definition validateFilePath (filePath : str) : ValidationResult :=
  if isBlank filePath then reject (js "File path cannot be empty") else
  let trimmedPath := trim filePath in
  if includes trimmedPath [NUL] then
    reject (js "File path cannot contain null bytes") else
  if test parentReference trimmedPath then
    reject (js "File path cannot contain parent directory references (..)")
  else accept.

(** *** generateConventionalCommit and parseConventionalCommit *)

Definition generateConventionalCommit (type : str) (scope : option str)
    (description : str) (body : option str) (breaking : option bool)
    (footer : option str) : str :=
  let message := type in
  let message :=
    match scope with
    | Some (c :: sc) => message ++ js "(" ++ (c :: sc) ++ js ")"
    | _ => message
    end in
  let message := if truthyBool breaking then message ++ js "!" else message in
  let message := message ++ js ": " ++ description in
  let message :=
    match body with
    | Some (c :: b) => message ++ nl ++ nl ++ (c :: b)
    | _ => message
    end in
  let message :=
    match footer with
    | Some (c :: f) => message ++ nl ++ nl ++ (c :: f)
    | _ => message
    end in
  message.

Record ParsedCommit : Type := mkParsed {
  type : str;
  scope : option str;
  breaking : bool;
  description : str;
  body : option str;
  footer : option str
}.

(** The loop over [lines[2 ..]]: [inFooter] is the flag, and the two
    accumulators are returned in the order the lines were pushed. *)
Fixpoint classifyLines (inFooter : bool) (ls : list str) : list str * list str :=
  match ls with
  | [] => ([], [])
  | line :: tl =>
      let inFooter := if test footerToken line then true else inFooter in
      let (bodyLines, footerLines) := classifyLines inFooter tl in
      if inFooter then (bodyLines, line :: footerLines)
      else (line :: bodyLines, footerLines)
  end.

Definition joinedOrUndefined (ls : list str) : option str :=
  match ls with
  | [] => None
  | _ :: _ => Some (trim (join nl ls))
  end.

Definition parseConventionalCommit (message : str) : option ParsedCommit :=
  let lines := split LF message in
  let subject := hd [] lines in
  match matchCaptures conventionalPattern subject with
  | None => None
  | Some caps =>
      let (bodyLines, footerLines) :=
        if (2 <? length lines)%nat then classifyLines false (skipn 2 lines)
        else ([], []) in
      Some (mkParsed
              (match capture 1 caps with Some t => t | None => [] end)
              (capture 2 caps)
              (match capture 3 caps with
               | Some b => str_eqb b (js "!")
               | None => false
               end)
              (match capture 4 caps with Some d => d | None => [] end)
              (joinedOrUndefined bodyLines)
              (joinedOrUndefined footerLines))
  end.

End Host.

End GitValidation.

(** ** Statements taken from the specification *)

Module Spec.
Import JS RegExp GitValidation.

Section Host.
Context {builtins : Builtins}.

(** The sixteen rules of [validateBranchName], in the order in which the
    specification lists them. *)
Inductive BranchRule : Type :=
| RuleEmpty | RuleMaxLength | RuleReserved | RuleLeadingDot | RuleTrailingDot
| RuleLockSuffix | RuleConsecutiveDots | RuleLeadingDash | RuleTrailingSlash
| RuleConsecutiveSlashes | RuleWhitespace | RuleControl | RuleSpecial
| RuleAllowSlash | RuleEnforcePrefix | RulePattern.

Definition checkOrder : list BranchRule :=
  [RuleEmpty; RuleMaxLength; RuleReserved; RuleLeadingDot; RuleTrailingDot;
   RuleLockSuffix; RuleConsecutiveDots; RuleLeadingDash; RuleTrailingSlash;
   RuleConsecutiveSlashes; RuleWhitespace; RuleControl; RuleSpecial;
   RuleAllowSlash; RuleEnforcePrefix; RulePattern].

Section Rules.
Variable options : BranchValidationOptions.
Variable name : str.

(** An option as the caller sees it: the value given, or else the default
    the specification names. *)
Let opt {A} (f : BranchValidationOptions -> prop A) : option A :=
  merged f DEFAULT_BRANCH_OPTIONS options.
Let trimmedName : str := trim name.

(** Whether [name] violates a rule, each rule taken on its own and read as
    the specification words it: 1 "empty or whitespace-only", 2 "trimmed
    length exceeds [maxLength]", 3 "upper-cased trimmed name is in
    [reservedNames]", 4 to 10 on the dots, the dash and the slashes, 11
    "contains any whitespace character", 12 "contains a control character
    (0x00-0x1F or 0x7F)", 13 "contains any of the literal characters",
    14 "[allowSlash] is false and name contains [/]", 15 "[enforcePrefix]
    is set and non-empty and no [prefix + "/"] matches the start of the
    name", 16 "[pattern] is set and the trimmed name does not match it". *)
Definition claimedViolates (r : BranchRule) : bool :=
  match r with
  | RuleEmpty => forallb isWhiteSpace name
  | RuleMaxLength =>
      match opt maxLength with
      | Some limit => (limit <? Z.of_nat (length trimmedName))%Z
      | None => false
      end
  | RuleReserved =>
      match opt reservedNames with
      | Some l => arrayIncludes l (toUpperCase trimmedName)
      | None => false
      end
  | RuleLeadingDot => startsWith trimmedName (js ".")
  | RuleTrailingDot => endsWith trimmedName (js ".")
  | RuleLockSuffix => endsWith trimmedName (js ".lock")
  | RuleConsecutiveDots => includes trimmedName (js "..")
  | RuleLeadingDash => startsWith trimmedName (js "-")
  | RuleTrailingSlash => endsWith trimmedName (js "/")
  | RuleConsecutiveSlashes => includes trimmedName (js "//")
  | RuleWhitespace => existsb isWhiteSpace trimmedName
  | RuleControl =>
      existsb (fun c => (c <=? 31)%N || (c =? 127)%N) trimmedName
  | RuleSpecial => existsb (fun c => mem c specialChars) trimmedName
  | RuleAllowSlash =>
      match opt allowSlash with
      | Some false => includes trimmedName (js "/")
      | _ => false
      end
  | RuleEnforcePrefix =>
      match opt enforcePrefix with
      | Some (p :: ps) =>
          negb (existsb (fun prefix => startsWith trimmedName (prefix ++ js "/"))
                  (p :: ps))
      | _ => false
      end
  | RulePattern =>
      match opt pattern with
      | Some p => negb (p trimmedName)
      | None => false
      end
  end.

(** The same rules with two of them read as the validator applies them:
    rule 2 only for a limit other than [0], and rule 14 whenever
    [allowSlash] is not [true], which includes an [allowSlash] given as
    [undefined]. *)
Definition violates (r : BranchRule) : bool :=
  match r with
  | RuleMaxLength =>
      match opt maxLength with
      | Some limit =>
          negb (limit =? 0)%Z && (limit <? Z.of_nat (length trimmedName))%Z
      | None => false
      end
  | RuleAllowSlash =>
      match opt allowSlash with
      | Some true => false
      | _ => includes trimmedName (js "/")
      end
  | _ => claimedViolates r
  end.

(** The message of a rule. *)
Definition message (r : BranchRule) : str :=
  match r with
  | RuleEmpty => js "Branch name cannot be empty"
  | RuleMaxLength =>
      js "Branch name exceeds maximum length of "
      ++ match opt maxLength with
         | Some limit => numberToString limit
         | None => js "undefined"
         end
      ++ js " characters"
  | RuleReserved =>
      js "'" ++ trimmedName
      ++ js "' is a reserved name and cannot be used as a branch name"
  | RuleLeadingDot => js "Branch name cannot start with a dot"
  | RuleTrailingDot => js "Branch name cannot end with a dot"
  | RuleLockSuffix => js "Branch name cannot end with .lock"
  | RuleConsecutiveDots => js "Branch name cannot contain consecutive dots"
  | RuleLeadingDash => js "Branch name cannot start with a dash"
  | RuleTrailingSlash => js "Branch name cannot end with a slash"
  | RuleConsecutiveSlashes => js "Branch name cannot contain consecutive slashes"
  | RuleWhitespace => js "Branch name cannot contain spaces"
  | RuleControl => js "Branch name cannot contain control characters"
  | RuleSpecial =>
      js "Branch name cannot contain special characters: ~ ^ : ? * [ ] @ { "
      ++ [92%N]
  | RuleAllowSlash => js "Branch name cannot contain slashes"
  | RuleEnforcePrefix =>
      js "Branch name must start with one of: "
      ++ join (js ", ") (match opt enforcePrefix with Some l => l | None => [] end)
  | RulePattern => js "Branch name does not match the required pattern"
  end.

Definition firstViolation : option BranchRule := find violates checkOrder.

End Rules.


(** The shape of a result as the data model words it, and the shape without
    the clause on suggestions. *)
Definition errorIffInvalid (r : ValidationResult) : Prop :=
  error r <> None <-> valid r = false.

Definition exclusiveShape (r : ValidationResult) : Prop :=
  errorIffInvalid r /\
  (error r <> None -> warnings r = None /\ suggestions r = None).

Definition resultShape (r : ValidationResult) : Prop :=
  errorIffInvalid r /\ (error r <> None -> warnings r = None).

(** The four rejections that are returned with suggestions: the one of the
    [enforcePrefix] rule, those of the subject length and of the commit
    format, and the one of the URL format. *)
Definition prefixRejection (options : BranchValidationOptions) (name : str)
    : ValidationResult :=
  let prefixes :=
    match merged enforcePrefix DEFAULT_BRANCH_OPTIONS options with
    | Some l => l
    | None => []
    end in
  rejectWith
    (js "Branch name must start with one of: " ++ join (js ", ") prefixes)
    (map (fun prefix => prefix ++ js "/" ++ trim name) prefixes).

Definition subjectOfMessage (message : str) : str :=
  trim (hd [] (split LF message)).

Definition subjectLengthRejection (options : CommitMessageOptions)
    (message : str) : ValidationResult :=
  let limit := merged maxSubjectLength DEFAULT_COMMIT_OPTIONS options in
  let subject := subjectOfMessage message in
  rejectWith
    (js "Commit subject line exceeds "
     ++ match limit with Some m => numberToString m | None => js "undefined" end
     ++ js " characters (" ++ showNat (length subject) ++ js ")")
    [js "Consider: " ++ [34%N]
     ++ substring0 subject (match limit with Some m => m - 3 | None => 0 end)%Z
     ++ js "..." ++ [34%N]].

Definition formatRejection (message : str) : ValidationResult :=
  rejectWith
    (js "Commit message must follow Conventional Commits format: type(scope): description")
    [js "Example: feat: " ++ subjectOfMessage message;
     js "Example: fix(core): " ++ subjectOfMessage message].

Definition urlRejection : ValidationResult :=
  rejectWith (js "Invalid remote URL format")
    [js "HTTPS: https://github.com/user/repo.git";
     js "SSH: git@github.com:user/repo.git"].

(** Path segments, and the paths [validateFilePath] is said to reject: the
    blank ones, those with a null byte and those with [..] as a whole
    segment. [rejectedPath] reads the segments off the trimmed path. *)
Definition segments (p : str) : list str := split (code "/") p.

Definition claimedRejectedPath (p : str) : Prop :=
  trim p = [] \/ In NUL p \/ In (js "..") (segments p).

Definition rejectedPath (p : str) : Prop :=
  trim p = [] \/ In NUL p \/ In (js "..") (segments (trim p)).

(** The forms of remote URL. [SchemeUrl scheme t]: [t] is [scheme], at
    least one character, and [.git], with no white space in between and
    letter case ignored in [scheme] and [.git]. [ShorthandUrl]: the SSH
    shorthand [git@host:path.git]. [LocalPath]: an absolute path, with or
    without [file://] in front, letter case observed. *)
Definition sameIgnoringCase (a b : str) : Prop := canonical a = canonical b.

Definition spaceFree (s : str) : Prop :=
  forallb (fun c => negb (isWhiteSpace c)) s = true.

Definition SchemeUrl (scheme : str) (t : str) : Prop :=
  exists s body ext,
    t = s ++ body ++ ext /\ sameIgnoringCase s scheme /\
    body <> [] /\ spaceFree body /\ sameIgnoringCase ext (js ".git").

Definition ShorthandUrl (t : str) : Prop :=
  exists user host path ext,
    t = user ++ host ++ js ":" ++ path ++ ext /\
    sameIgnoringCase user (js "git@") /\
    host <> [] /\ spaceFree host /\ ~ In (code ":") host /\
    path <> [] /\ spaceFree path /\ sameIgnoringCase ext (js ".git").

Definition LocalPath (t : str) : Prop :=
  exists p, p <> [] /\ spaceFree p /\
    (t = js "/" ++ p \/ t = js "file:///" ++ p).

Definition AcceptedUrl (t : str) : Prop :=
  SchemeUrl (js "https://") t \/ SchemeUrl (js "http://") t \/
  ShorthandUrl t \/
  SchemeUrl (js "ssh://") t \/ SchemeUrl (js "git://") t \/
  LocalPath t.

(** Inputs to [generateConventionalCommit] and the round trip through
    [parseConventionalCommit]. [claimedInputs] is the condition of the
    specification; the other conditions are those under which the parser
    does give the inputs back. *)
Definition free (s : str) : Prop :=
  ~ In (code ")") s /\ ~ In (code ":") s /\ ~ In LF s.

Definition claimedInputs (type : str) (scope : option str) (description : str)
    : Prop :=
  type <> [] /\ forallb isWord type = true /\
  match scope with Some sc => free sc | None => True end /\
  free description.

Definition roundTrips (type : str) (scope : option str) (description : str)
    (body : option str) (breaking : bool) (footer : option str) : Prop :=
  parseConventionalCommit
    (generateConventionalCommit type scope description body (Some breaking) footer)
  = Some (mkParsed type scope breaking description body footer).

Definition stopsAt (cls : cu -> bool) (s : str) : Prop :=
  match s with [] => True | c :: _ => cls c = false end.

Definition plainScope (scope : option str) : Prop :=
  match scope with
  | Some sc => sc <> [] /\ ~ In (code ")") sc /\ ~ In LF sc
  | None => True
  end.

Definition plainDescription (d : str) : Prop :=
  d <> [] /\ stopsAt isWhiteSpace d /\
  forallb (fun c => negb (isLineTerminator c)) d = true.

Definition plainBody (body : option str) : Prop :=
  match body with
  | Some b =>
      b <> [] /\ trim b = b /\
      Forall (fun line => test footerToken line = false) (split LF b)
  | None => True
  end.

Definition tokenFooter (footer : option str) : Prop :=
  match footer with
  | Some f =>
      f <> [] /\ trim f = f /\ test footerToken (hd [] (split LF f)) = true
  | None => True
  end.

(** The first line [generateConventionalCommit] writes, the section it
    appends for a body or a footer, and the captures the subject pattern is
    to make on that first line. *)
Definition scopeText (scope : option str) : str :=
  match scope with
  | Some (c :: sc) => js "(" ++ (c :: sc) ++ js ")"
  | _ => []
  end.

Definition subjectLine (type : str) (scope : option str) (breaking : bool)
    (description : str) : str :=
  type ++ scopeText scope ++ (if breaking then js "!" else [])
  ++ js ": " ++ description.

Definition section (text : option str) : str :=
  match text with
  | Some (c :: t) => nl ++ nl ++ (c :: t)
  | _ => []
  end.

Definition subjectCaptures (type : str) (scope : option str) (breaking : bool)
    (description : str) : list (nat * str) :=
  [(4%nat, description)]
  ++ (if breaking then [(3%nat, js "!")] else [])
  ++ match scope with Some (c :: sc) => [(2%nat, c :: sc)] | _ => [] end
  ++ [(1%nat, type)].

(** The lines a section adds to a message: a blank line and its own. *)
Definition sectionLines (text : option str) : list str :=
  match text with
  | Some (c :: t) => [] :: split LF (c :: t)
  | _ => []
  end.

(** The subject pattern after its first group. *)
Definition afterType : regex :=
  seqs [Opt (seqs [Chr (code "("); Group 2 (Plus (NoneOf [code ")"]));
                   Chr (code ")")]);
        Opt (Group 3 (Chr (code "!")));
        Chr (code ":"); Star whitespace; Group 4 (Plus dot); Eol].

(** The steps of the sanitiser as list functions: a run of [p] replaced by
    one [c] ([inRun]: the previous character was in a run); runs of two or
    more [c] replaced by one; a final run of [p] removed; and the ten steps
    in a row. *)
Fixpoint collapseRuns (p : cu -> bool) (c : cu) (inRun : bool) (s : str) : str :=
  match s with
  | [] => []
  | x :: tl =>
      if p x then
        if inRun then collapseRuns p c true tl
        else c :: collapseRuns p c true tl
      else x :: collapseRuns p c false tl
  end.

Fixpoint squeeze (c : cu) (s : str) : str :=
  match s with
  | [] => []
  | x :: tl =>
      if (x =? c)%N && match tl with y :: _ => (y =? c)%N | [] => false end
      then squeeze c tl
      else x :: squeeze c tl
  end.

Fixpoint stripEnd (p : cu -> bool) (s : str) : str :=
  match s with
  | [] => []
  | x :: tl => if forallb p (x :: tl) then [] else x :: stripEnd p tl
  end.

Fixpoint noPair (c : cu) (s : str) : bool :=
  match s with
  | [] => true
  | x :: tl =>
      negb ((x =? c)%N && match tl with y :: _ => (y =? c)%N | [] => false end)
      && noPair c tl
  end.

Definition isSeparator (c : cu) : bool := mem c [code "-"; code "."; code "/"].
Definition isSpecial (c : cu) : bool := mem c specialChars.
Definition isUnderscore (c : cu) : bool := (code "_" =? c)%N.

Definition beforeTruncation (name : str) : str :=
  stripEnd isSeparator
    (dropWhile isSeparator
      (squeeze (code "/")
        (squeeze (code ".")
          (filter (fun c => negb (isSpecial c))
            (collapseRuns isUnderscore (code "-") false
              (collapseRuns isWhiteSpace (code "-") false
                (toLowerCase (trim name)))))))).

(** A name the sanitiser has nothing to do on, its end apart: no white
    space, underscore, special or upper-case character, no two dots or
    slashes in a row, no separator in front. *)
Definition Clean (t : str) : Prop :=
  (forall x, In x t ->
     isWhiteSpace x = false /\ isUnderscore x = false /\
     isSpecial x = false /\ lowerCU x = x) /\
  noPair (code ".") t = true /\ noPair (code "/") t = true /\
  stopsAt isSeparator t.

End Host.

End Spec.

(** ** The BranchProtectionManager class

    The rule registry and the naming convention of
    [src/services/branchProtectionManager.ts], which calls
    [GitValidation.validateBranchName] and
    [GitValidation.sanitizeBranchName]. The object is its two fields; a
    method that writes a field returns the new object. *)

Module BranchProtectionManager.
Import JS RegExp.

Record BranchProtectionRule : Type := mkRule {
  pattern : str;
  isRegex : bool;
  preventDelete : bool;
  preventForcePush : bool;
  requirePullRequest : bool;
  requireLinearHistory : bool;
  requireSignedCommits : bool;
  allowedPushers : option (list str)
}.

Record BranchNamingConvention : Type := mkConvention {
  enabled : bool;
  patterns : list str;
  prefixes : list str;
  separator : str;
  requireTicketNumber : bool;
  ticketPattern : option str;
  maxLength : Z
}.

Definition DEFAULT_PROTECTED_BRANCHES : list BranchProtectionRule :=
  [mkRule (js "main") false true true true false false None;
   mkRule (js "master") false true true true false false None;
   mkRule (js "develop") false true true false false false None;
   mkRule (js "^release/.*$") true false true true false false None;
   mkRule (js "^hotfix/.*$") true false true true false false None].

Definition DEFAULT_NAMING_CONVENTION : BranchNamingConvention :=
  mkConvention false
    [js "^(feature|bugfix|hotfix|release|docs|chore|refactor|test)/[a-z0-9-]+$"]
    (map js ["feature"; "bugfix"; "hotfix"; "release"; "docs"; "chore";
             "refactor"; "test"]%string)
    (js "/") false (Some (js "[A-Z]+-\d+")) 100.

Record BranchOperationValidation : Type := mkValidation {
  allowed : bool;
  rule : option BranchProtectionRule;
  reason : option str;
  warnings : option (list str)
}.

(** [{ allowed: true }] and [{ allowed: false, reason }]. *)
Definition allow : BranchOperationValidation := mkValidation true None None None.
Definition refuse (reason : option str) : BranchOperationValidation :=
  mkValidation false None reason None.

(** The two fields of the manager that its methods read and write. *)
Record Manager : Type := mkManager {
  protectionRules : list BranchProtectionRule;
  namingConvention : BranchNamingConvention
}.

(** The constructor. *)
Definition create : Manager :=
  mkManager DEFAULT_PROTECTED_BRANCHES DEFAULT_NAMING_CONVENTION.

Section Methods.

(** [new RegExp(source)], seen through the [test] method of the object it
    builds; [None] when the constructor throws a [SyntaxError]. *)
Variable newRegExp : str -> option (str -> bool).
Context {builtins : Builtins}.

Definition matchesRule (branchName : str) (rule : BranchProtectionRule) : bool :=
  if isRegex rule then
    match newRegExp (pattern rule) with
    | Some regex => regex branchName
    | None => false
    end
  else str_eqb branchName (pattern rule).

Definition getProtectionRule (this : Manager) (branchName : str)
    : option BranchProtectionRule :=
  find (matchesRule branchName) (protectionRules this).

Definition isProtected (this : Manager) (branchName : str) : bool :=
  match getProtectionRule this branchName with
  | Some _ => true
  | None => false
  end.

Definition validateDelete (this : Manager) (branchName : str)
    : BranchOperationValidation :=
  match getProtectionRule this branchName with
  | Some rule =>
      if preventDelete rule then
        mkValidation false (Some rule)
          (Some (js "Branch '" ++ branchName
                 ++ js "' is protected and cannot be deleted."))
          None
      else allow
  | None => allow
  end.

Definition validateForcePush (this : Manager) (branchName : str)
    : BranchOperationValidation :=
  match getProtectionRule this branchName with
  | Some rule =>
      if preventForcePush rule then
        mkValidation false (Some rule)
          (Some (js "Force push to '" ++ branchName
                 ++ js "' is not allowed. This branch is protected."))
          None
      else allow
  | None => allow
  end.

Definition validateDirectPush (this : Manager) (branchName : str)
    : BranchOperationValidation :=
  match getProtectionRule this branchName with
  | Some rule =>
      if requirePullRequest rule then
        mkValidation false (Some rule)
          (Some (js "Direct push to '" ++ branchName
                 ++ js "' is not allowed. Please create a pull request."))
          (Some [js "This branch requires changes to be submitted via pull request."])
      else allow
  | None => allow
  end.

(** [warnings.length > 0 ? warnings : undefined] *)
Definition nonEmpty (warnings : list str) : option (list str) :=
  match warnings with
  | [] => None
  | _ :: _ => Some warnings
  end.

Definition hasPrefix (convention : BranchNamingConvention) (name : str) : bool :=
  existsb (fun prefix => startsWith name (prefix ++ separator convention))
    (prefixes convention).

(** [validateBranchName]. The result is [None] when the call throws: the
    ticket pattern is compiled outside any [try], the recommended patterns
    inside one. *)
Definition validateBranchName (this : Manager) (branchName : str)
    : option BranchOperationValidation :=
  let convention := namingConvention this in
  let gitValidation :=
    GitValidation.validateBranchName branchName GitValidation.noBranchOptions in
  if negb (GitValidation.valid gitValidation) then
    Some (refuse (GitValidation.error gitValidation)) else
  let warnings :=
    match GitValidation.warnings gitValidation with
    | Some w => w
    | None => []
    end in
  if enabled convention then
    if (Z.of_nat (length branchName) >? maxLength convention)%Z then
      Some (refuse (Some (js "Branch name exceeds maximum length of "
                          ++ numberToString (maxLength convention)
                          ++ js " characters.")))
    else if negb (hasPrefix convention branchName) then
      Some (refuse (Some (js "Branch name must start with one of: "
                          ++ join (js ", ") (prefixes convention))))
    else
      match (if requireTicketNumber convention
                && truthyStr (ticketPattern convention) then
               let source :=
                 match ticketPattern convention with Some p => p | None => [] end in
               match newRegExp source with
               | None => Some None
               | Some ticketRegex =>
                   if negb (ticketRegex branchName) then
                     Some (Some (refuse
                             (Some (js "Branch name must include a ticket number (pattern: "
                                    ++ source ++ js ")"))))
                   else None
               end
             else None) with
      | Some thrownOrReturned => thrownOrReturned
      | None =>
          let matchesPattern :=
            existsb (fun pattern =>
                       match newRegExp pattern with
                       | Some regex => regex branchName
                       | None => false
                       end) (patterns convention) in
          let warnings :=
            if negb matchesPattern then
              warnings
              ++ [js "Branch name does not match the recommended naming pattern."]
            else warnings in
          Some (mkValidation true None None (nonEmpty warnings))
      end
  else Some (mkValidation true None None (nonEmpty warnings)).

(** [suggestBranchName(input, type = 'feature')]: a missing [type] is
    [None]. *)
Definition suggestBranchName (this : Manager) (input : str) (type : option str)
    : str :=
  let type := match type with Some t => t | None => js "feature" end in
  let convention := namingConvention this in
  let suggestion := GitValidation.sanitizeBranchName input in
  let suggestion :=
    if negb (hasPrefix convention suggestion)
       && arrayIncludes (prefixes convention) type
    then type ++ separator convention ++ suggestion
    else suggestion in
  if (Z.of_nat (length suggestion) >? maxLength convention)%Z
  then substring0 suggestion (maxLength convention)
  else suggestion.

End Methods.

Definition getProtectedBranches (this : Manager) : list str :=
  map pattern (filter (fun rule => negb (isRegex rule)) (protectionRules this)).

Definition getProtectionRules (this : Manager) : list BranchProtectionRule :=
  protectionRules this.

Definition addProtectionRule (this : Manager) (rule : BranchProtectionRule)
    : Manager :=
  mkManager
    (filter (fun r => negb (str_eqb (pattern r) (pattern rule)))
       (protectionRules this) ++ [rule])
    (namingConvention this).

Definition removeProtectionRule (this : Manager) (pattern' : str) : Manager :=
  mkManager
    (filter (fun r => negb (str_eqb (pattern r) pattern')) (protectionRules this))
    (namingConvention this).

Definition getNamingConvention (this : Manager) : BranchNamingConvention :=
  namingConvention this.

End BranchProtectionManager.

(** ** The CommitTemplateManager class

    The template registry, the commit-message reader and the commit-message
    writer of [src/services/commitTemplateManager.ts], which calls
    [GitValidation.parseConventionalCommit]. *)

Module CommitTemplateManager.
Import JS RegExp.

Record TemplatePlaceholder : Type := mkPlaceholder {
  key : str;
  label : str;
  placeholderDescription : option str;
  required : bool;
  defaultValue : option str;
  options : option (list str);
  validation : option str
}.

Record CommitTemplate : Type := mkTemplate {
  id : str;
  name : str;
  description : option str;
  template : str;
  placeholders : option (list TemplatePlaceholder);
  isDefault : option bool;
  category : option str
}.

Record ParsedCommitMessage : Type := mkParsedMessage {
  type : option str;
  scope : option str;
  subject : str;
  body : option str;
  footer : option str;
  breaking : bool;
  issues : option (list str)
}.

(** A placeholder with a key and a label, required or not, and the other
    properties absent. *)
Definition field (k l : string) (req : bool) : TemplatePlaceholder :=
  mkPlaceholder (js k) (js l) None req None None None.

Definition allTypes : list str :=
  map js ["feat"; "fix"; "docs"; "style"; "refactor"; "perf"; "test"; "build";
          "ci"; "chore"; "revert"]%string.

Definition typeField (types : list str) (dflt : option str) : TemplatePlaceholder :=
  mkPlaceholder (js "type") (js "Type") None true dflt (Some types) None.

Definition DEFAULT_TEMPLATES : list CommitTemplate :=
  [mkTemplate (js "conventional-basic") (js "Basic Conventional Commit")
     (Some (js "Simple conventional commit format"))
     (js "{{type}}: {{subject}}")
     (Some [typeField allTypes None;
            mkPlaceholder (js "subject") (js "Subject")
              (Some (js "Short description of the change")) true None None None])
     (Some true) (Some (js "Conventional Commits"));
   mkTemplate (js "conventional-scope") (js "Conventional Commit with Scope")
     (Some (js "Conventional commit with optional scope"))
     (js "{{type}}({{scope}}): {{subject}}")
     (Some [typeField allTypes None;
            mkPlaceholder (js "scope") (js "Scope")
              (Some (js "Component or area affected")) false None None None;
            field "subject" "Subject" true])
     None (Some (js "Conventional Commits"));
   mkTemplate (js "conventional-full") (js "Full Conventional Commit")
     (Some (js "Complete conventional commit with body and footer"))
     (js "{{type}}({{scope}}): {{subject}}" ++ nl ++ nl ++ js "{{body}}"
      ++ nl ++ nl ++ js "{{footer}}")
     (Some [typeField allTypes None;
            field "scope" "Scope" false;
            field "subject" "Subject" true;
            mkPlaceholder (js "body") (js "Body")
              (Some (js "Detailed description of the change")) false None None None;
            mkPlaceholder (js "footer") (js "Footer")
              (Some (js "BREAKING CHANGE or issue references")) false None None None])
     None (Some (js "Conventional Commits"));
   mkTemplate (js "breaking-change") (js "Breaking Change")
     (Some (js "Commit with breaking change indicator"))
     (js "{{type}}({{scope}})!: {{subject}}" ++ nl ++ nl
      ++ js "BREAKING CHANGE: {{breakingDescription}}" ++ nl ++ nl ++ js "{{body}}")
     (Some [typeField (map js ["feat"; "fix"; "refactor"]%string) (Some (js "feat"));
            field "scope" "Scope" false;
            field "subject" "Subject" true;
            mkPlaceholder (js "breakingDescription") (js "Breaking Change Description")
              (Some (js "Describe the breaking change")) true None None None;
            field "body" "Additional Details" false])
     None (Some (js "Breaking Changes"));
   mkTemplate (js "issue-fix") (js "Fix Issue")
     (Some (js "Commit that fixes an issue"))
     (js "fix({{scope}}): {{subject}}" ++ nl ++ nl ++ js "Fixes #{{issueNumber}}"
      ++ nl ++ nl ++ js "{{body}}")
     (Some [field "scope" "Scope" false;
            field "subject" "Subject" true;
            mkPlaceholder (js "issueNumber") (js "Issue Number") None true None None
              (Some (js "\d+"));
            field "body" "Additional Details" false])
     None (Some (js "Issue Tracking"));
   mkTemplate (js "co-authored") (js "Co-Authored Commit")
     (Some (js "Commit with co-authors"))
     (js "{{type}}: {{subject}}" ++ nl ++ nl ++ js "{{body}}" ++ nl ++ nl
      ++ js "Co-authored-by: {{coAuthor}}")
     (Some [typeField (map js ["feat"; "fix"; "docs"; "refactor"]%string) None;
            field "subject" "Subject" true;
            field "body" "Body" false;
            mkPlaceholder (js "coAuthor") (js "Co-Author")
              (Some (js "Format: Name <email>")) true None None None])
     None (Some (js "Collaboration"));
   mkTemplate (js "release") (js "Release Commit")
     (Some (js "Version release commit"))
     (js "chore(release): v{{version}}" ++ nl ++ nl ++ js "{{changelog}}"
      ++ nl ++ nl ++ js "Signed-off-by: {{author}}")
     (Some [mkPlaceholder (js "version") (js "Version")
              (Some (js "Semantic version (e.g., 1.2.3)")) true None None
              (Some (js "\d+\.\d+\.\d+"));
            mkPlaceholder (js "changelog") (js "Changelog")
              (Some (js "Brief changelog")) false None None None;
            field "author" "Signed-off-by" false])
     None (Some (js "Release"))].

(** The fields of the manager that hold templates. *)
Record Manager : Type := mkManager {
  templates : list CommitTemplate;
  customTemplates : list CommitTemplate
}.

(** The constructor. *)
Definition create : Manager := mkManager DEFAULT_TEMPLATES [].

(** [context.globalState]: the value stored under
    ['customCommitTemplates'], if any. *)
Definition Storage : Type := option (list CommitTemplate).

Definition loadCustomTemplates (this : Manager) (globalState : Storage) : Manager :=
  let stored := match globalState with Some l => l | None => [] end in
  mkManager (DEFAULT_TEMPLATES ++ stored) stored.

Definition getTemplates (this : Manager) : list CommitTemplate := templates this.

Definition getTemplate (this : Manager) (id' : str) : option CommitTemplate :=
  find (fun t => str_eqb (id t) id') (templates this).

Definition getDefaultTemplate (this : Manager) : option CommitTemplate :=
  find (fun t => truthyBool (isDefault t)) (templates this).

(** The two updates return the manager and what they store. *)
Definition addCustomTemplate (this : Manager) (template' : CommitTemplate)
    (globalState : Storage) : Manager * Storage :=
  let customTemplates :=
    filter (fun t => negb (str_eqb (id t) (id template'))) (customTemplates this)
    ++ [template'] in
  (mkManager (DEFAULT_TEMPLATES ++ customTemplates) customTemplates,
   Some customTemplates).

Definition removeCustomTemplate (this : Manager) (id' : str)
    (globalState : Storage) : Manager * Storage :=
  let customTemplates :=
    filter (fun t => negb (str_eqb (id t) id')) (customTemplates this) in
  (mkManager (DEFAULT_TEMPLATES ++ customTemplates) customTemplates,
   Some customTemplates).

(** [/#(\d+)/g] *)
Definition issuePattern : regex :=
  Seq (Chr (GitValidation.code "#")) (Group 1 (Plus GitValidation.digit)).

(** The loop [while ((match = issuePattern.exec(message)) !== null)]: with
    the [g] flag each search starts where the previous match ended, at
    index [lastIndex], with [s] the message from there on. A match holds a
    [#] and a digit at least, so the loop makes no more rounds than the
    message has characters, and [fuel] is never the reason it stops. *)
Fixpoint issueNumbers (fuel lastIndex : nat) (s : str) : list str :=
  match fuel with
  | O => []
  | S fuel' =>
      match execFrom issuePattern lastIndex s with
      | Some (_, y) =>
          match capture 1 (captures y) with Some n => n | None => [] end
          :: issueNumbers fuel' (endIndex y) (rest y)
      | None => []
      end
  end.

Section Host.
Context {builtins : Builtins}.

Definition parseMessage (message : str) : ParsedCommitMessage :=
  match GitValidation.parseConventionalCommit message with
  | Some parsed =>
      let issues := issueNumbers (S (length message)) 0 message in
      mkParsedMessage
        (Some (GitValidation.type parsed))
        (GitValidation.scope parsed)
        (GitValidation.description parsed)
        (GitValidation.body parsed)
        (GitValidation.footer parsed)
        (GitValidation.breaking parsed)
        (match issues with [] => None | _ :: _ => Some issues end)
  | None =>
      let lines := split LF message in
      mkParsedMessage None None (hd [] lines)
        (if (2 <? length lines)%nat
         then Some (trim (join nl (skipn 2 lines)))
         else None)
        None
        (includes (toLowerCase message) (js "breaking change"))
        None
  end.

End Host.

(** The argument of [generateFromContext]. *)
Record Context : Type := mkContext {
  contextType : option str;
  contextScope : option str;
  contextDescription : str;
  contextBreaking : option bool;
  contextIssues : option (list str)
}.

Definition generateFromContext (context : Context) : str :=
  let type := match contextType context with Some t => t | None => js "feat" end in
  let message := type in
  let message :=
    match contextScope context with
    | Some (c :: sc) => message ++ js "(" ++ (c :: sc) ++ js ")"
    | _ => message
    end in
  let message :=
    if truthyBool (contextBreaking context) then message ++ js "!" else message in
  let message := message ++ js ": " ++ contextDescription context in
  match contextIssues context with
  | Some (i :: l) =>
      message ++ nl ++ nl
      ++ join nl (map (fun i => js "Fixes #" ++ i) (i :: l))
  | _ => message
  end.

End CommitTemplateManager.

(** ** The ErrorHandlerService class

    The classification of errors and the bounded error history of
    [src/services/errorHandler.ts]. *)

Module ErrorHandlerService.
Import JS RegExp.

Inductive ErrorSeverity : Type := Low | Medium | High | Critical.

Inductive ErrorCategory : Type :=
| Git | Network | FileSystem | Configuration | Authentication | Validation
| Internal | Unknown.

Inductive UserAction : Type :=
| Retry | Cancel | ShowLogs | OpenSettings | Ignore | ReportIssue.

(** A recovery strategy; none of the strategies of [ERROR_PATTERNS] has a
    [handler]. *)
Record RecoveryStrategy : Type := mkStrategy {
  action : UserAction;
  label : str
}.

(** [pattern: RegExp | string] *)
Inductive PatternSource : Type :=
| OfRegExp (r : regex)
| OfString (s : str).

Record ErrorPattern : Type := mkPattern {
  pattern : PatternSource;
  patternCategory : ErrorCategory;
  patternSeverity : ErrorSeverity;
  patternMessage : str;
  patternStrategies : option (list RecoveryStrategy)
}.

(** An [Error] object, seen through its [message] and through what
    [String] makes of it; and a thrown value, which is such an object or
    something else, seen through [String]. *)
Record ErrorObject : Type := mkError {
  errorMessage : str;
  errorString : str
}.

Inductive Thrown : Type :=
| AnError (e : ErrorObject)
| NotAnError (shown : str).

(** [new Error(message)]. *)
Definition newError (message : str) : ErrorObject :=
  mkError message
    (match message with [] => js "Error" | _ :: _ => js "Error: " ++ message end).

Record GitNovaError : Type := mkGitNovaError {
  name : str;
  message : str;
  code : option str;
  category : ErrorCategory;
  severity : ErrorSeverity;
  userMessage : str;
  technicalDetails : option str;
  recoveryStrategies : option (list RecoveryStrategy);
  originalError : option ErrorObject
}.

Definition strategy (a : UserAction) (l : string) : RecoveryStrategy :=
  mkStrategy a (js l).

(** [/a.*b/i] *)
Definition apart (a b : string) : regex :=
  seqs [LitI (js a); Star GitValidation.dot; LitI (js b)].

Definition ERROR_PATTERNS : list ErrorPattern :=
  [mkPattern (OfRegExp (LitI (js "not a git repository"))) Git High
     (js "This folder is not a Git repository. Would you like to initialize one?")
     (Some [strategy Retry "Initialize Repository"; strategy Cancel "Cancel"]);
   mkPattern (OfRegExp (LitI (js "cannot lock ref"))) Git Medium
     (js "Git is locked by another process. Please wait and try again.")
     (Some [strategy Retry "Retry"; strategy Cancel "Cancel"]);
   mkPattern (OfRegExp (LitI (js "merge conflict"))) Git High
     (js "Merge conflicts detected. Please resolve them before continuing.")
     (Some [strategy ShowLogs "View Conflicts"; strategy Cancel "Cancel"]);
   mkPattern (OfRegExp (LitI (js "uncommitted changes"))) Git Medium
     (js "You have uncommitted changes. Please commit or stash them first.")
     (Some [strategy Retry "Stash Changes"; strategy Cancel "Cancel"]);
   mkPattern (OfRegExp (apart "branch" "already exists")) Git Low
     (js "A branch with this name already exists.")
     (Some [strategy Cancel "OK"]);
   mkPattern (OfRegExp (apart "branch" "not found")) Git Medium
     (js "The specified branch was not found.") None;
   mkPattern (OfRegExp (apart "cannot delete" "checked out")) Git Medium
     (js "Cannot delete the currently checked out branch. Switch to a different branch first.")
     None;
   mkPattern (OfRegExp (apart "cannot rebase" "dirty working tree")) Git High
     (js "Cannot rebase with uncommitted changes. Please commit or stash your changes.")
     (Some [strategy Retry "Stash & Rebase"; strategy Cancel "Cancel"]);
   mkPattern (OfRegExp (LitI (js "could not resolve host"))) Network High
     (js "Unable to connect to the remote server. Please check your internet connection.")
     (Some [strategy Retry "Retry"; strategy Cancel "Cancel"]);
   mkPattern
     (OfRegExp (Alt (LitI (js "connection refused"))
                    (LitI (js "connection timed out")))) Network High
     (js "Connection to the remote server failed. Please check your network settings.")
     (Some [strategy Retry "Retry"; strategy OpenSettings "Open Settings"]);
   mkPattern (OfRegExp (apart "fatal: remote" "not found")) Network High
     (js "The remote repository was not found. Please check the URL.") None;
   mkPattern
     (OfRegExp (Alt (LitI (js "authentication failed"))
                  (Alt (LitI (js "invalid credentials"))
                       (LitI (js "permission denied"))))) Authentication High
     (js "Authentication failed. Please check your credentials.")
     (Some [strategy OpenSettings "Configure Credentials"; strategy Cancel "Cancel"]);
   mkPattern (OfRegExp (LitI (js "password authentication was removed")))
     Authentication High
     (js "Password authentication is no longer supported. Please use a personal access token.")
     None;
   mkPattern (OfRegExp (LitI (js "no such file or directory"))) FileSystem Medium
     (js "The specified file or directory was not found.") None;
   mkPattern (OfRegExp (LitI (js "permission denied"))) FileSystem High
     (js "Permission denied. Please check file permissions.") None;
   mkPattern (OfRegExp (apart "invalid" "name")) Validation Low
     (js "The provided name is invalid. Please use a valid format.") None].

Definition MAX_ERROR_HISTORY : nat := 100.

Section Host.
Context {builtins : Builtins}.

(** [typeof pattern.pattern === 'string' ? ... : pattern.pattern.test(...)] *)
Definition matches (errorMessage : str) (p : ErrorPattern) : bool :=
  match pattern p with
  | OfString s => includes (toLowerCase errorMessage) (toLowerCase s)
  | OfRegExp r => test r errorMessage
  end.

Definition classifyError (error : Thrown) (context : str) : GitNovaError :=
  let originalError :=
    match error with
    | AnError e => e
    | NotAnError shown => newError shown
    end in
  let errorMessage :=
    match errorMessage originalError with
    | _ :: _ => errorMessage originalError
    | [] => match error with AnError e => errorString e | NotAnError shown => shown end
    end in
  match find (matches errorMessage) ERROR_PATTERNS with
  | Some pattern =>
      mkGitNovaError (js "GitNovaError") errorMessage None
        (patternCategory pattern) (patternSeverity pattern)
        (patternMessage pattern) (Some errorMessage)
        (patternStrategies pattern) (Some originalError)
  | None =>
      mkGitNovaError (js "GitNovaError") errorMessage None Unknown Medium
        (js "An error occurred: " ++ substring0 errorMessage 100)
        (Some errorMessage)
        (Some [strategy Retry "Retry"; strategy ShowLogs "Show Logs";
               strategy Cancel "Cancel"])
        (Some originalError)
  end.

End Host.

(** The error history, oldest first. *)
Definition addToHistory (errorHistory : list GitNovaError) (error : GitNovaError)
    : list GitNovaError :=
  let errorHistory := errorHistory ++ [error] in
  if (MAX_ERROR_HISTORY <? length errorHistory)%nat then tl errorHistory
  else errorHistory.

Definition getErrorHistory (errorHistory : list GitNovaError) : list GitNovaError :=
  errorHistory.

(** [a.slice(start)] for an integral [start]. *)
Definition sliceFrom (A : Type) (a : list A) (start : Z) : list A :=
  let len := Z.of_nat (length a) in
  let k := if (start <? 0)%Z then Z.max (len + start) 0 else Z.min start len in
  skipn (Z.to_nat k) a.

(** [getRecentErrors(count = 10)]: a missing [count] is [None]. *)
Definition getRecentErrors (errorHistory : list GitNovaError) (count : option Z)
    : list GitNovaError :=
  let count := match count with Some n => n | None => 10%Z end in
  sliceFrom errorHistory (- count).

Definition clearHistory (errorHistory : list GitNovaError) : list GitNovaError := [].

End ErrorHandlerService.

(** ** Vocabulary of the further properties *)

Module Behaviour.
Import JS RegExp GitValidation Spec.

(** The first line of a message, [message.split('\n')[0]]. *)
Definition firstLine (message : str) : str := hd [] (split LF message).

(** Semantic versions as [validateTagName] reads them: an optional [v],
    three runs of digits between dots, an optional pre-release part after a
    dash and an optional build part after a plus sign. *)
Definition digits (t : str) : Prop := t <> [] /\ forallb isDigit t = true.

Definition identifiers (t : str) : Prop :=
  t <> [] /\ forallb (fun c => isWord c || (c =? code ".")%N) t = true.

Definition SemanticVersion (t : str) : Prop :=
  exists v major minor patch pre build,
    t = v ++ major ++ js "." ++ minor ++ js "." ++ patch ++ pre ++ build /\
    (v = js "v" \/ v = []) /\
    digits major /\ digits minor /\ digits patch /\
    ((exists p, pre = js "-" ++ p /\ identifiers p) \/ pre = []) /\
    ((exists b, build = js "+" ++ b /\ identifiers b) \/ build = []).

(** The characters a semantic version is made of. *)
Definition versionChar (c : cu) : bool :=
  isWord c || mem c [code "."; code "-"; code "+"].

(** The names [validateRemoteName] knows, the types of
    [DEFAULT_COMMIT_OPTIONS], the reserved names of
    [DEFAULT_BRANCH_OPTIONS], and the options object
    [{ requireType: true }]. *)
Definition commonRemoteNames : list str :=
  map js ["origin"; "upstream"; "fork"]%string.

Definition conventionalTypes : list str :=
  map js ["feat"; "fix"; "docs"; "style"; "refactor"; "perf"; "test"; "build";
          "ci"; "chore"; "revert"]%string.

Definition defaultReservedNames : list str :=
  map js ["HEAD"; "FETCH_HEAD"; "ORIG_HEAD"; "MERGE_HEAD";
          "CHERRY_PICK_HEAD"]%string.

Definition typeRequired : CommitMessageOptions :=
  mkCommitOptions Absent Absent (Value true) Absent Absent Absent.

(** A subject line put together from a type, a scope, the breaking mark,
    the white space after the colon and a description; the conditions the
    subject pattern puts on the parts; and the lines of that form. *)
Definition subjectOf (t : str) (sc : option str) (b : bool) (w d : str) : str :=
  t ++ scopeText sc ++ (if b then js "!" else []) ++ js ":" ++ w ++ d.

Definition subjectParts (t : str) (sc : option str) (w d : str) : Prop :=
  (t <> [] /\ forallb isWord t = true) /\
  match sc with
  | Some c => c <> [] /\ ~ In (code ")") c
  | None => True
  end /\
  forallb isWhiteSpace w = true /\
  (d <> [] /\ forallb (fun c => negb (isLineTerminator c)) d = true).

Definition ConventionalSubject (s : str) : Prop :=
  exists t sc b w d, s = subjectOf t sc b w d /\ subjectParts t sc w d.

(** Patterns without a capturing group. *)
Fixpoint groupFree (r : regex) : bool :=
  match r with
  | Group _ _ => false
  | Seq r1 r2 | Alt r1 r2 => groupFree r1 && groupFree r2
  | Star r1 => groupFree r1
  | Empty | Chars _ | Bol | Eol => true
  end.

(** The two regular expressions of [DEFAULT_PROTECTED_BRANCHES],
    [^release/.*$] and [^hotfix/.*$], the branches they match, and a
    [RegExp] constructor that reads these two sources as ECMAScript does
    and refuses every other source. *)
Definition releasePattern : regex :=
  seqs [Bol; Lit (js "release/"); Star dot; Eol].
Definition hotfixPattern : regex :=
  seqs [Bol; Lit (js "hotfix/"); Star dot; Eol].

Definition oneLine (t : str) : Prop :=
  forallb (fun c => negb (isLineTerminator c)) t = true.

Definition releaseOrHotfix (b : str) : Prop :=
  exists t, (b = js "release/" ++ t \/ b = js "hotfix/" ++ t) /\ oneLine t.

Definition readsDefaultPatterns (newRegExp : str -> option (str -> bool)) : Prop :=
  (exists f, newRegExp (js "^release/.*$") = Some f /\
             forall s, f s = test releasePattern s) /\
  (exists f, newRegExp (js "^hotfix/.*$") = Some f /\
             forall s, f s = test hotfixPattern s).

Definition defaultRegExp (source : str) : option (str -> bool) :=
  if str_eqb source (js "^release/.*$") then Some (test releasePattern)
  else if str_eqb source (js "^hotfix/.*$") then Some (test hotfixPattern)
  else None.

(** Two rules for the same pattern. *)
Definition samePattern (a b : BranchProtectionManager.BranchProtectionRule)
    : bool :=
  str_eqb (BranchProtectionManager.pattern a) (BranchProtectionManager.pattern b).

(** The source of the ticket pattern, and whether the ticket check is
    made. *)
Definition ticketSource (c : BranchProtectionManager.BranchNamingConvention)
    : str :=
  match BranchProtectionManager.ticketPattern c with
  | Some p => p
  | None => []
  end.

Definition ticketChecked (c : BranchProtectionManager.BranchNamingConvention)
    : bool :=
  BranchProtectionManager.requireTicketNumber c
  && truthyStr (BranchProtectionManager.ticketPattern c).

(** A convention with other recommended patterns, and
    [DEFAULT_NAMING_CONVENTION] with its flag [enabled] set to [en]. *)
Definition withPatterns (c : BranchProtectionManager.BranchNamingConvention)
    (l : list str) : BranchProtectionManager.BranchNamingConvention :=
  BranchProtectionManager.mkConvention
    (BranchProtectionManager.enabled c) l
    (BranchProtectionManager.prefixes c)
    (BranchProtectionManager.separator c)
    (BranchProtectionManager.requireTicketNumber c)
    (BranchProtectionManager.ticketPattern c)
    (BranchProtectionManager.maxLength c).

Definition defaultConvention (en : bool)
    : BranchProtectionManager.BranchNamingConvention :=
  BranchProtectionManager.mkConvention en
    (BranchProtectionManager.patterns
       BranchProtectionManager.DEFAULT_NAMING_CONVENTION)
    (BranchProtectionManager.prefixes
       BranchProtectionManager.DEFAULT_NAMING_CONVENTION)
    (BranchProtectionManager.separator
       BranchProtectionManager.DEFAULT_NAMING_CONVENTION)
    (BranchProtectionManager.requireTicketNumber
       BranchProtectionManager.DEFAULT_NAMING_CONVENTION)
    (BranchProtectionManager.ticketPattern
       BranchProtectionManager.DEFAULT_NAMING_CONVENTION)
    (BranchProtectionManager.maxLength
       BranchProtectionManager.DEFAULT_NAMING_CONVENTION).

(** The longest prefix of [s] made of characters of [p]. *)
Fixpoint takeWhile (p : cu -> bool) (s : str) : str :=
  match s with
  | [] => []
  | c :: tl => if p c then c :: takeWhile p tl else []
  end.

(** The issue numbers of a message, left to right: the digits that follow
    a [#]. *)
Fixpoint scanIssues (s : str) : list str :=
  match s with
  | [] => []
  | c :: tl =>
      if (code "#" =? c)%N
         && match tl with d :: _ => isDigit d | [] => false end
      then takeWhile isDigit tl :: scanIssues tl
      else scanIssues tl
  end.

(** The lines [generateFromContext] writes for a list of issues, and the
    footer they make. *)
Definition fixesLines (issues : list str) : str :=
  join nl (map (fun i => js "Fixes #" ++ i) issues).

Definition issuesFooter (issues : option (list str)) : option str :=
  match issues with
  | Some (i :: l) => Some (fixesLines (i :: l))
  | _ => None
  end.

(** The templates with a given id. *)
Definition sameId (id' : str) (t : CommitTemplateManager.CommitTemplate) : bool :=
  str_eqb (CommitTemplateManager.id t) id'.

(** The message of the file-system pattern [/permission denied/i]. *)
Definition permissionMessage : str :=
  js "Permission denied. Please check file permissions.".

End Behaviour.

Import JS RegExp GitValidation Spec.

(** ** A host for Basic Latin

    The host whose case tables end with Basic Latin and which writes every
    integer in decimal digits. It has the properties the class asks for.
    The examples below that take no argument are computed with it, being
    the instance at hand where none is named; their inputs are Basic Latin
    throughout, where every host converts as it does (lemmas
    [sanitizeBranchName_basic] and [validateBranchName_basic]). *)

Section BasicLatin.

Lemma lowerCU_not_upper (c : cu) : isUpper (lowerCU c) = false.
Proof.
  unfold lowerCU, isUpper, between.
  destruct ((65 <=? c)%N && (c <=? 90)%N) eqn:E; [|exact E].
  rewrite andb_true_iff, !N.leb_le in E.
  rewrite andb_false_iff, !N.leb_gt. lia.
Qed.

Lemma upperCU_not_lower (x : cu) : isLower (upperCU x) = false.
Proof.
  unfold upperCU, isLower, between.
  destruct ((97 <=? x)%N && (x <=? 122)%N) eqn:E; [|exact E].
  rewrite andb_true_iff, !N.leb_le in E.
  rewrite andb_false_iff, !N.leb_gt. lia.
Qed.

Lemma letter_not_space (c : cu) :
  isUpper c || isLower c = true -> isWhiteSpace c = false.
Proof.
  unfold isUpper, isLower, between. intros H.
  assert (L : (65 <= c <= 122)%N).
  { apply orb_true_iff in H.
    destruct H as [H|H]; rewrite andb_true_iff, !N.leb_le in H; lia. }
  unfold isWhiteSpace, mem, between. cbn [existsb].
  repeat match goal with
  | |- context [(c =? ?k)%N] =>
      replace (c =? k)%N with false by (symmetry; apply N.eqb_neq; lia)
  end.
  replace (8192 <=? c)%N with false by (symmetry; apply N.leb_gt; lia).
  reflexivity.
Qed.

Lemma kept_lowerCU (c : cu) : keptByLowerCase c = true -> lowerCU c = c.
Proof.
  unfold keptByLowerCase, lowerCU. intros H.
  destruct (isUpper c) eqn:U; [|reflexivity].
  rewrite letter_not_space in H by (now rewrite U).
  rewrite andb_false_r in H. discriminate H.
Qed.

Lemma kept_upperCU (c : cu) : keptByUpperCase c = true -> upperCU c = c.
Proof.
  unfold keptByUpperCase, upperCU. intros H.
  destruct (isLower c) eqn:U; [|reflexivity].
  rewrite letter_not_space in H by (rewrite U; apply orb_true_r).
  rewrite andb_false_r in H. discriminate H.
Qed.

Lemma basic_lower (s : str) (c : cu) : In c (map lowerCU s) -> isUpper c = false.
Proof.
  intros H. apply in_map_iff in H. destruct H as (x & <- & _).
  apply lowerCU_not_upper.
Qed.

Lemma basic_upper (s : str) (c : cu) : In c (map upperCU s) -> isLower c = false.
Proof.
  intros H. apply in_map_iff in H. destruct H as (x & <- & _).
  apply upperCU_not_lower.
Qed.

Lemma basic_lower_keeps (s : str) (c : cu) :
  In c s -> keptByLowerCase c = true -> In c (map lowerCU s).
Proof.
  intros H K. rewrite <- (kept_lowerCU c K). now apply in_map.
Qed.

Lemma basic_upper_keeps (s : str) (c : cu) :
  In c s -> keptByUpperCase c = true -> In c (map upperCU s).
Proof.
  intros H K. rewrite <- (kept_upperCU c K). now apply in_map.
Qed.

End BasicLatin.

#[global] Instance basicLatin : Builtins :=
  Build_Builtins (map lowerCU) (map upperCU) decimal
    (fun _ _ => eq_refl) (fun _ _ => eq_refl)
    basic_lower basic_upper basic_lower_keeps basic_upper_keeps
    (fun _ _ => eq_refl).

(** ** A host that knows one letter more

    The Deseret capital letter U+10400 is the surrogate pair D801 DC00, and
    its small letter U+10428 the pair D801 DC28. [deseretLowerCase]
    converts that pair and the Basic Latin letters: it is [toLowerCase] cut
    down to the one letter outside Basic Latin that an example below
    needs. *)
Fixpoint deseretLowerCase (s : str) : str :=
  match s with
  | [] => []
  | c :: tl =>
      match tl with
      | d :: tl' =>
          if (c =? 55297)%N && (d =? 56320)%N
          then c :: 56360%N :: deseretLowerCase tl'
          else lowerCU c :: deseretLowerCase tl
      | [] => [lowerCU c]
      end
  end.

Section Deseret.

Lemma deseret_pairs (P : str -> Prop) :
  P [] -> (forall c, P [c]) ->
  (forall c d tl, P tl -> P (d :: tl) -> P (c :: d :: tl)) ->
  forall s, P s.
Proof.
  intros H0 H1 H2 s.
  assert (A : P s /\ forall c, P (c :: s)).
  { induction s as [|d tl [IH1 IH2]]; split; auto. }
  apply A.
Qed.

Lemma deseret_step (c d : cu) (tl : str) :
  deseretLowerCase (c :: d :: tl)
  = if (c =? 55297)%N && (d =? 56320)%N
    then c :: 56360%N :: deseretLowerCase tl
    else lowerCU c :: deseretLowerCase (d :: tl).
Proof. reflexivity. Qed.

Lemma deseret_basic (s : str) :
  forallb isBasicLatin s = true -> deseretLowerCase s = map lowerCU s.
Proof.
  induction s as [| c | c d tl _ IH] using deseret_pairs; [reflexivity .. |].
  intros H. cbn [forallb] in H. apply andb_true_iff in H. destruct H as [Hc H].
  rewrite deseret_step.
  replace (c =? 55297)%N with false
    by (symmetry; apply N.eqb_neq; unfold isBasicLatin in Hc;
        apply N.ltb_lt in Hc; lia).
  cbn [andb map]. now rewrite (IH H).
Qed.

Lemma deseret_lower (s : str) (c : cu) :
  In c (deseretLowerCase s) -> isUpper c = false.
Proof.
  revert c.
  induction s as [| x | x d tl IH1 IH2] using deseret_pairs; intros c H.
  - destruct H.
  - destruct H as [<-|[]]. apply lowerCU_not_upper.
  - rewrite deseret_step in H.
    destruct ((x =? 55297)%N && (d =? 56320)%N) eqn:E.
    + apply andb_true_iff in E. destruct E as [E _]. apply N.eqb_eq in E.
      destruct H as [<-|[<-|H]]; [subst x; reflexivity | reflexivity | auto].
    + destruct H as [<-|H]; [apply lowerCU_not_upper | auto].
Qed.

Lemma kept_not_surrogate (c : cu) :
  keptByLowerCase c = true -> c <> 55297%N /\ c <> 56320%N.
Proof.
  intros K. split; intros ->; vm_compute in K; discriminate K.
Qed.

Lemma deseret_keeps (s : str) (c : cu) :
  In c s -> keptByLowerCase c = true -> In c (deseretLowerCase s).
Proof.
  intros H K. pose proof (kept_lowerCU c K) as L.
  destruct (kept_not_surrogate c K) as [N1 N2].
  revert H.
  induction s as [| x | x d tl IH1 IH2] using deseret_pairs; intros H.
  - destruct H.
  - destruct H as [->|[]]. left. exact L.
  - rewrite deseret_step.
    destruct ((x =? 55297)%N && (d =? 56320)%N) eqn:E.
    + apply andb_true_iff in E. destruct E as [E1 E2].
      apply N.eqb_eq in E1, E2. subst x d.
      destruct H as [H|[H|H]]; [congruence | congruence |].
      right. right. auto.
    + destruct H as [->|H]; [left; exact L | right; auto].
Qed.

End Deseret.

Definition deseret : Builtins :=
  Build_Builtins deseretLowerCase (map upperCU) decimal
    deseret_basic (fun _ _ => eq_refl)
    deseret_lower basic_upper deseret_keeps basic_upper_keeps
    (fun _ _ => eq_refl).

(** ** Facts about the string primitives *)

Section Trim.

Lemma dropWhile_split (p : cu -> bool) (s : str) :
  exists w, s = w ++ dropWhile p s /\ forallb p w = true.
Proof.
  induction s as [|c s IH]; simpl.
  - exists []. auto.
  - destruct (p c) eqn:E.
    + destruct IH as [w [H1 H2]]. exists (c :: w). simpl.
      rewrite E, H2. split; [congruence | reflexivity].
    + exists []. auto.
Qed.

Lemma dropWhile_head (p : cu -> bool) (s : str) :
  match dropWhile p s with [] => True | c :: _ => p c = false end.
Proof.
  induction s as [|c s IH]; simpl; auto.
  destruct (p c) eqn:E; auto.
Qed.

Lemma dropWhile_fixed (p : cu -> bool) (s : str) :
  match s with [] => True | c :: _ => p c = false end -> dropWhile p s = s.
Proof. destruct s as [|c s]; simpl; auto. intros ->. reflexivity. Qed.

Lemma dropWhile_idem (p : cu -> bool) (s : str) :
  dropWhile p (dropWhile p s) = dropWhile p s.
Proof. apply dropWhile_fixed, dropWhile_head. Qed.

Lemma trimmed_fixed (s : str) : trimmed s -> trim s = s.
Proof.
  intros [H1 H2]. unfold trim, trimStart, trimEnd.
  rewrite (dropWhile_fixed _ s H1), (dropWhile_fixed _ (rev s) H2).
  apply rev_involutive.
Qed.

Lemma trim_trimmed (s : str) : trimmed (trim s).
Proof.
  unfold trim, trimEnd, trimStart.
  set (a := dropWhile isWhiteSpace s).
  destruct (dropWhile_split isWhiteSpace (rev a)) as [w [Hw _]].
  set (b := dropWhile isWhiteSpace (rev a)) in *.
  split.
  - assert (Ha : a = rev b ++ rev w).
    { rewrite <- rev_app_distr, <- Hw. symmetry. apply rev_involutive. }
    pose proof (dropWhile_head isWhiteSpace s) as Hh. fold a in Hh.
    destruct (rev b) as [|c t] eqn:E; auto.
    rewrite Ha in Hh. exact Hh.
  - rewrite rev_involutive. apply (dropWhile_head isWhiteSpace (rev a)).
Qed.

Lemma trim_idem (s : str) : trim (trim s) = trim s.
Proof. apply trimmed_fixed, trim_trimmed. Qed.

Lemma isBlank_length (s : str) : isBlank s = (length (trim s) =? 0)%nat.
Proof. destruct s; reflexivity. Qed.

Lemma isBlank_trim (s : str) : isBlank (trim s) = isBlank s.
Proof. now rewrite !isBlank_length, trim_idem. Qed.

End Trim.

(** ** validateBranchName *)

(** C10. The validator sees its argument only through [trim]: a name and its
    trimmed form get the same result under every options object, so white
    space around a name is never a reason for rejection and every check, the
    length check included, is made on the trimmed name. *)
Theorem validateBranchName_trim {builtins : Builtins} (s : str)
    (options : BranchValidationOptions) :
  validateBranchName s options = validateBranchName (trim s) options.
Proof.
  unfold validateBranchName. now rewrite isBlank_trim, trim_idem.
Qed.

(** ** The shape of validation results *)

Section Shape.

Lemma shape_rejecting (e : str) (sugg : option (list str)) :
  resultShape (mkResult false (Some e) None sugg).
Proof. repeat split; cbn; congruence. Qed.

Lemma shape_accepting (warn sugg : option (list str)) :
  resultShape (mkResult true None warn sugg).
Proof. repeat split; cbn; congruence. Qed.

Lemma exclusive_rejecting (e : str) : exclusiveShape (reject e).
Proof.
  unfold exclusiveShape, errorIffInvalid, reject.
  cbn [error valid warnings suggestions]. intuition congruence.
Qed.

Lemma exclusive_accepting (warn sugg : option (list str)) :
  exclusiveShape (mkResult true None warn sugg).
Proof.
  unfold exclusiveShape, errorIffInvalid.
  cbn [error valid warnings suggestions]. intuition congruence.
Qed.

End Shape.

(** Every validator ends in one of the six object literals; [shape] and
    [exclusive] walk down the conditionals to them. A rejection returned
    with suggestions is left to the caller of [exclusive]. *)
Ltac case_scrutinee x :=
  lazymatch x with
  | (if ?b then _ else _) => case_scrutinee b
  | (match ?y with _ => _ end) => case_scrutinee y
  | _ => destruct x
  end.

Ltac shape :=
  cbv beta iota;
  lazymatch goal with
  | |- resultShape (if ?b then _ else _) => case_scrutinee b; shape
  | |- resultShape (match ?x with _ => _ end) => case_scrutinee x; shape
  | |- resultShape (reject _) => apply shape_rejecting
  | |- resultShape (rejectWith _ _) => apply shape_rejecting
  | |- resultShape accept => apply shape_accepting
  | |- resultShape (acceptSuggesting _) => apply shape_accepting
  | |- resultShape (acceptWarning _) => apply shape_accepting
  | |- resultShape (acceptWith _ _) => apply shape_accepting
  end.

Ltac exclusive_leaf :=
  first [ apply exclusive_rejecting | apply exclusive_accepting ].

Ltac exclusive :=
  cbv beta iota;
  lazymatch goal with
  | |- exclusiveShape (if ?b then _ else _) => case_scrutinee b; exclusive
  | |- exclusiveShape (match ?x with _ => _ end) => case_scrutinee x; exclusive
  | |- exclusiveShape ?r \/ _ =>
      lazymatch r with
      | (if ?b then _ else _) => case_scrutinee b; exclusive
      | (match ?x with _ => _ end) => case_scrutinee x; exclusive
      | rejectWith _ _ => right
      | _ => left; exclusive_leaf
      end
  | |- exclusiveShape _ => exclusive_leaf
  end.

(** C2, as the code has it. For each of the seven validators and every
    input, [error] is present exactly when [valid] is false and a result
    with an [error] carries no [warnings]. A result with an [error] carries
    no [suggestions] either, four rejections apart, each returned with
    its suggestions by a statement of its own: that of the [enforcePrefix]
    rule in [validateBranchName], those of the subject length and of the
    commit format in [validateCommitMessage], and that of the URL format in
    [validateRemoteUrl]. The other four validators never return
    suggestions with an error. *)
Theorem validators_result_shape {builtins : Builtins}
    (s : str) (bo : BranchValidationOptions) (co : CommitMessageOptions) :
  (resultShape (validateBranchName s bo) /\
   resultShape (validateCommitMessage s co) /\
   resultShape (validateTagName s) /\
   resultShape (validateRemoteName s) /\
   resultShape (validateRemoteUrl s) /\
   resultShape (validateStashMessage s) /\
   resultShape (validateFilePath s)) /\
  (exclusiveShape (validateBranchName s bo)
   \/ validateBranchName s bo = prefixRejection bo s) /\
  (exclusiveShape (validateCommitMessage s co)
   \/ validateCommitMessage s co = subjectLengthRejection co s
   \/ validateCommitMessage s co = formatRejection s) /\
  exclusiveShape (validateTagName s) /\
  exclusiveShape (validateRemoteName s) /\
  (exclusiveShape (validateRemoteUrl s)
   \/ validateRemoteUrl s = urlRejection) /\
  exclusiveShape (validateStashMessage s) /\
  exclusiveShape (validateFilePath s).
Proof.
  repeat match goal with |- _ /\ _ => split end.
  - unfold validateBranchName. cbv zeta. shape.
  - unfold validateCommitMessage. cbv zeta. shape.
  - unfold validateTagName. cbv zeta. shape.
  - unfold validateRemoteName. cbv zeta. shape.
  - unfold validateRemoteUrl. cbv zeta. shape.
  - unfold validateStashMessage. cbv zeta. shape.
  - unfold validateFilePath. cbv zeta. shape.
  - unfold validateBranchName, prefixRejection. cbv zeta.
    exclusive; reflexivity.
  - unfold validateCommitMessage, subjectLengthRejection, formatRejection,
      subjectOfMessage, limitText.
    cbv zeta. exclusive; first [left; reflexivity | right; reflexivity].
  - unfold validateTagName. cbv zeta. exclusive.
  - unfold validateRemoteName. cbv zeta. exclusive.
  - unfold validateRemoteUrl, urlRejection. cbv zeta. exclusive; reflexivity.
  - unfold validateStashMessage. cbv zeta. exclusive.
  - unfold validateFilePath. cbv zeta. exclusive.
Qed.

(** C2, as stated, fails: each of the four rejections is returned, with an
    error and suggestions side by side. *)
Lemma suggestions_beside_error :
  (validateRemoteUrl (js "not-a-url") = urlRejection
   /\ ~ exclusiveShape (validateRemoteUrl (js "not-a-url"))) /\
  (validateBranchName (js "login")
     (mkBranchOptions Absent Absent Absent Absent (Value [js "feature"]))
   = rejectWith (js "Branch name must start with one of: feature")
       [js "feature/login"]
   /\ ~ exclusiveShape
        (validateBranchName (js "login")
           (mkBranchOptions Absent Absent Absent Absent (Value [js "feature"])))) /\
  (error (validateCommitMessage (repeat 65%N 100) noCommitOptions)
   = Some (js "Commit subject line exceeds 72 characters (100)")
   /\ ~ exclusiveShape (validateCommitMessage (repeat 65%N 100) noCommitOptions)) /\
  (validateCommitMessage (js "Add new feature")
     (mkCommitOptions Absent Absent (Value true) Absent Absent Absent)
   = formatRejection (js "Add new feature")
   /\ ~ exclusiveShape
        (validateCommitMessage (js "Add new feature")
           (mkCommitOptions Absent Absent (Value true) Absent Absent Absent))).
Proof.
  repeat match goal with |- _ /\ _ => split end;
    try (vm_compute; reflexivity);
    intros [_ H]; vm_compute in H;
    (destruct H as [_ H]; [discriminate | discriminate]).
Qed.

(** ** The matcher and the paths through a pattern *)

Section MatcherFacts.

(** Whatever the matcher returns was accepted by the continuation at the
    end of some path. *)
Lemma compile_sound (r : regex) :
  forall x c res, compile r x c = Some res ->
  exists y, Matches r x y /\ c y = Some res.
Proof.
  induction r as [|cls|r1 IH1 r2 IH2|r1 IH1 r2 IH2|r1 IH1|n r1 IH1| |];
    intros x c res H; cbn [compile] in H.
  - exists x. split; [constructor | assumption].
  - destruct (rest x) as [|ch tl] eqn:E; [discriminate|].
    destruct (cls ch) eqn:Ec; [|discriminate].
    eexists. split; [econstructor; eassumption | assumption].
  - apply IH1 in H. destruct H as [y [M1 H]].
    apply IH2 in H. destruct H as [z [M2 H]].
    exists z. split; [econstructor; eassumption | assumption].
  - destruct (compile r1 x c) as [res'|] eqn:E.
    + injection H as <-. apply IH1 in E. destruct E as [y [M E]].
      exists y. split; [apply MAltL | ]; assumption.
    + apply IH2 in H. destruct H as [y [M E']].
      exists y. split; [apply MAltR | ]; assumption.
  - revert H. generalize (length (rest x)) as fuel. intros fuel.
    revert x. induction fuel as [|fuel IHf]; intros x H; cbn [repeatMatcher] in H.
    + exists x. split; [constructor | assumption].
    + match type of H with
      | match ?m with _ => _ end = _ => destruct m as [res'|] eqn:E
      end.
      * injection H as <-. apply IH1 in E. destruct E as [y [M E]].
        destruct (length (rest y) <? length (rest x))%nat eqn:L; [|discriminate].
        apply IHf in E. destruct E as [z [Mz E]].
        exists z. split; [|assumption].
        eapply MStarStep; eauto. now apply Nat.ltb_lt.
      * exists x. split; [constructor | assumption].
  - apply IH1 in H. destruct H as [y [M H]].
    eexists. split; [econstructor; eassumption | assumption].
  - destruct (endIndex x =? 0)%nat eqn:E; [|discriminate].
    exists x. split; [constructor; now apply Nat.eqb_eq | assumption].
  - destruct (rest x) eqn:E; [|discriminate].
    exists x. split; [constructor; assumption | assumption].
Qed.

(** A path whose end the continuation accepts makes the matcher succeed
    (on that path or on one of higher priority). *)
Lemma compile_complete_star (r : regex) (x y : MatchState) :
  Matches r x y ->
  forall c, c y <> None ->
  compile r x c <> None /\
  (forall r1 fuel, r = Star r1 -> (length (rest x) <= fuel)%nat ->
     repeatMatcher (compile r1) fuel x c <> None).
Proof.
  induction 1 as [x|cls x ch tl E Ec|r1 r2 x y z M1 IH1 M2 IH2
                 |r1 r2 x y M IH|r1 r2 x y M IH|r x
                 |r x y z M1 IH1 L M2 IH2|n r x y M IH|x E|x E];
    intros c Hc.
  - split; [assumption | intros ? ? [=]].
  - split; [cbn [compile]; rewrite E, Ec; assumption | intros ? ? [=]].
  - split; [cbn [compile]; apply IH1, IH2; assumption | intros ? ? [=]].
  - split; [cbn [compile] | intros ? ? [=]].
    destruct (compile r1 x c) eqn:E1; [discriminate|].
    exfalso. apply (proj1 (IH c Hc)). assumption.
  - split; [cbn [compile] | intros ? ? [=]].
    destruct (compile r1 x c) eqn:E1; [discriminate|].
    apply IH. assumption.
  - assert (A : forall fuel, repeatMatcher (compile r) fuel x c <> None).
    { intros fuel. destruct fuel; cbn [repeatMatcher]; [assumption|].
      match goal with |- match ?m with _ => _ end <> None => destruct m end;
        [discriminate | assumption]. }
    split; [apply A | intros r1 fuel [= <-] _; apply A].
  - assert (A : forall fuel, (length (rest x) <= fuel)%nat ->
                repeatMatcher (compile r) fuel x c <> None).
    { intros fuel Hf. destruct fuel as [|fuel]; [lia|]. cbn [repeatMatcher].
      match goal with
      | |- match ?m with _ => _ end <> None => destruct m eqn:Em
      end; [discriminate|].
      exfalso. revert Em. apply IH1.
      apply Nat.ltb_lt in L as L'. rewrite L'.
      apply (proj2 (IH2 c Hc) r fuel eq_refl). lia. }
    split; [apply A; lia | intros r1 fuel [= <-]; apply A].
  - split; [cbn [compile]; apply IH; assumption | intros ? ? [=]].
  - split; [cbn [compile] | intros ? ? [=]].
    apply Nat.eqb_eq in E. rewrite E. assumption.
  - split; [cbn [compile]; rewrite E; assumption | intros ? ? [=]].
Qed.

Lemma compile_complete (r : regex) (x y : MatchState) (c : Continuation) :
  Matches r x y -> c y <> None -> compile r x c <> None.
Proof. intros M Hc. apply (proj1 (compile_complete_star M c Hc)). Qed.

Lemma matchAt_iff (r : regex) (i : nat) (s : str) :
  matchAt r i s <> None <-> exists y, Matches r (mkState i s []) y.
Proof.
  unfold matchAt. split.
  - destruct (compile r (mkState i s []) Some) as [res|] eqn:E; [|congruence].
    intros _. apply compile_sound in E. destruct E as [y [M _]]. eauto.
  - intros [y M]. eapply compile_complete; eauto. discriminate.
Qed.

Lemma execFrom_iff (r : regex) (s : str) :
  forall i, execFrom r i s <> None <->
  exists pre suf y,
    s = pre ++ suf /\ Matches r (mkState (i + length pre) suf []) y.
Proof.
  induction s as [|ch s IH]; intros i; cbn [execFrom].
  - destruct (matchAt r i []) as [y|] eqn:E.
    + split; [intros _|discriminate].
      assert (H : matchAt r i [] <> None) by congruence.
      apply matchAt_iff in H. destruct H as [z M].
      exists [], [], z. rewrite Nat.add_0_r. auto.
    + split; [congruence|]. intros [pre [suf [y [Hs M]]]].
      symmetry in Hs. apply app_eq_nil in Hs. destruct Hs as [-> ->].
      rewrite Nat.add_0_r in M.
      assert (H : matchAt r i [] <> None) by (apply matchAt_iff; eauto).
      congruence.
  - destruct (matchAt r i (ch :: s)) as [y|] eqn:E.
    + split; [intros _|discriminate].
      assert (H : matchAt r i (ch :: s) <> None) by congruence.
      apply matchAt_iff in H. destruct H as [z M].
      exists [], (ch :: s), z. rewrite Nat.add_0_r. auto.
    + rewrite IH. split.
      * intros [pre [suf [y [-> M]]]]. exists (ch :: pre), suf, y.
        split; [reflexivity|]. cbn [length].
        now replace (i + S (length pre))%nat with (S i + length pre)%nat by lia.
      * intros [pre [suf [y [Hs M]]]]. destruct pre as [|p pre].
        -- cbn in Hs. subst suf. rewrite Nat.add_0_r in M.
           assert (H : matchAt r i (ch :: s) <> None) by (apply matchAt_iff; eauto).
           congruence.
        -- injection Hs as <- ->. exists pre, suf, y. split; [reflexivity|].
           cbn [length] in M.
           now replace (S i + length pre)%nat with (i + S (length pre))%nat by lia.
Qed.

(** [r.test(s)] holds exactly when some path starts at some index of [s]. *)
Lemma test_iff (r : regex) (s : str) :
  test r s = true <->
  exists pre suf y, s = pre ++ suf /\ Matches r (mkState (length pre) suf []) y.
Proof.
  unfold test, exec. rewrite <- (execFrom_iff r s 0).
  destruct (execFrom r 0 s); split; congruence.
Qed.

Lemma test_matchAt (r : regex) (s : str) :
  test r s = true <->
  exists pre suf, s = pre ++ suf /\ matchAt r (length pre) suf <> None.
Proof.
  rewrite test_iff. split.
  - intros [pre [suf [y [Hs M]]]]. exists pre, suf. split; [assumption|].
    apply matchAt_iff. eauto.
  - intros [pre [suf [Hs H]]]. apply matchAt_iff in H. destruct H as [y M].
    eauto.
Qed.

(** Inversion of paths, one lemma per construct. *)
Lemma Matches_empty_inv x y : Matches Empty x y -> y = x.
Proof. intros M. now inversion M. Qed.

Lemma Matches_chars_inv cls x y :
  Matches (Chars cls) x y ->
  exists ch tl, rest x = ch :: tl /\ cls ch = true /\
                y = mkState (S (endIndex x)) tl (captures x).
Proof. intros M. inversion M; subst. eauto. Qed.

Lemma Matches_seq_inv r1 r2 x z :
  Matches (Seq r1 r2) x z -> exists y, Matches r1 x y /\ Matches r2 y z.
Proof. intros M. inversion M; subst. eauto. Qed.

Lemma Matches_alt_inv r1 r2 x y :
  Matches (Alt r1 r2) x y -> Matches r1 x y \/ Matches r2 x y.
Proof. intros M. inversion M; subst; auto. Qed.

Lemma Matches_group_inv n r x z :
  Matches (Group n r) x z ->
  exists y, Matches r x y /\
    z = mkState (endIndex y) (rest y)
          ((n, firstn (endIndex y - endIndex x) (rest x)) :: captures y).
Proof. intros M. inversion M; subst. eauto. Qed.

Lemma Matches_bol_inv x y : Matches Bol x y -> endIndex x = 0%nat /\ y = x.
Proof. intros M. inversion M; subst. auto. Qed.

Lemma Matches_eol_inv x y : Matches Eol x y -> rest x = [] /\ y = x.
Proof. intros M. inversion M; subst. auto. Qed.

(** A path consumes a prefix of the input and moves the index by its
    length. *)
Lemma Matches_consumes (r : regex) (x y : MatchState) :
  Matches r x y ->
  exists t, rest x = t ++ rest y /\ endIndex y = (endIndex x + length t)%nat.
Proof.
  induction 1 as [x|cls x ch tl E Ec|r1 r2 x y z M1 IH1 M2 IH2
                 |r1 r2 x y M IH|r1 r2 x y M IH|r x
                 |r x y z M1 IH1 L M2 IH2|n r x y M IH|x E|x E];
    try (exists []; cbn; split; [reflexivity | lia]); try assumption.
  - exists [ch]. cbn. split; [assumption | lia].
  - destruct IH1 as [a [Ha Ia]]. destruct IH2 as [b [Hb Ib]].
    exists (a ++ b). rewrite Ha, Hb, Ib, Ia, length_app, <- app_assoc.
    split; [reflexivity | lia].
  - destruct IH1 as [a [Ha Ia]]. destruct IH2 as [b [Hb Ib]].
    exists (a ++ b). rewrite Ha, Hb, Ib, Ia, length_app, <- app_assoc.
    split; [reflexivity | lia].
Qed.

Lemma matchAt_consumes (r : regex) (i : nat) (s : str) (y : MatchState) :
  matchAt r i s = Some y ->
  exists t, s = t ++ rest y /\ endIndex y = (i + length t)%nat.
Proof.
  intros H. apply compile_sound in H. destruct H as [z [M [= ->]]].
  apply Matches_consumes in M. exact M.
Qed.

(** The fuel of [replaceAll] is enough: more of it changes nothing. *)
Lemma replaceAllFrom_fuel (r : regex) (repl : str) (n : nat) :
  forall s i fuel, (length s <= n)%nat -> (length s < fuel)%nat ->
  replaceAllFrom r repl fuel i s = replaceAllFrom r repl (S (length s)) i s.
Proof.
  induction n as [|n IH]; intros s i fuel Hn Hf.
  - destruct s; [|cbn in Hn; lia]. destruct fuel; [cbn in Hf; lia|].
    cbn [replaceAllFrom length].
    destruct (matchAt r i []) as [y|] eqn:E; [|reflexivity].
    destruct (matchAt_consumes _ _ _ E) as [t [Ht It]].
    symmetry in Ht. apply app_eq_nil in Ht. destruct Ht as [-> _].
    cbn in It. rewrite Nat.add_0_r in It. rewrite It, Nat.eqb_refl.
    reflexivity.
  - destruct fuel as [|fuel]; [lia|]. cbn [replaceAllFrom].
    assert (Step :
      match s with
      | [] => []
      | ch :: tl => ch :: replaceAllFrom r repl fuel (S i) tl
      end
      = match s with
        | [] => []
        | ch :: tl => ch :: replaceAllFrom r repl (length s) (S i) tl
        end).
    { destruct s as [|ch tl]; [reflexivity|]. cbn [length] in *.
      rewrite (IH tl (S i) fuel); auto; lia. }
    rewrite Step.
    destruct (matchAt r i s) as [y|] eqn:E; [|reflexivity].
    destruct (endIndex y =? i)%nat eqn:Ei; [reflexivity|].
    destruct (matchAt_consumes _ _ _ E) as [t [Ht It]].
    assert (Lt : (length (rest y) < length s)%nat).
    { rewrite Ht, length_app. apply Nat.eqb_neq in Ei.
      destruct t; cbn in *; lia. }
    rewrite (IH (rest y) (endIndex y) fuel),
      (IH (rest y) (endIndex y) (length s)); auto; lia.
Qed.

End MatcherFacts.

(** ** Lines and path segments *)

Section SplitJoin.
Variable sep : cu.

Lemma split_nonempty (s : str) : split sep s <> [].
Proof.
  induction s as [|c s IH]; cbn [split]; [discriminate|].
  destruct (c =? sep)%N; [discriminate|].
  destruct (split sep s); discriminate.
Qed.

Lemma split_app_sep (a b : str) :
  split sep (a ++ sep :: b) = split sep a ++ split sep b.
Proof.
  induction a as [|c a IH]; cbn [split app].
  - now rewrite N.eqb_refl.
  - destruct (c =? sep)%N; rewrite IH; [reflexivity|].
    pose proof (split_nonempty a) as Hn.
    destruct (split sep a); [contradiction | reflexivity].
Qed.

Lemma split_no_sep (s : str) : ~ In sep s -> split sep s = [s].
Proof.
  induction s as [|c s IH]; cbn [split]; intros H; [reflexivity|].
  destruct (N.eqb_spec c sep) as [->|_].
  - exfalso. apply H. now left.
  - rewrite IH; [reflexivity|]. intros Hi. apply H. now right.
Qed.

Lemma split_cons_inv (s h : str) (tl : list str) :
  split sep s = h :: tl ->
  ~ In sep h /\
  ((tl = [] /\ s = h) \/ exists s', s = h ++ sep :: s' /\ tl = split sep s').
Proof.
  revert h tl. induction s as [|c s IH]; cbn [split]; intros h tl H.
  - injection H as <- <-. split; [intros [] | now left].
  - destruct (N.eqb_spec c sep) as [->|Hc].
    + injection H as <- <-. split; [intros [] | right; exists s; auto].
    + destruct (split sep s) as [|h' tl'] eqn:E.
      * exfalso. now apply (split_nonempty s).
      * injection H as <- <-. destruct (IH h' tl' eq_refl) as [Hn Hs].
        split.
        -- intros [Hi|Hi]; [congruence | contradiction].
        -- destruct Hs as [[-> ->]|[s' [-> ->]]]; [now left|].
           right. exists s'. auto.
Qed.

(** A string is a segment of [s] exactly when it holds no separator and
    stands in [s] between separators or the ends. *)
Lemma segment_iff (seg : str) (s : str) :
  In seg (split sep s) <->
  ~ In sep seg /\
  exists a b, s = a ++ seg ++ b /\
    (a = [] \/ exists a', a = a' ++ [sep]) /\
    (b = [] \/ exists b', b = sep :: b').
Proof.
  split.
  - remember (length s) as n eqn:Hn. revert s Hn.
    induction n as [n IH] using lt_wf_ind. intros s Hn Hin.
    destruct (split sep s) as [|h tl] eqn:E; [destruct Hin|].
    destruct (split_cons_inv s E) as [Hh Hs].
    destruct Hin as [<-|Hin].
    + split; [assumption|]. exists []. 
      destruct Hs as [[_ ->]|[s' [-> _]]].
      * exists []. rewrite app_nil_r. auto.
      * exists (sep :: s'). split; [reflexivity|]. split; [now left|].
        right. eauto.
    + destruct Hs as [[-> _]|[s' [-> ->]]]; [destruct Hin|].
      destruct (IH (length s')) with (s := s') as [Hseg [a [b [-> [Ha Hb]]]]];
        [subst n; rewrite length_app; cbn; lia | reflexivity | assumption |].
      split; [assumption|].
      exists (h ++ sep :: a), b. split; [now rewrite <- app_assoc|].
      split; [|assumption]. right.
      destruct Ha as [->|[a' ->]].
      * exists h. reflexivity.
      * exists (h ++ sep :: a'). now rewrite <- app_assoc.
  - intros [Hseg [a [b [-> [Ha Hb]]]]].
    assert (Hright : In seg (split sep (seg ++ b))).
    { destruct Hb as [->|[b' ->]].
      - rewrite app_nil_r, split_no_sep by assumption. now left.
      - rewrite split_app_sep, split_no_sep by assumption. now left. }
    destruct Ha as [->|[a' ->]]; [assumption|].
    rewrite <- app_assoc. cbn [app]. rewrite split_app_sep.
    apply in_or_app. now right.
Qed.

Lemma join_split (s : str) : join [sep] (split sep s) = s.
Proof.
  induction s as [|c s IH]; cbn [split]; [reflexivity|].
  destruct (N.eqb_spec c sep) as [->|_].
  - pose proof (split_nonempty s) as Hn.
    cbn [join]. destruct (split sep s) eqn:E; [contradiction|].
    cbn [app]. now rewrite IH.
  - pose proof (split_nonempty s) as Hn.
    destruct (split sep s) as [|h tl] eqn:E; [contradiction|].
    cbn [join] in *. destruct tl; cbn [app]; now rewrite <- IH.
Qed.

Lemma join_app_last (l : list str) (x : str) :
  l <> [] -> join [sep] (l ++ [x]) = join [sep] l ++ sep :: x.
Proof.
  induction l as [|a l IH]; [contradiction|]. intros _.
  destruct l as [|b l]; [reflexivity|].
  change (join [sep] ((a :: b :: l) ++ [x]))
    with (a ++ [sep] ++ join [sep] ((b :: l) ++ [x])).
  rewrite IH by discriminate. cbn [join].
  now rewrite <- !app_assoc.
Qed.

End SplitJoin.

(** ** validateFilePath *)

Section FilePath.

Lemma includes_unit (c : cu) (s : str) : includes s [c] = true <-> In c s.
Proof.
  induction s as [|x s IH]; cbn [includes startsWith In].
  - split; [discriminate | intros []].
  - rewrite orb_true_iff, IH, andb_true_r, N.eqb_eq. intuition congruence.
Qed.

Lemma trim_split (s : str) :
  exists w1 w2, s = w1 ++ trim s ++ w2 /\
    forallb isWhiteSpace w1 = true /\ forallb isWhiteSpace w2 = true.
Proof.
  unfold trim, trimEnd, trimStart.
  destruct (dropWhile_split isWhiteSpace s) as [w1 [H1 F1]].
  set (a := dropWhile isWhiteSpace s) in *.
  destruct (dropWhile_split isWhiteSpace (rev a)) as [w2 [H2 F2]].
  exists w1, (rev w2). repeat split; [|assumption|].
  - rewrite <- rev_app_distr, <- H2, rev_involutive. assumption.
  - rewrite forallb_forall in *. intros x Hx. apply F2. now apply in_rev.
Qed.

Lemma trim_keeps (c : cu) (s : str) :
  isWhiteSpace c = false -> In c (trim s) <-> In c s.
Proof.
  intros Hc. destruct (trim_split s) as [w1 [w2 [Hs [F1 F2]]]].
  rewrite Hs at 2. rewrite !in_app_iff.
  rewrite forallb_forall in F1, F2.
  split; [tauto|]. intros [H|[H|H]]; [|assumption|].
  - apply F1 in H. congruence.
  - apply F2 in H. congruence.
Qed.

Lemma trim_nil_blank (s : str) : isBlank s = true <-> trim s = [].
Proof.
  rewrite isBlank_length, Nat.eqb_eq. apply length_zero_iff_nil.
Qed.

(** [/(^|\/)\.\.($|\/)/] finds the segments that are [..]. *)
Lemma parentReference_segment (s : str) :
  test parentReference s = true <-> In (js "..") (segments s).
Proof.
  unfold segments. rewrite segment_iff, test_iff. split.
  - intros [pre [suf [y [-> M]]]].
    split; [cbv; intuition discriminate|].
    unfold parentReference, Lit, Chr, code in M. cbn in M.
    repeat match goal with
    | H : Matches (Seq _ _) _ _ |- _ => inversion H; clear H; subst
    | H : Matches (Group _ _) _ _ |- _ => inversion H; clear H; subst
    | H : Matches (Alt _ _) _ _ |- _ => inversion H; clear H; subst
    | H : Matches (Chars _) _ _ |- _ => inversion H; clear H; subst
    | H : Matches Empty _ _ |- _ => inversion H; clear H; subst
    | H : Matches Bol _ _ |- _ => inversion H; clear H; subst
    | H : Matches Eol _ _ |- _ => inversion H; clear H; subst
    end; cbn [rest endIndex captures] in *;
    repeat match goal with
    | H : (_ =? _)%N = true |- _ => apply N.eqb_eq in H
    | H : length _ = 0%nat |- _ => apply length_zero_iff_nil in H
    end; subst.
    all: repeat match goal with
         | H : _ :: _ = _ :: _ |- _ => injection H as ? ?
         end; subst.
    + exists [], []. auto.
    + eexists [], (_ :: _). split; [reflexivity|]. split; [now left|].
      right. eauto.
    + exists (pre ++ [47%N]), []. rewrite <- app_assoc. split; [reflexivity|].
      split; [right; eauto | now left].
    + eexists (pre ++ [47%N]), (_ :: _). rewrite <- app_assoc.
      split; [reflexivity|]. split; right; eauto.
  - intros [_ [a [b [-> [Ha Hb]]]]].
    apply test_iff, test_matchAt.
    destruct Ha as [->|[a' ->]]; destruct Hb as [->|[b' ->]].
    + exists [], (js ".."). split; [reflexivity | intros H; cbv in H; discriminate H].
    + exists [], (js ".." ++ 47%N :: b'). split; [reflexivity | intros H; cbv in H; discriminate H].
    + exists a', (47%N :: js ".."). split; [now rewrite <- app_assoc|].
      destruct a'; intros H; cbv in H; discriminate H.
    + exists a', (47%N :: js ".." ++ 47%N :: b').
      split; [now rewrite <- app_assoc|].
      destruct a'; intros H; cbv in H; discriminate H.
Qed.

End FilePath.

(** C9, as the code has it. A path is rejected exactly when it is blank,
    holds a null byte, or its trimmed form has [..] as a whole segment
    between slashes; so [a/../b] and [../x] are rejected and [foo..bar] is
    accepted. *)
Theorem validateFilePath_rejects (p : str) :
  (valid (validateFilePath p) = false <-> rejectedPath p)
  /\ valid (validateFilePath (js "a/../b")) = false
  /\ valid (validateFilePath (js "../x")) = false
  /\ valid (validateFilePath (js "foo..bar")) = true.
Proof.
  split; [|repeat split; reflexivity].
  unfold validateFilePath, rejectedPath. cbv zeta.
  rewrite <- trim_nil_blank, <- parentReference_segment.
  rewrite <- (trim_keeps NUL p eq_refl), <- includes_unit.
  destruct (isBlank p); [cbn [valid reject]; intuition congruence|].
  destruct (includes (trim p) [NUL]); [cbn [valid reject]; intuition congruence|].
  destruct (test parentReference (trim p)); cbn [valid reject accept];
    intuition congruence.
Qed.

(** C9, as stated, fails: the segments are those of the trimmed path, so
    white space after a final [..] does not save the path. *)
Lemma validateFilePath_trailing_space :
  valid (validateFilePath (js "a/.. ")) = false /\
  ~ claimedRejectedPath (js "a/.. ").
Proof.
  split; [reflexivity|].
  intros [H|[H|H]]; vm_compute in H; [discriminate | intuition discriminate|].
  intuition discriminate.
Qed.

(** ** Patterns as languages *)

Section Languages.

Lemma Lang_ext (r : regex) (L L' : str -> Prop) :
  (forall t, L t <-> L' t) -> Lang r L -> Lang r L'.
Proof.
  intros E [F B]. split.
  - intros x y M. destruct (F x y M) as [t [H1 [H2 H3]]].
    exists t. rewrite <- E. auto.
  - intros t Ht. apply B. now apply E.
Qed.

Lemma Lang_empty : Lang Empty (fun t => t = []).
Proof.
  split.
  - intros x y M. apply Matches_empty_inv in M. subst y. exists []. auto.
  - intros t -> i tl caps. exists caps. cbn. rewrite Nat.add_0_r. constructor.
Qed.

Lemma Lang_chars (cls : cu -> bool) :
  Lang (Chars cls) (fun t => exists ch, t = [ch] /\ cls ch = true).
Proof.
  split.
  - intros x y M. apply Matches_chars_inv in M.
    destruct M as [ch [tl [Hx [Hc ->]]]]. exists [ch]. cbn.
    repeat split; [assumption | lia | eauto].
  - intros t [ch [-> Hc]] i tl caps. exists caps. cbn.
    rewrite Nat.add_1_r.
    apply (MChars cls (mkState i (ch :: tl) caps) eq_refl Hc).
Qed.

Lemma Lang_seq (r1 r2 : regex) (L1 L2 : str -> Prop) :
  Lang r1 L1 -> Lang r2 L2 ->
  Lang (Seq r1 r2) (fun t => exists a b, t = a ++ b /\ L1 a /\ L2 b).
Proof.
  intros [F1 B1] [F2 B2]. split.
  - intros x z M. apply Matches_seq_inv in M. destruct M as [y [M1 M2]].
    destruct (F1 _ _ M1) as [a [Ha [Ia La]]].
    destruct (F2 _ _ M2) as [b [Hb [Ib Lb]]].
    exists (a ++ b). rewrite Ha, Hb, Ib, Ia, length_app, <- app_assoc.
    repeat split; [lia | eauto].
  - intros t [a [b [-> [La Lb]]]] i tl caps.
    destruct (B1 a La i (b ++ tl) caps) as [caps1 M1].
    destruct (B2 b Lb (i + length a)%nat tl caps1) as [caps2 M2].
    exists caps2. rewrite <- app_assoc, length_app, Nat.add_assoc.
    econstructor; eassumption.
Qed.

Lemma Lang_alt (r1 r2 : regex) (L1 L2 : str -> Prop) :
  Lang r1 L1 -> Lang r2 L2 -> Lang (Alt r1 r2) (fun t => L1 t \/ L2 t).
Proof.
  intros [F1 B1] [F2 B2]. split.
  - intros x y M. apply Matches_alt_inv in M. destruct M as [M|M].
    + destruct (F1 _ _ M) as [t [? [? ?]]]. exists t. auto.
    + destruct (F2 _ _ M) as [t [? [? ?]]]. exists t. auto.
  - intros t [Ht|Ht] i tl caps.
    + destruct (B1 t Ht i tl caps) as [caps' M]. exists caps'. now apply MAltL.
    + destruct (B2 t Ht i tl caps) as [caps' M]. exists caps'. now apply MAltR.
Qed.

Lemma Lang_opt (r : regex) (L : str -> Prop) :
  Lang r L -> Lang (Opt r) (fun t => L t \/ t = []).
Proof. intros H. apply Lang_alt; [assumption | apply Lang_empty]. Qed.

Lemma Lang_group (n : nat) (r : regex) (L : str -> Prop) :
  Lang r L -> Lang (Group n r) L.
Proof.
  intros [F B]. split.
  - intros x z M. apply Matches_group_inv in M. destruct M as [y [M ->]].
    cbn. apply F. assumption.
  - intros t Ht i tl caps. destruct (B t Ht i tl caps) as [caps' M].
    eexists. apply (MGroup n M).
Qed.

Lemma Lang_star_chars (cls : cu -> bool) :
  Lang (Star (Chars cls)) (fun t => forallb cls t = true).
Proof.
  split.
  - intros x y M. remember (Star (Chars cls)) as r eqn:Er.
    induction M as [| | | | |r0 x|r0 x y z M1 _ L M2 IH2| | |];
      try discriminate.
    + exists []. cbn. auto.
    + injection Er as ->. destruct (IH2 eq_refl) as [t [Ht [It Ft]]].
      apply Matches_chars_inv in M1. destruct M1 as [ch [tl [Hx [Hc ->]]]].
      cbn in *.
      exists (ch :: t). cbn. rewrite Hx, Ht, It, Hc, Ft.
      repeat split; lia.
  - intros t. induction t as [|ch t IH]; intros Ft i tl caps.
    + exists caps. cbn. rewrite Nat.add_0_r. constructor.
    + cbn in Ft. apply andb_true_iff in Ft. destruct Ft as [Hc Ft].
      destruct (IH Ft (S i) tl caps) as [caps' M].
      exists caps'. cbn [length app].
      replace (i + S (length t))%nat with (S i + length t)%nat by lia.
      eapply MStarStep; [| |exact M].
      * apply (MChars cls (mkState i (ch :: t ++ tl) caps) eq_refl Hc).
      * cbn. lia.
Qed.

Lemma Lang_plus_chars (cls : cu -> bool) :
  Lang (Plus (Chars cls)) (fun t => t <> [] /\ forallb cls t = true).
Proof.
  eapply Lang_ext; [|apply Lang_seq; [apply Lang_chars | apply Lang_star_chars]].
  intros t. split.
  - intros [a [b [-> [[ch [-> Hc]] Fb]]]]. cbn. rewrite Hc, Fb.
    split; [discriminate | reflexivity].
  - intros [Hn Ft]. destruct t as [|ch t]; [contradiction|].
    cbn in Ft. apply andb_true_iff in Ft. destruct Ft as [Hc Ft].
    exists [ch], t. eauto.
Qed.

Lemma Lang_LitI (w : str) :
  Lang (LitI w) (fun t => canonical t = canonical w).
Proof.
  induction w as [|c w IH]; cbn [LitI fold_right].
  - eapply Lang_ext; [|apply Lang_empty].
    intros t. destruct t; cbn; split; intros H; (reflexivity || discriminate H).
  - eapply Lang_ext; [|apply Lang_seq; [apply Lang_chars | exact IH]].
    intros t. cbn. split.
    + intros [a [b [-> [[ch [-> Hc]] Hb]]]]. cbn.
      apply N.eqb_eq in Hc. unfold canonical in Hb. congruence.
    + destruct t as [|ch t]; cbn; [discriminate|]. intros [= Hc Ht].
      exists [ch], t. split; [reflexivity|]. split; [|exact Ht].
      exists ch. split; [reflexivity | now apply N.eqb_eq].
Qed.

Lemma Lang_Lit (w : str) : Lang (Lit w) (fun t => t = w).
Proof.
  induction w as [|c w IH]; cbn [Lit fold_right].
  - apply Lang_empty.
  - eapply Lang_ext; [|apply Lang_seq; [apply Lang_chars | exact IH]].
    intros t. cbn. split.
    + intros [a [b [-> [[ch [-> Hc]] ->]]]]. apply N.eqb_eq in Hc. now subst.
    + intros ->. exists [c], w. split; [reflexivity|]. split; [|reflexivity].
      exists c. split; [reflexivity | apply N.eqb_refl].
Qed.

Lemma EndLang_ext (r : regex) (L L' : str -> Prop) :
  (forall t, L t <-> L' t) -> EndLang r L -> EndLang r L'.
Proof.
  intros E [F B]. split.
  - intros x y M. apply E, (F x y M).
  - intros t Ht. apply B. now apply E.
Qed.

Lemma EndLang_eol : EndLang Eol (fun t => t = []).
Proof.
  split.
  - intros x y M. now apply Matches_eol_inv in M.
  - intros t -> i caps. eexists. now constructor.
Qed.

Lemma EndLang_seq (r1 r2 : regex) (L1 L2 : str -> Prop) :
  Lang r1 L1 -> EndLang r2 L2 ->
  EndLang (Seq r1 r2) (fun t => exists a b, t = a ++ b /\ L1 a /\ L2 b).
Proof.
  intros [F1 B1] [F2 B2]. split.
  - intros x z M. apply Matches_seq_inv in M. destruct M as [y [M1 M2]].
    destruct (F1 _ _ M1) as [a [Ha [_ La]]].
    exists a, (rest y). split; [assumption|]. split; [assumption|].
    apply (F2 _ _ M2).
  - intros t [a [b [-> [La Lb]]]] i caps.
    destruct (B1 a La i b caps) as [caps1 M1].
    destruct (B2 b Lb (i + length a)%nat caps1) as [z M2].
    exists z. econstructor; eassumption.
Qed.

(** A pattern anchored at both ends tests membership in its language. *)
Lemma test_anchored (r : regex) (L : str -> Prop) (s : str) :
  EndLang r L -> test (Seq Bol r) s = true <-> L s.
Proof.
  intros [F B]. rewrite test_iff. split.
  - intros [pre [suf [y [-> M]]]].
    apply Matches_seq_inv in M. destruct M as [x [M1 M2]].
    apply Matches_bol_inv in M1. destruct M1 as [H ->].
    cbn in H. apply length_zero_iff_nil in H. subst pre.
    apply (F _ _ M2).
  - intros Hs. destruct (B s Hs 0%nat []) as [y M].
    exists [], s, y. split; [reflexivity|].
    econstructor; [apply MBol; reflexivity | exact M].
Qed.

End Languages.

(** ** validateRemoteUrl *)

Section RemoteUrl.

Lemma canonical_app (a b : str) :
  canonical (a ++ b) = canonical a ++ canonical b.
Proof. apply map_app. Qed.

Lemma canonical_split (s x y : str) :
  canonical s = x ++ y ->
  exists a b, s = a ++ b /\ canonical a = x /\ canonical b = y.
Proof. apply map_eq_app. Qed.

Lemma upperCU_colon (c : cu) : upperCU c = code ":" -> c = code ":".
Proof.
  unfold upperCU, isLower, between, code. cbn.
  destruct (97 <=? c)%N eqn:E1; destruct (c <=? 122)%N eqn:E2; cbn; auto.
  apply N.leb_le in E1. intros H. lia.
Qed.

(** [scheme], then [[^\s]+], then [.git], anchored, with the [i] flag. *)
Lemma test_scheme_pattern (scheme t : str) :
  test (seqs [Bol; LitI scheme; Plus nonWhitespace; LitI (js ".git"); Eol]) t
    = true <-> SchemeUrl scheme t.
Proof.
  cbn [seqs]. unfold nonWhitespace.
  rewrite (test_anchored t
             (EndLang_seq (Lang_LitI scheme)
                (EndLang_seq (Lang_plus_chars _)
                   (EndLang_seq (Lang_LitI (js ".git")) EndLang_eol)))).
  unfold SchemeUrl, sameIgnoringCase, spaceFree. split.
  - intros [s [b [-> [Hs [body [b1 [-> [[Hn Hb] [ext [e [-> [He ->]]]]]]]]]]]].
    exists s, body, ext. rewrite app_nil_r. auto.
  - intros [s [body [ext [-> [Hs [Hn [Hb He]]]]]]].
    exists s, (body ++ ext). repeat split; [assumption|].
    exists body, ext. repeat split; [assumption .. |].
    exists ext, []. rewrite app_nil_r. auto.
Qed.

Lemma test_sshPattern2 (t : str) :
  test sshPattern2 t = true <-> SchemeUrl (js "ssh://") t.
Proof. apply test_scheme_pattern. Qed.

Lemma test_gitPattern (t : str) :
  test gitPattern t = true <-> SchemeUrl (js "git://") t.
Proof. apply test_scheme_pattern. Qed.

Lemma test_httpsPattern (t : str) :
  test httpsPattern t = true <->
  SchemeUrl (js "https://") t \/ SchemeUrl (js "http://") t.
Proof.
  unfold httpsPattern. cbn [seqs]. unfold nonWhitespace, ChrI.
  rewrite (test_anchored t
             (EndLang_seq (Lang_LitI (js "http"))
                (EndLang_seq (Lang_opt (Lang_chars _))
                   (EndLang_seq (Lang_LitI (js "://"))
                      (EndLang_seq (Lang_plus_chars _)
                         (EndLang_seq (Lang_LitI (js ".git")) EndLang_eol)))))).
  unfold SchemeUrl, sameIgnoringCase, spaceFree. split.
  - intros (a & b & -> & Ha & o & b0 & -> & Ho & c & b1 & -> & Hc
             & body & b2 & -> & (Hn & Hb) & ext & e & -> & He & ->).
    rewrite app_nil_r.
    destruct Ho as [[ch [-> Hch]]| ->]; [left | right].
    + exists (a ++ [ch] ++ c), body, ext.
      split; [now rewrite <- !app_assoc|]. split; [|auto].
      rewrite !canonical_app, Ha, Hc.
      apply N.eqb_eq in Hch. cbn [canonical map]. rewrite Hch. reflexivity.
    + exists (a ++ c), body, ext.
      split; [now rewrite <- !app_assoc|]. split; [|auto].
      rewrite !canonical_app, Ha, Hc. reflexivity.
  - intros [H|H]; destruct H as [s [body [ext [-> [Hs [Hn [Hb He]]]]]]].
    + change (canonical (js "https://"))
        with (canonical (js "http") ++ canonical (js "s")
              ++ canonical (js "://")) in Hs.
      apply canonical_split in Hs. destruct Hs as [a [r [-> [Ha Hr]]]].
      apply canonical_split in Hr. destruct Hr as [o [c [-> [Ho Hc]]]].
      exists a, (o ++ c ++ body ++ ext).
      split; [now rewrite <- !app_assoc|]. split; [assumption|].
      exists o, (c ++ body ++ ext). split; [reflexivity|]. split.
      { left. destruct o as [|ch [|]]; try discriminate.
        exists ch. split; [reflexivity|]. apply N.eqb_eq.
        cbn in Ho. now injection Ho. }
      exists c, (body ++ ext). repeat split; [assumption|].
      exists body, ext. repeat split; [assumption .. |].
      exists ext, []. rewrite app_nil_r. auto.
    + change (canonical (js "http://"))
        with (canonical (js "http") ++ canonical (js "://")) in Hs.
      apply canonical_split in Hs. destruct Hs as [a [c [-> [Ha Hc]]]].
      exists a, (c ++ body ++ ext).
      split; [now rewrite <- !app_assoc|]. split; [assumption|].
      exists [], (c ++ body ++ ext). split; [reflexivity|].
      split; [now right|].
      exists c, (body ++ ext). repeat split; [assumption|].
      exists body, ext. repeat split; [assumption .. |].
      exists ext, []. rewrite app_nil_r. auto.
Qed.

Lemma hostClass_iff (s : str) :
  forallb (fun c => negb (isWhiteSpace c || (c =? code ":")%N)) s = true <->
  spaceFree s /\ ~ In (code ":") s.
Proof.
  unfold spaceFree. induction s as [|c s IH]; cbn [forallb In].
  - intuition.
  - rewrite !andb_true_iff, IH.
    destruct (isWhiteSpace c); destruct (N.eqb_spec c (code ":"));
      cbn [negb orb]; intuition congruence.
Qed.

Lemma test_sshPattern1 (t : str) :
  test sshPattern1 t = true <-> ShorthandUrl t.
Proof.
  unfold sshPattern1. cbn [seqs]. unfold nonWhitespace, ChrI.
  rewrite (test_anchored t
             (EndLang_seq (Lang_LitI (js "git@"))
                (EndLang_seq (Lang_plus_chars _)
                   (EndLang_seq (Lang_chars _)
                      (EndLang_seq (Lang_plus_chars _)
                         (EndLang_seq (Lang_LitI (js ".git")) EndLang_eol)))))).
  unfold ShorthandUrl, sameIgnoringCase. split.
  - intros (user & b & -> & Hu & host & b0 & -> & (Hn & Hh) & c & b1 & ->
            & (ch & -> & Hch) & path & b2 & -> & (Hpn & Hp) & ext & e & ->
            & He & ->).
    apply hostClass_iff in Hh. destruct Hh as [Hh Hc].
    apply N.eqb_eq, upperCU_colon in Hch. subst ch.
    exists user, host, path, ext. rewrite app_nil_r. repeat split; auto.
  - intros (user & host & path & ext & -> & Hu & Hn & Hh & Hc & Hpn & Hp & He).
    exists user, (host ++ js ":" ++ path ++ ext). repeat split; [assumption|].
    exists host, (js ":" ++ path ++ ext). repeat split; [assumption | |].
    { apply hostClass_iff. auto. }
    exists (js ":"), (path ++ ext). repeat split; [exists (code ":"); auto|].
    exists path, ext. repeat split; [assumption .. |].
    exists ext, []. rewrite app_nil_r. auto.
Qed.

Lemma test_filePattern (t : str) : test filePattern t = true <-> LocalPath t.
Proof.
  unfold filePattern. cbn [seqs]. unfold nonWhitespace, Chr.
  rewrite (test_anchored t
             (EndLang_seq (Lang_opt (Lang_group 1 (Lang_Lit (js "file://"))))
                (EndLang_seq (Lang_chars _)
                   (EndLang_seq (Lang_plus_chars _) EndLang_eol)))).
  unfold LocalPath. split.
  - intros (o & b & -> & Ho & c & b0 & -> & (ch & -> & Hch) & p & e & ->
            & (Hn & Hp) & ->).
    apply N.eqb_eq in Hch. subst ch. exists p. rewrite app_nil_r.
    repeat split; [assumption .. |].
    destruct Ho as [->| ->]; [right | left]; reflexivity.
  - intros (p & Hn & Hp & [->| ->]).
    + exists [], (js "/" ++ p). repeat split; [now right|].
      exists (js "/"), p. repeat split;
        [exists (code "/"); split; [reflexivity | apply N.eqb_refl]|].
      exists p, []. rewrite app_nil_r. auto.
    + exists (js "file://"), (js "/" ++ p). repeat split; [now left|].
      exists (js "/"), p. repeat split;
        [exists (code "/"); split; [reflexivity | apply N.eqb_refl]|].
      exists p, []. rewrite app_nil_r. auto.
Qed.

Lemma SchemeUrl_nonempty (scheme : str) : ~ SchemeUrl scheme [].
Proof.
  intros (s & body & ext & H & _ & Hn & _). symmetry in H.
  apply app_eq_nil in H. destruct H as [_ H].
  apply app_eq_nil in H. destruct H as [H _]. contradiction.
Qed.

(** The five patterns together. *)
Lemma isValid_iff (t : str) :
  test httpsPattern t || test sshPattern1 t || test sshPattern2 t
  || test gitPattern t || test filePattern t = true <-> AcceptedUrl t.
Proof.
  rewrite !orb_true_iff, test_httpsPattern, test_sshPattern1, test_sshPattern2,
    test_gitPattern, test_filePattern.
  unfold AcceptedUrl. tauto.
Qed.

End RemoteUrl.

(** C8, as the code has it. The URL is judged after trimming. A blank URL
    is rejected without suggestions. A URL is accepted exactly when it is,
    letter case ignored, [https://], [http://], [ssh://] or [git://]
    followed by at least one character and [.git], or the shorthand
    [git@host:path.git], all free of white space, or, letter case observed,
    an absolute path free of white space with or without [file://] in
    front; every other URL is rejected with the HTTPS and SSH examples as
    suggestions. The accepted [git://] URLs, and only they, come with the
    warning. *)
Theorem validateRemoteUrl_forms (u : str) :
  (validateRemoteUrl u = reject (js "Remote URL cannot be empty")
   <-> trim u = [])
  /\ (validateRemoteUrl u
      = rejectWith (js "Invalid remote URL format")
          [js "HTTPS: https://github.com/user/repo.git";
           js "SSH: git@github.com:user/repo.git"]
      <-> trim u <> [] /\ ~ AcceptedUrl (trim u))
  /\ (validateRemoteUrl u
      = acceptWarning [js "Git protocol is unencrypted. Consider using HTTPS or SSH."]
      <-> SchemeUrl (js "git://") (trim u))
  /\ (validateRemoteUrl u = accept
      <-> AcceptedUrl (trim u) /\ ~ SchemeUrl (js "git://") (trim u))
  /\ (valid (validateRemoteUrl u) = true <-> AcceptedUrl (trim u)).
Proof.
  unfold validateRemoteUrl. cbv zeta.
  pose proof (isValid_iff (trim u)) as Hv.
  pose proof (test_gitPattern (trim u)) as Hg.
  pose proof (trim_nil_blank u) as Hb.
  assert (Hag : SchemeUrl (js "git://") (trim u) -> AcceptedUrl (trim u))
    by (unfold AcceptedUrl; tauto).
  destruct (isBlank u).
  - assert (E : trim u = []) by now apply Hb.
    rewrite E in *. pose proof (@SchemeUrl_nonempty (js "git://")) as Hn.
    repeat split; try discriminate; try tauto; intros; exfalso; tauto.
  - assert (E : trim u <> []) by (intros E; apply Hb in E; discriminate).
    destruct (test httpsPattern (trim u) || test sshPattern1 (trim u)
              || test sshPattern2 (trim u) || test gitPattern (trim u)
              || test filePattern (trim u)); cbn [negb].
    + assert (A : AcceptedUrl (trim u)) by now apply Hv.
      destruct (test gitPattern (trim u)).
      * assert (G : SchemeUrl (js "git://") (trim u)) by now apply Hg.
        repeat split; try discriminate; try tauto.
      * assert (G : ~ SchemeUrl (js "git://") (trim u))
          by (intros G; apply Hg in G; discriminate).
        repeat split; try discriminate; try tauto.
    + assert (A : ~ AcceptedUrl (trim u))
        by (intros A; apply Hv in A; discriminate).
      repeat split; try discriminate; try tauto.
Qed.

(** C8, as stated, fails on four counts: a blank URL gets no suggestions; a
    [git://] URL that does not end in [.git] is rejected; the user of the
    shorthand has to be [git]; and [file://] is matched with letter case
    observed. *)
Lemma validateRemoteUrl_strictness :
  suggestions (validateRemoteUrl (js "")) = None
  /\ (startsWith (js "git://example.com/repo") (js "git://") = true
      /\ valid (validateRemoteUrl (js "git://example.com/repo")) = false)
  /\ valid (validateRemoteUrl (js "alice@example.com:repo.git")) = false
  /\ (valid (validateRemoteUrl (js "file:///srv/repo")) = true
      /\ valid (validateRemoteUrl (js "FILE:///srv/repo")) = false).
Proof. repeat split; reflexivity. Qed.

(** ** The greedy run of a character class *)

Section Greedy.
Variable cls : cu -> bool.

Lemma repeatMatcher_step (m : Matcher) (fuel : nat) (x : MatchState)
    (c : Continuation) :
  repeatMatcher m (S fuel) x c =
  match m x (fun y => if (length (rest y) <? length (rest x))%nat
                      then repeatMatcher m fuel y c else None) with
  | Some r => Some r
  | None => c x
  end.
Proof. reflexivity. Qed.

Lemma compile_chars_cons (h : cu) (s : str) (i : nat) caps (k : Continuation) :
  compile (Chars cls) (mkState i (h :: s) caps) k =
  if cls h then k (mkState (S i) s caps) else None.
Proof. reflexivity. Qed.

Lemma compile_chars_nil (i : nat) caps (k : Continuation) :
  compile (Chars cls) (mkState i [] caps) k = None.
Proof. reflexivity. Qed.

Lemma repeat_chars_greedy (t tl : str) (c : Continuation) (res : MatchState) :
  forallb cls t = true -> stopsAt cls tl ->
  forall fuel i caps, (length t <= fuel)%nat ->
  c (mkState (i + length t) tl caps) = Some res ->
  repeatMatcher (compile (Chars cls)) fuel (mkState i (t ++ tl) caps) c = Some res.
Proof.
  intros Ft Hs. induction t as [|h t IH]; intros fuel i caps Hf Hc.
  - cbn [length app] in *. rewrite Nat.add_0_r in Hc.
    destruct fuel; [assumption|]. rewrite repeatMatcher_step.
    destruct tl as [|x tl'].
    + rewrite compile_chars_nil. assumption.
    + rewrite compile_chars_cons. cbn in Hs. rewrite Hs. assumption.
  - cbn in Ft. apply andb_true_iff in Ft. destruct Ft as [Hh Ft].
    destruct fuel as [|fuel]; [cbn in Hf; lia|].
    cbn [app]. rewrite repeatMatcher_step, compile_chars_cons, Hh.
    cbn [rest].
    assert (L : (length (t ++ tl) <? length (h :: t ++ tl))%nat = true)
      by (apply Nat.ltb_lt; cbn; lia).
    rewrite L, (IH Ft fuel (S i) caps); [reflexivity | cbn in Hf; lia |].
    cbn [length] in Hc.
    now replace (S i + length t)%nat with (i + S (length t))%nat by lia.
Qed.

(** [cls*] takes the whole run when the continuation accepts there. *)
Lemma star_chars_greedy (t tl s : str) (i : nat) caps (c : Continuation) res :
  s = t ++ tl -> forallb cls t = true -> stopsAt cls tl ->
  c (mkState (i + length t) tl caps) = Some res ->
  compile (Star (Chars cls)) (mkState i s caps) c = Some res.
Proof.
  intros -> Ft Hs Hc. cbn [compile rest].
  apply repeat_chars_greedy; auto. rewrite length_app. lia.
Qed.

Lemma plus_chars_greedy (t tl s : str) (i : nat) caps (c : Continuation) res :
  s = t ++ tl -> t <> [] -> forallb cls t = true -> stopsAt cls tl ->
  c (mkState (i + length t) tl caps) = Some res ->
  compile (Plus (Chars cls)) (mkState i s caps) c = Some res.
Proof.
  intros -> Hn Ft Hs Hc. destruct t as [|h t]; [contradiction|].
  cbn in Ft. apply andb_true_iff in Ft. destruct Ft as [Hh Ft].
  unfold Plus. cbn [app].
  change (compile (Seq (Chars cls) (Star (Chars cls)))
            (mkState i (h :: t ++ tl) caps) c)
    with (compile (Chars cls) (mkState i (h :: t ++ tl) caps)
            (fun y => repeatMatcher (compile (Chars cls)) (length (rest y)) y c)).
  rewrite compile_chars_cons, Hh. cbn [rest].
  apply repeat_chars_greedy; auto.
  - rewrite length_app. lia.
  - cbn [length] in Hc.
    now replace (S i + length t)%nat with (i + S (length t))%nat by lia.
Qed.

End Greedy.

Lemma firstn_consumed (t tl : str) (i : nat) :
  firstn (i + length t - i) (t ++ tl) = t.
Proof.
  replace (i + length t - i)%nat with (length t + 0)%nat by lia.
  rewrite firstn_app_2. cbn. apply app_nil_r.
Qed.

(** ** The subject pattern on a generated first line *)

Section Subject.

Lemma compile_seq (a b : regex) (x : MatchState) (c : Continuation) :
  compile (Seq a b) x c = compile a x (fun y => compile b y c).
Proof. reflexivity. Qed.

Lemma compile_group (n : nat) (r : regex) (x : MatchState) (c : Continuation) :
  compile (Group n r) x c =
  compile r x (fun y =>
    c (mkState (endIndex y) (rest y)
         ((n, firstn (endIndex y - endIndex x) (rest x)) :: captures y))).
Proof. reflexivity. Qed.

Lemma compile_opt (r : regex) (x : MatchState) (c : Continuation) :
  compile (Opt r) x c =
  match compile r x c with Some res => Some res | None => c x end.
Proof. reflexivity. Qed.

Lemma firstn_all_consumed (t : str) (i : nat) :
  firstn (i + length t - i) t = t.
Proof.
  replace (i + length t - i)%nat with (length t) by lia. apply firstn_all.
Qed.

Lemma stage_description (i : nat) caps (d : str) :
  plainDescription d ->
  compile (seqs [Star whitespace; Group 4 (Plus dot); Eol])
    (mkState i (js " " ++ d) caps) Some
  = Some (mkState (i + 1 + length d) [] ((4%nat, d) :: caps)).
Proof.
  intros (Hn & Hw & Hl). cbn [seqs]. rewrite compile_seq. unfold whitespace.
  apply (@star_chars_greedy isWhiteSpace (js " ") d);
    [reflexivity | reflexivity | exact Hw |].
  rewrite compile_seq, compile_group. unfold dot.
  apply (@plus_chars_greedy _ d []);
    [symmetry; apply app_nil_r | exact Hn | exact Hl | exact I |].
  cbn [compile rest endIndex captures]. now rewrite firstn_all_consumed.
Qed.

Lemma seqs_cons (a b : regex) (l : list regex) :
  seqs (a :: b :: l) = Seq a (seqs (b :: l)).
Proof. reflexivity. Qed.

Lemma stage_colon (i : nat) caps (d : str) :
  plainDescription d ->
  compile (seqs [Chr (code ":"); Star whitespace; Group 4 (Plus dot); Eol])
    (mkState i (js ": " ++ d) caps) Some
  = Some (mkState (i + 2 + length d) [] ((4%nat, d) :: caps)).
Proof.
  intros Hd. rewrite seqs_cons, compile_seq. unfold Chr.
  change (js ": " ++ d) with (code ":" :: js " " ++ d).
  rewrite compile_chars_cons, N.eqb_refl, (stage_description (S i) caps Hd).
  do 2 f_equal. lia.
Qed.

Lemma stage_bang (i : nat) caps (b : bool) (d : str) :
  plainDescription d ->
  compile (seqs [Opt (Group 3 (Chr (code "!"))); Chr (code ":");
                 Star whitespace; Group 4 (Plus dot); Eol])
    (mkState i ((if b then js "!" else []) ++ js ": " ++ d) caps) Some
  = Some (mkState (i + (if b then 1 else 0) + 2 + length d) []
            ((4%nat, d) :: (if b then [(3%nat, js "!")] else []) ++ caps)).
Proof.
  intros Hd. rewrite seqs_cons, compile_seq, compile_opt, compile_group.
  unfold Chr at 1. destruct b.
  - change (js "!" ++ js ": " ++ d) with (code "!" :: js ": " ++ d).
    rewrite compile_chars_cons, N.eqb_refl. cbn [endIndex rest captures].
    rewrite (stage_colon (S i) _ Hd).
    replace (S i - i)%nat with 1%nat by lia. cbn [firstn app].
    do 2 f_equal. lia.
  - change ([] ++ js ": " ++ d) with (code ":" :: js " " ++ d).
    rewrite compile_chars_cons.
    change (code "!" =? code ":")%N with false. cbv iota.
    change (code ":" :: js " " ++ d) with (js ": " ++ d).
    rewrite (stage_colon i caps Hd). cbn [app]. do 2 f_equal. lia.
Qed.

Lemma opt_taken (r : regex) (x : MatchState) (c : Continuation) res :
  compile r x c = Some res -> compile (Opt r) x c = Some res.
Proof. intros H. now rewrite compile_opt, H. Qed.

Lemma opt_skipped (r : regex) (x : MatchState) (c : Continuation) res :
  compile r x c = None -> c x = Some res -> compile (Opt r) x c = Some res.
Proof. intros H Hc. now rewrite compile_opt, H. Qed.

Lemma forallb_not_in (x : cu) (s : str) :
  ~ In x s -> forallb (fun c => negb (mem c [x])) s = true.
Proof.
  induction s as [|c s IH]; cbn [forallb In]; [reflexivity|].
  intros H. rewrite IH by tauto. rewrite andb_true_r.
  unfold mem. cbn [existsb]. rewrite orb_false_r.
  apply negb_true_iff, N.eqb_neq. intros ->. tauto.
Qed.

Lemma stage_scope (i : nat) caps (scope : option str) (b : bool) (d : str) :
  plainScope scope -> plainDescription d ->
  compile afterType
    (mkState i (scopeText scope ++ (if b then js "!" else []) ++ js ": " ++ d)
       caps) Some
  = Some (mkState (i + length (scopeText scope) + (if b then 1 else 0) + 2
                   + length d) []
            ((4%nat, d) :: (if b then [(3%nat, js "!")] else [])
             ++ match scope with Some (c :: sc) => [(2%nat, c :: sc)] | _ => [] end
             ++ caps)).
Proof.
  intros Hs Hd. unfold afterType. rewrite seqs_cons, compile_seq.
  assert (Skip : forall caps',
    compile (seqs [Chr (code "("); Group 2 (Plus (NoneOf [code ")"]));
                   Chr (code ")")])
      (mkState i ((if b then js "!" else []) ++ js ": " ++ d) caps')
      (fun y => compile (seqs [Opt (Group 3 (Chr (code "!"))); Chr (code ":");
                               Star whitespace; Group 4 (Plus dot); Eol]) y Some)
    = None).
  { intros caps'. rewrite seqs_cons, compile_seq. unfold Chr at 1.
    destruct b; reflexivity. }
  destruct scope as [[|c sc]|]; cbn [scopeText].
  - cbn [app]. apply opt_skipped; [apply Skip|].
    rewrite (stage_bang i caps b Hd). cbn [app length]. do 2 f_equal. lia.
  - destruct Hs as (_ & Hp & _). apply opt_taken.
    assert (Er : forall tail,
               (js "(" ++ (c :: sc) ++ js ")") ++ tail
               = code "(" :: (c :: sc) ++ code ")" :: tail).
    { intros tail. change (js "(") with [code "("].
      change (js ")") with [code ")"]. cbn [app]. now rewrite <- app_assoc. }
    rewrite Er.
    rewrite seqs_cons, compile_seq. unfold Chr at 1.
    rewrite compile_chars_cons, N.eqb_refl.
    rewrite seqs_cons, compile_seq, compile_group. unfold NoneOf.
    apply (@plus_chars_greedy _ (c :: sc)
             (code ")" :: (if b then js "!" else []) ++ js ": " ++ d));
      [reflexivity | discriminate | now apply forallb_not_in | reflexivity |].
    cbn [endIndex rest captures seqs]. unfold Chr at 1.
    rewrite compile_chars_cons, N.eqb_refl, firstn_consumed.
    rewrite (stage_bang _ _ b Hd). do 2 f_equal.
    rewrite !length_app. change (length (js "(")) with 1%nat.
    change (length (js ")")) with 1%nat. cbn [length]. lia.
  - cbn [app]. apply opt_skipped; [apply Skip|].
    rewrite (stage_bang i caps b Hd). cbn [app length]. do 2 f_equal. lia.
Qed.

Lemma subject_matches (type : str) (scope : option str) (b : bool) (d : str) :
  type <> [] -> forallb isWord type = true ->
  plainScope scope -> plainDescription d ->
  matchCaptures conventionalPattern (subjectLine type scope b d)
  = Some (subjectCaptures type scope b d).
Proof.
  intros Hn Hw Hs Hd.
  assert (E : matchAt conventionalPattern 0 (subjectLine type scope b d)
              = Some (mkState (0 + length type + length (scopeText scope)
                               + (if b then 1 else 0) + 2 + length d) []
                        (subjectCaptures type scope b d))).
  { unfold matchAt, conventionalPattern, subjectLine.
    rewrite seqs_cons, compile_seq. cbn [compile endIndex Nat.eqb].
    change (seqs (Group 1 (Plus word) :: ?l))
      with (Seq (Group 1 (Plus word)) afterType).
    rewrite compile_seq, compile_group. unfold word.
    apply (@plus_chars_greedy _ type
             (scopeText scope ++ (if b then js "!" else []) ++ js ": " ++ d));
      [reflexivity | assumption | assumption | |].
    - destruct scope as [[|c sc]|]; destruct b; reflexivity.
    - cbn [endIndex rest captures]. rewrite firstn_consumed.
      rewrite (@stage_scope _ _ scope b d Hs Hd). reflexivity. }
  unfold matchCaptures, exec.
  destruct (subjectLine type scope b d) eqn:Es; cbn [execFrom]; now rewrite E.
Qed.

End Subject.

(** ** Generated messages, line by line *)

Section RoundTrip.

Lemma generate_shape (type : str) (scope : option str) (d : str)
    (body : option str) (b : bool) (footer : option str) :
  generateConventionalCommit type scope d body (Some b) footer
  = subjectLine type scope b d ++ section body ++ section footer.
Proof.
  unfold generateConventionalCommit, subjectLine, section, scopeText.
  destruct scope as [[|c sc]|]; destruct b; destruct body as [[|x bd]|];
    destruct footer as [[|y ft]|]; cbn [truthyBool app];
    rewrite <- ?app_assoc, ?app_nil_r; reflexivity.
Qed.

Lemma word_not_LF (s : str) : forallb isWord s = true -> ~ In LF s.
Proof.
  induction s as [|c s IH]; cbn [forallb In]; [tauto|].
  rewrite andb_true_iff. intros [Hc Hs] [E|H]; [subst c; discriminate | tauto].
Qed.

Lemma plain_not_LF (s : str) :
  forallb (fun c => negb (isLineTerminator c)) s = true -> ~ In LF s.
Proof.
  induction s as [|c s IH]; cbn [forallb In]; [tauto|].
  rewrite andb_true_iff. intros [Hc Hs] [E|H]; [subst c; discriminate | tauto].
Qed.

Lemma subject_one_line (type : str) (scope : option str) (b : bool) (d : str) :
  forallb isWord type = true -> plainScope scope -> plainDescription d ->
  ~ In LF (subjectLine type scope b d).
Proof.
  intros Hw Hs (_ & _ & Hd). unfold subjectLine, scopeText.
  apply word_not_LF in Hw. apply plain_not_LF in Hd.
  rewrite !in_app_iff. intros [H|[H|[H|[H|H]]]]; try tauto.
  - destruct scope as [[|c sc]|]; cbv beta iota in H;
      [destruct H | | destruct H].
    destruct Hs as (_ & _ & Hs). rewrite !in_app_iff in H.
    destruct H as [H|[H|H]]; [|tauto|];
      cbn in H; intuition discriminate.
  - destruct b; cbn in H; intuition discriminate.
  - cbn in H; intuition discriminate.
Qed.

(** The lines of a generated message: the subject, then for each section a
    blank line and the lines of the section. *)
Lemma generated_lines (subject : str) (body footer : option str) :
  ~ In LF subject ->
  split LF (subject ++ section body ++ section footer)
  = subject :: sectionLines body ++ sectionLines footer.
Proof.
  intros Hs.
  assert (One : forall x, split LF (LF :: x) = [] :: split LF x) by reflexivity.
  unfold section, sectionLines, nl.
  destruct body as [[|x bd]|]; destruct footer as [[|y ft]|];
    cbn [app]; rewrite ?app_nil_r;
    try (rewrite split_no_sep by assumption; reflexivity);
    try (rewrite split_app_sep, split_no_sep, One by assumption; reflexivity).
  rewrite split_app_sep, split_no_sep by assumption.
  change (LF :: x :: bd ++ LF :: LF :: y :: ft)
    with ((LF :: x :: bd) ++ LF :: LF :: y :: ft).
  rewrite split_app_sep, !One. reflexivity.
Qed.

Lemma classify_footer (ls : list str) : classifyLines true ls = ([], ls).
Proof.
  induction ls as [|l ls IH]; cbn [classifyLines]; [reflexivity|].
  destruct (test footerToken l); now rewrite IH.
Qed.

Lemma classify_body (a ls : list str) :
  Forall (fun line => test footerToken line = false) a ->
  classifyLines false (a ++ ls)
  = (a ++ fst (classifyLines false ls), snd (classifyLines false ls)).
Proof.
  induction 1 as [|l a Hl Ha IH]; cbn [app classifyLines].
  - now destruct (classifyLines false ls).
  - rewrite Hl, IH. reflexivity.
Qed.

Lemma trim_newline_after (b : str) :
  b <> [] -> trim b = b -> trim (b ++ nl) = b.
Proof.
  intros Hn Hb. pose proof (trim_trimmed b) as [H1 H2]. rewrite Hb in H1, H2.
  assert (Skip : forall x, dropWhile isWhiteSpace (LF :: x)
                           = dropWhile isWhiteSpace x) by reflexivity.
  unfold trim, trimStart, trimEnd.
  destruct b as [|c b]; [contradiction|].
  rewrite (dropWhile_fixed isWhiteSpace ((c :: b) ++ nl)) by exact H1.
  rewrite rev_app_distr. change (rev nl) with [LF].
  change ([LF] ++ rev (c :: b)) with (LF :: rev (c :: b)).
  rewrite Skip, (dropWhile_fixed _ _ H2). apply rev_involutive.
Qed.

Lemma classify_plain (a : list str) :
  Forall (fun line => test footerToken line = false) a ->
  classifyLines false a = (a, []).
Proof.
  intros H. rewrite <- (app_nil_r a) at 1. rewrite (classify_body [] H).
  cbn [classifyLines fst snd]. now rewrite app_nil_r.
Qed.

Lemma classify_token (ls : list str) :
  ls <> [] -> test footerToken (hd [] ls) = true ->
  classifyLines false ls = ([], ls).
Proof.
  destruct ls as [|l ls]; [contradiction|]. intros _ H. cbn [hd] in H.
  cbn [classifyLines]. now rewrite H, classify_footer.
Qed.

Lemma classify_from_third (subject : str) (ls : list str) :
  ls <> [] ->
  (if (2 <? length (subject :: [] :: ls))%nat
   then classifyLines false (skipn 2 (subject :: [] :: ls))
   else ([], []))
  = classifyLines false ls.
Proof. destruct ls; [contradiction | reflexivity]. Qed.

Lemma joined_lines (s : str) : joinedOrUndefined (split LF s) = Some (trim s).
Proof.
  pose proof (split_nonempty LF s) as Hn. pose proof (join_split LF s) as Hj.
  unfold joinedOrUndefined, nl.
  destruct (split LF s) as [|h t] eqn:E; [contradiction | now rewrite Hj].
Qed.

Lemma joined_lines_blank (s : str) :
  joinedOrUndefined (split LF s ++ [[]]) = Some (trim (s ++ nl)).
Proof.
  pose proof (split_nonempty LF s) as Hn.
  pose proof (join_app_last LF [] Hn) as Hj. rewrite join_split in Hj.
  unfold joinedOrUndefined, nl.
  destruct (split LF s ++ [[]]) as [|h t] eqn:E.
  - apply app_eq_nil in E. destruct E as [_ E]. discriminate.
  - do 2 f_equal. rewrite <- E. exact Hj.
Qed.

Lemma subject_captures (type : str) (scope : option str) (b : bool) (d : str) :
  plainScope scope ->
  capture 1 (subjectCaptures type scope b d) = Some type /\
  capture 2 (subjectCaptures type scope b d) = scope /\
  capture 3 (subjectCaptures type scope b d)
    = (if b then Some (js "!") else None) /\
  capture 4 (subjectCaptures type scope b d) = Some d.
Proof.
  intros Hs. destruct scope as [[|c sc]|]; destruct b;
    try (destruct Hs as (Hs & _); contradiction); repeat split.
Qed.

End RoundTrip.

(** C3, as the code has it. The parser gives back what the generator was
    given when, beyond [type] being a word and [scope] and [description]
    holding no [)] and no newline: the scope, if given, is not empty; the
    description is not empty, does not begin with white space and holds no
    line terminator; the body, if given, is not empty, is trimmed and has
    no line beginning with a footer token; and the footer, if given, is not
    empty, is trimmed and begins with a footer token the footer pattern
    finds. *)
Theorem conventional_round_trip
    (type : str) (scope : option str) (description : str)
    (body : option str) (breaking : bool) (footer : option str) :
  type <> [] -> forallb isWord type = true ->
  plainScope scope -> plainDescription description ->
  plainBody body -> tokenFooter footer ->
  roundTrips type scope description body breaking footer.
Proof.
  intros Hn Hw Hs Hd Hb Hf.
  unfold roundTrips, parseConventionalCommit. cbv zeta.
  rewrite generate_shape, generated_lines
    by (apply subject_one_line; assumption).
  cbn [hd]. rewrite subject_matches by assumption.
  destruct (@subject_captures type scope breaking description Hs)
    as (K1 & K2 & K3 & K4).
  rewrite K1, K2, K3, K4.
  assert (B : (if breaking
               then str_eqb (js "!") (js "!") else false) = breaking)
    by (destruct breaking; reflexivity).
  assert (Blank : test footerToken [] = false) by reflexivity.
  destruct body as [[|x bd]|]; destruct footer as [[|y ft]|];
    try (destruct Hb as (Hb & _); contradiction);
    try (destruct Hf as (Hf & _); contradiction);
    cbn [sectionLines app].
  - destruct Hb as (_ & Tb & Pb). destruct Hf as (_ & Tf & Kf).
    rewrite classify_from_third
      by (intros E; apply app_eq_nil in E; destruct E; discriminate).
    change (split LF (x :: bd) ++ [] :: split LF (y :: ft))
      with (split LF (x :: bd) ++ [[]] ++ split LF (y :: ft)).
    rewrite app_assoc, classify_body
      by (apply Forall_app; split; [assumption | now constructor]).
    rewrite classify_token by (try apply split_nonempty; assumption).
    cbn [fst snd]. rewrite app_nil_r, joined_lines_blank, joined_lines.
    rewrite trim_newline_after, Tf by (assumption || discriminate).
    destruct breaking; reflexivity.
  - destruct Hb as (_ & Tb & Pb).
    rewrite app_nil_r, classify_from_third by apply split_nonempty.
    rewrite classify_plain by assumption.
    rewrite joined_lines, Tb. destruct breaking; reflexivity.
  - destruct Hf as (_ & Tf & Kf).
    rewrite classify_from_third by apply split_nonempty.
    rewrite classify_token by (try apply split_nonempty; assumption).
    rewrite joined_lines, Tf. destruct breaking; reflexivity.
  - destruct breaking; reflexivity.
Qed.

Lemma conventional_round_trip_witness :
  roundTrips (js "feat") (Some (js "api")) (js "add login")
    (Some (js "First line" ++ nl ++ js "second line")) true
    (Some (js "Fixes #12" ++ nl ++ js "Reviewed-by: Z")).
Proof.
  apply conventional_round_trip.
  - discriminate.
  - reflexivity.
  - vm_compute. repeat split; try discriminate; intuition discriminate.
  - vm_compute. repeat split; discriminate.
  - vm_compute. repeat split; try discriminate; repeat constructor.
  - vm_compute. repeat split; discriminate.
Defined.

(** C3, as stated, fails: within the stated conditions a body line that
    begins with a word and a colon is read as the footer, a footer without
    such a token is read as body, white space before the description is
    lost, and an empty scope comes back undefined. *)
Lemma conventional_round_trip_fails :
  (claimedInputs (js "feat") None (js "add") /\
   ~ roundTrips (js "feat") None (js "add")
       (Some (js "Note: see below")) false None)
  /\ ~ roundTrips (js "feat") None (js "add")
         (Some (js "why")) false (Some (js "see the issue"))
  /\ (claimedInputs (js "feat") None (js " add") /\
      ~ roundTrips (js "feat") None (js " add") None false None)
  /\ (claimedInputs (js "feat") (Some []) (js "add") /\
      ~ roundTrips (js "feat") (Some []) (js "add") None false None).
Proof.
  unfold claimedInputs, free, roundTrips.
  repeat match goal with |- _ /\ _ => split end;
    try (intros H; vm_compute in H; discriminate H);
    try discriminate; try reflexivity; try exact I;
    try (vm_compute; intuition discriminate).
Qed.

(** ** The footer of a parsed message *)

(** Where the loop of the parser puts the lines: the body is the longest
    run of lines from the third on in which the footer pattern finds
    nothing, and the footer is every line after it. *)
Lemma classifyLines_split (ls bodyLines footerLines : list str) :
  classifyLines false ls = (bodyLines, footerLines) ->
  ls = bodyLines ++ footerLines /\
  Forall (fun line => test footerToken line = false) bodyLines /\
  (footerLines = [] \/ test footerToken (hd [] footerLines) = true).
Proof.
  revert bodyLines footerLines.
  induction ls as [|l ls IH]; intros bl fl; cbn [classifyLines].
  - intros [= <- <-]. auto.
  - destruct (test footerToken l) eqn:E.
    + rewrite classify_footer. intros [= <- <-]. auto.
    + destruct (classifyLines false ls) as [bl' fl'].
      intros [= <- <-]. destruct (IH bl' fl' eq_refl) as (-> & Hb & Hf).
      auto.
Qed.

(** C6 at a failing input. The footer pattern asks for a token of word
    characters and dashes, so it finds [Fixes #123] and nothing in
    [BREAKING CHANGE: ...]: the footer of the message that the unit test of
    the generator builds is parsed as its body. *)
Theorem breaking_change_footer_missed :
  test footerToken (js "Fixes #123") = true
  /\ test footerToken (js "BREAKING CHANGE: Response format has changed") = false
  /\ parseConventionalCommit
       (generateConventionalCommit (js "feat") None
          (js "change API response format") None (Some true)
          (Some (js "BREAKING CHANGE: Response format has changed")))
     = Some (mkParsed (js "feat") None true (js "change API response format")
               (Some (js "BREAKING CHANGE: Response format has changed"))
               None).
Proof. repeat split; vm_compute; reflexivity. Qed.

(** ** The sanitiser *)

(** On an input of Basic Latin characters every host sanitises as the host
    for Basic Latin does. *)
Lemma trim_basic (s : str) :
  forallb isBasicLatin s = true -> forallb isBasicLatin (trim s) = true.
Proof.
  intros A. destruct (trim_split s) as (w1 & w2 & E & _).
  rewrite E, !forallb_app in A.
  apply andb_true_iff in A. destruct A as [_ A].
  apply andb_true_iff in A. tauto.
Qed.

Lemma sanitizeBranchName_basic {builtins : Builtins} (s : str) :
  forallb isBasicLatin s = true ->
  sanitizeBranchName s = sanitizeBranchName (builtins := basicLatin) s.
Proof.
  intros A. unfold sanitizeBranchName.
  now rewrite (toLowerCase_basic _ (trim_basic s A)).
Qed.

Lemma validateBranchName_basic {builtins : Builtins}
    (name : str) (options : BranchValidationOptions) :
  forallb isBasicLatin name = true ->
  match merged maxLength DEFAULT_BRANCH_OPTIONS options with
  | Some limit => (Z.abs limit < 2 ^ 53)%Z
  | None => True
  end ->
  validateBranchName name options
  = validateBranchName (builtins := basicLatin) name options.
Proof.
  intros A M. unfold validateBranchName, limitText. cbv zeta.
  rewrite (toUpperCase_basic _ (trim_basic name A)).
  destruct (merged maxLength DEFAULT_BRANCH_OPTIONS options) as [limit|];
    [rewrite (numberToString_safe _ M)|]; reflexivity.
Qed.

(** C7 at a failing input. ["Feature Name"] becomes ["feature-name"], but
    [#] is not among the characters the sanitiser strips, so
    ["fix: bug #123"] becomes ["fix-bug-#123"]. *)
Theorem sanitizeBranchName_examples {builtins : Builtins} :
  sanitizeBranchName (js "Feature Name") = js "feature-name"
  /\ sanitizeBranchName (js "fix: bug #123") = js "fix-bug-#123"
  /\ sanitizeBranchName (js "fix: bug #123") <> js "fix-bug-123".
Proof.
  rewrite !(@sanitizeBranchName_basic builtins) by reflexivity.
  repeat split; vm_compute; [reflexivity .. | discriminate].
Qed.

(** ** The steps of the sanitiser as list functions *)

Section Replace.

Lemma replaceAll_step (r : regex) (repl : str) (i : nat) (s : str) :
  replaceAllFrom r repl (S (length s)) i s =
  match matchAt r i s with
  | Some y =>
      if (endIndex y =? i)%nat then
        repl ++ match s with
                | [] => []
                | ch :: tl => ch :: replaceAllFrom r repl (S (length tl)) (S i) tl
                end
      else repl ++ replaceAllFrom r repl (S (length (rest y))) (endIndex y) (rest y)
  | None =>
      match s with
      | [] => []
      | ch :: tl => ch :: replaceAllFrom r repl (S (length tl)) (S i) tl
      end
  end.
Proof.
  cbn [replaceAllFrom].
  destruct (matchAt r i s) as [y|] eqn:E; [|destruct s; reflexivity].
  destruct (endIndex y =? i)%nat eqn:Ei; [destruct s; reflexivity|].
  destruct (matchAt_consumes _ _ _ E) as [t [Ht It]].
  f_equal. apply replaceAllFrom_fuel with (n := length (rest y)); [lia|].
  rewrite Ht, length_app. apply Nat.eqb_neq in Ei. destruct t; cbn in *; lia.
Qed.

Variable p : cu -> bool.

Lemma matchAt_chars (i : nat) (s : str) :
  matchAt (Chars p) i s =
  match s with
  | x :: tl => if p x then Some (mkState (S i) tl []) else None
  | [] => None
  end.
Proof. destruct s; reflexivity. Qed.

(** [s.replace(/[p]/g, '')] deletes the characters of the class. *)
Lemma replaceAll_chars (s : str) :
  replaceAll (Chars p) [] s = filter (fun c => negb (p c)) s.
Proof.
  unfold replaceAll. generalize 0%nat as i.
  induction s as [|x tl IH]; intros i; rewrite replaceAll_step, matchAt_chars;
    [reflexivity|].
  cbn [filter]. destruct (p x); cbn [negb endIndex rest app].
  - replace (S i =? i)%nat with false by (symmetry; apply Nat.eqb_neq; lia).
    apply IH.
  - now rewrite IH.
Qed.

Lemma matchAt_plus (i : nat) (s : str) :
  matchAt (Plus (Chars p)) i s =
  match s with
  | x :: tl =>
      if p x then
        Some (mkState (i + (length s - length (dropWhile p tl)))
                (dropWhile p tl) [])
      else None
  | [] => None
  end.
Proof.
  destruct s as [|x tl]; [reflexivity|].
  destruct (p x) eqn:Ex.
  - destruct (dropWhile_split p tl) as [w [Hw Fw]].
    unfold matchAt.
    apply (@plus_chars_greedy p (x :: w) (dropWhile p tl));
      [cbn [app]; congruence | discriminate | cbn; now rewrite Ex
      | apply dropWhile_head |].
    assert (L : length tl = (length w + length (dropWhile p tl))%nat)
      by (rewrite Hw at 1; apply length_app).
    do 2 f_equal. cbn [length]. lia.
  - unfold matchAt, Plus. rewrite compile_seq, compile_chars_cons, Ex.
    reflexivity.
Qed.

Lemma dropWhile_shorter (s : str) : (length (dropWhile p s) <= length s)%nat.
Proof.
  destruct (dropWhile_split p s) as [w [Hw _]].
  assert (L : length s = (length w + length (dropWhile p s))%nat)
    by (rewrite Hw at 1; apply length_app).
  lia.
Qed.

Lemma collapse_in_run (c : cu) (s : str) :
  collapseRuns p c true s = collapseRuns p c false (dropWhile p s).
Proof.
  induction s as [|x tl IH]; cbn [collapseRuns dropWhile]; [reflexivity|].
  destruct (p x) eqn:Ex; [assumption|]. cbn [collapseRuns]. now rewrite Ex.
Qed.

Lemma replaceAllFrom_plus (c : cu) (n : nat) :
  forall s i, (length s <= n)%nat ->
  replaceAllFrom (Plus (Chars p)) [c] (S (length s)) i s
  = collapseRuns p c false s.
Proof.
  induction n as [|n IH]; intros s i Hn;
    rewrite replaceAll_step, matchAt_plus;
    (destruct s as [|x tl]; [reflexivity|]); [cbn in Hn; lia|].
  cbn [collapseRuns]. cbn [length] in Hn. destruct (p x) eqn:Ex.
  - cbn [endIndex rest].
    pose proof (dropWhile_shorter tl) as Hs. cbn [length].
    replace (i + (S (length tl) - length (dropWhile p tl)) =? i)%nat with false
      by (symmetry; apply Nat.eqb_neq; lia).
    cbn [app]. f_equal. rewrite collapse_in_run. apply IH. lia.
  - f_equal. apply IH. lia.
Qed.

(** [s.replace(/[p]+/g, c)] puts one [c] for every run of the class. *)
Lemma replaceAll_plus (c : cu) (s : str) :
  replaceAll (Plus (Chars p)) [c] s = collapseRuns p c false s.
Proof. apply (replaceAllFrom_plus c (n := length s)). lia. Qed.

Lemma execFrom_bol_later (r : regex) (s : str) :
  forall i, execFrom (Seq Bol r) (S i) s = None.
Proof.
  induction s as [|x tl IH]; intros i; cbn [execFrom]; unfold matchAt;
    rewrite compile_seq; cbn [compile endIndex Nat.eqb]; [reflexivity|].
  apply IH.
Qed.

(** [s.replace(/^[p]+/, '')] removes the leading run of the class. *)
Lemma replaceFirst_leading (s : str) :
  replaceFirst (Seq Bol (Plus (Chars p))) [] s = dropWhile p s.
Proof.
  unfold replaceFirst, exec.
  assert (E : matchAt (Seq Bol (Plus (Chars p))) 0 s
              = matchAt (Plus (Chars p)) 0 s) by reflexivity.
  destruct s as [|x tl]; cbn [execFrom]; rewrite E, matchAt_plus;
    [reflexivity|].
  cbn [dropWhile]. destruct (p x); [reflexivity|].
  now rewrite execFrom_bol_later.
Qed.

Lemma matchAt_trailing (i : nat) (s : str) :
  matchAt (Seq (Plus (Chars p)) Eol) i s =
  match s with
  | _ :: _ => if forallb p s then Some (mkState (i + length s) [] []) else None
  | [] => None
  end.
Proof.
  destruct s as [|x tl]; [reflexivity|].
  destruct (forallb p (x :: tl)) eqn:F.
  - unfold matchAt. rewrite compile_seq.
    apply (@plus_chars_greedy p (x :: tl) []);
      [symmetry; apply app_nil_r | discriminate | assumption | exact I
      | reflexivity].
  - destruct (matchAt (Seq (Plus (Chars p)) Eol) i (x :: tl)) as [y|] eqn:E;
      [|reflexivity].
    exfalso. assert (H : matchAt (Seq (Plus (Chars p)) Eol) i (x :: tl) <> None)
      by congruence.
    apply matchAt_iff in H. destruct H as [z M].
    apply Matches_seq_inv in M. destruct M as [m [M1 M2]].
    apply (proj1 (Lang_plus_chars p)) in M1.
    destruct M1 as [t [Ht [_ [_ Ft]]]].
    apply Matches_eol_inv in M2. destruct M2 as [Hm _].
    cbn [rest] in Ht. rewrite Hm, app_nil_r in Ht. congruence.
Qed.

(** [s.replace(/[p]+$/, '')] removes the final run of the class. *)
Lemma replaceFirst_trailing (s : str) :
  replaceFirst (Seq (Plus (Chars p)) Eol) [] s = stripEnd p s.
Proof.
  assert (H : forall s i,
    match execFrom (Seq (Plus (Chars p)) Eol) i s with
    | Some (j, y) =>
        firstn (j - i) s = stripEnd p s /\ rest y = [] /\ (i <= j)%nat
    | None => stripEnd p s = s
    end).
  { clear s. induction s as [|x tl IH]; intros i; cbn [execFrom];
      rewrite matchAt_trailing; [reflexivity|].
    cbn [stripEnd]. destruct (forallb p (x :: tl)).
    - rewrite Nat.sub_diag. auto.
    - specialize (IH (S i)).
      destruct (execFrom (Seq (Plus (Chars p)) Eol) (S i) tl) as [[j y]|].
      + destruct IH as (Hf & Hr & Hj).
        replace (j - i)%nat with (S (j - S i)) by lia. cbn [firstn].
        rewrite Hf. repeat split; [assumption | lia].
      + now rewrite IH. }
  unfold replaceFirst, exec. specialize (H s 0%nat).
  destruct (execFrom (Seq (Plus (Chars p)) Eol) 0 s) as [[j y]|];
    [|now symmetry].
  destruct H as (Hf & Hr & _). rewrite Nat.sub_0_r in Hf.
  now rewrite Hr, !app_nil_r.
Qed.

End Replace.

Section Squeeze.
Variable c : cu.

Lemma matchAt_atLeast2 (i : nat) (s : str) :
  matchAt (AtLeast2 (Chr c)) i s =
  match s with
  | x :: y :: tl =>
      if (c =? x)%N && (c =? y)%N then
        Some (mkState (S i + (length (y :: tl) - length (dropWhile (N.eqb c) tl)))
                (dropWhile (N.eqb c) tl) [])
      else None
  | _ => None
  end.
Proof.
  assert (E : forall x tl,
    matchAt (AtLeast2 (Chr c)) i (x :: tl) =
    if (c =? x)%N then matchAt (Plus (Chars (N.eqb c))) (S i) tl else None).
  { intros x tl. unfold matchAt, AtLeast2, Chr.
    rewrite compile_seq, compile_chars_cons. reflexivity. }
  destruct s as [|x [|y tl]]; [reflexivity | |]; rewrite E, matchAt_plus.
  - now destruct (c =? x)%N.
  - destruct (c =? x)%N, (c =? y)%N; reflexivity.
Qed.

Lemma squeeze_two (x y : cu) (tl : str) :
  squeeze c (x :: y :: tl) =
  if (x =? c)%N && (y =? c)%N then squeeze c (y :: tl)
  else x :: squeeze c (y :: tl).
Proof. reflexivity. Qed.

Lemma squeeze_one (x : cu) : squeeze c [x] = [x].
Proof. cbn [squeeze]. now rewrite andb_false_r. Qed.

Lemma squeeze_run (tl : str) :
  squeeze c (c :: tl) = c :: squeeze c (dropWhile (N.eqb c) tl).
Proof.
  induction tl as [|z tl IH]; [apply squeeze_one|].
  rewrite squeeze_two, N.eqb_refl, (N.eqb_sym z c). cbn [andb dropWhile].
  destruct (c =? z)%N eqn:Ez; [|reflexivity].
  apply N.eqb_eq in Ez. subst z. exact IH.
Qed.

Lemma replaceAllFrom_atLeast2 (n : nat) :
  forall s i, (length s <= n)%nat ->
  replaceAllFrom (AtLeast2 (Chr c)) [c] (S (length s)) i s = squeeze c s.
Proof.
  induction n as [|n IH]; intros s i Hn;
    rewrite replaceAll_step, matchAt_atLeast2;
    (destruct s as [|x tl]; [reflexivity|]); [cbn in Hn; lia|].
  cbn [length] in Hn. destruct tl as [|y tl].
  - rewrite IH by (cbn; lia). now rewrite squeeze_one.
  - rewrite squeeze_two, (N.eqb_sym x c), (N.eqb_sym y c).
    destruct ((c =? x)%N && (c =? y)%N) eqn:E.
    + apply andb_true_iff in E. destruct E as [Ex Ey].
      apply N.eqb_eq in Ex, Ey. subst x y.
      cbn [endIndex rest].
      pose proof (dropWhile_shorter (N.eqb c) tl) as Hs. cbn [length] in *.
      replace (S i + (S (length tl) - length (dropWhile (N.eqb c) tl)) =? i)%nat
        with false by (symmetry; apply Nat.eqb_neq; lia).
      rewrite IH by lia. cbn [app]. now rewrite squeeze_run.
    + now rewrite IH by (cbn [length] in *; lia).
Qed.

(** [s.replace(/c{2,}/g, c)] leaves one [c] of every run of two or more. *)
Lemma replaceAll_atLeast2 (s : str) :
  replaceAll (AtLeast2 (Chr c)) [c] s = squeeze c s.
Proof. apply (replaceAllFrom_atLeast2 (n := length s)). lia. Qed.

End Squeeze.

(** The sanitiser is its ten steps, each as a list function. *)
Lemma sanitizeBranchName_steps {builtins : Builtins} (name : str) :
  sanitizeBranchName name = firstn 250 (beforeTruncation name).
Proof.
  unfold sanitizeBranchName, beforeTruncation, substring0.
  unfold trailingSeparators, leadingSeparators, separators, slashRun, dotRun,
    special, underscoreRun, whitespaceRun, underscore, whitespace, OneOf.
  change [] with (@nil cu) at 1.
  rewrite replaceFirst_trailing, replaceFirst_leading.
  change (js "/") with [code "/"]. change (js ".") with [code "."].
  change (js "-") with [code "-"].
  rewrite !replaceAll_atLeast2, replaceAll_chars.
  unfold Chr. rewrite !replaceAll_plus. reflexivity.
Qed.

(** ** What the steps of the sanitiser establish and keep *)

Section StepFacts.
Variable p : cu -> bool.

Lemma collapse_members (c : cu) (s : str) :
  forall inRun x, In x (collapseRuns p c inRun s) ->
  x = c \/ (In x s /\ p x = false).
Proof.
  induction s as [|y tl IH]; intros inRun x; cbn [collapseRuns In]; [tauto|].
  destruct (p y) eqn:Ey; [destruct inRun|]; cbn [In]; intros H.
  - apply IH in H. tauto.
  - destruct H as [H|H]; [auto|]. apply IH in H. tauto.
  - destruct H as [H|H]; [subst; auto|]. apply IH in H. tauto.
Qed.

Lemma collapse_fixed (c : cu) (s : str) :
  (forall x, In x s -> p x = false) -> collapseRuns p c false s = s.
Proof.
  induction s as [|y tl IH]; intros H; cbn [collapseRuns]; [reflexivity|].
  rewrite (H y) by now left. f_equal. apply IH. intros x Hx. apply H. now right.
Qed.

Lemma filter_fixed (s : str) :
  (forall x, In x s -> p x = false) -> filter (fun c => negb (p c)) s = s.
Proof.
  induction s as [|y tl IH]; intros H; cbn [filter]; [reflexivity|].
  rewrite (H y) by now left. cbn [negb]. f_equal. apply IH.
  intros x Hx. apply H. now right.
Qed.

Lemma dropWhile_members (s : str) (x : cu) : In x (dropWhile p s) -> In x s.
Proof.
  destruct (dropWhile_split p s) as [w [Hw _]]. intros H.
  rewrite Hw. apply in_or_app. now right.
Qed.

(** [stripEnd] cuts a run of the class off the end, and the whole of it. *)
Lemma stripEnd_split (s : str) :
  exists w, s = stripEnd p s ++ w /\ forallb p w = true.
Proof.
  induction s as [|y tl IH]; cbn [stripEnd].
  - exists []. auto.
  - destruct (forallb p (y :: tl)) eqn:F.
    + exists (y :: tl). auto.
    + destruct IH as [w [Hw Fw]]. exists w. cbn [app]. split; congruence.
Qed.

Lemma stripEnd_members (s : str) (x : cu) : In x (stripEnd p s) -> In x s.
Proof.
  destruct (stripEnd_split s) as [w [Hw _]]. intros H.
  rewrite Hw. apply in_or_app. now left.
Qed.

Lemma stripEnd_last (s : str) : stopsAt p (rev (stripEnd p s)).
Proof.
  induction s as [|y tl IH]; cbn [stripEnd]; [exact I|].
  destruct (forallb p (y :: tl)) eqn:F; [exact I|].
  cbn [rev]. destruct (rev (stripEnd p tl)) as [|z r] eqn:E; [|exact IH].
  cbn [app stopsAt].
  assert (Hn : stripEnd p tl = []).
  { apply (f_equal (@rev cu)) in E. now rewrite rev_involutive in E. }
  destruct (stripEnd_split tl) as [w [Hw Fw]]. rewrite Hn in Hw. cbn in Hw.
  subst w. cbn in F. rewrite Fw, andb_true_r in F. exact F.
Qed.

Lemma stripEnd_fixed (s : str) : stopsAt p (rev s) -> stripEnd p s = s.
Proof.
  induction s as [|y tl IH]; intros H; cbn [stripEnd]; [reflexivity|].
  assert (F : forallb p (y :: tl) = false).
  { destruct (forallb p (y :: tl)) eqn:F; [|reflexivity].
    cbn [rev] in H. rewrite forallb_forall in F.
    destruct (rev tl) as [|z r] eqn:E; cbn [app stopsAt] in H.
    - rewrite <- H. symmetry. apply F. now left.
    - rewrite <- H. symmetry. apply F. right. apply in_rev. rewrite E.
      now left. }
  rewrite F. f_equal. apply IH.
  cbn [rev] in H. destruct (rev tl) as [|z r]; [exact I | exact H].
Qed.

End StepFacts.

Section PairFacts.
Variable c : cu.

Lemma squeeze_members (s : str) (x : cu) : In x (squeeze c s) -> In x s.
Proof.
  induction s as [|y tl IH]; cbn [squeeze In]; [tauto|].
  destruct ((y =? c)%N && _); cbn [In]; intuition.
Qed.

Lemma squeeze_head (tl : str) :
  forall x, exists r, squeeze c (x :: tl) = x :: r.
Proof.
  induction tl as [|y tl IH]; intros x; [exists []; apply squeeze_one|].
  rewrite squeeze_two. destruct ((x =? c)%N && (y =? c)%N) eqn:E; [|eauto].
  apply andb_true_iff in E. destruct E as [Ex Ey].
  apply N.eqb_eq in Ex, Ey. subst x y. apply IH.
Qed.

Lemma noPair_cons (d x : cu) (s : str) :
  noPair d (x :: s) =
  negb ((x =? d)%N && match s with y :: _ => (y =? d)%N | [] => false end)
  && noPair d s.
Proof. reflexivity. Qed.

Lemma squeeze_noPair (s : str) : noPair c (squeeze c s) = true.
Proof.
  induction s as [|x tl IH]; [reflexivity|].
  destruct tl as [|y tl]; [rewrite squeeze_one; cbn; now rewrite andb_false_r|].
  rewrite squeeze_two. destruct ((x =? c)%N && (y =? c)%N) eqn:E; [exact IH|].
  rewrite noPair_cons, IH, andb_true_r.
  destruct (squeeze_head tl y) as [r ->]. now rewrite E.
Qed.

Lemma squeeze_keeps_noPair (d : cu) (s : str) :
  noPair d s = true -> noPair d (squeeze c s) = true.
Proof.
  induction s as [|x tl IH]; [reflexivity|].
  rewrite noPair_cons, andb_true_iff. intros [Hx Ht].
  destruct tl as [|y tl]; [rewrite squeeze_one; cbn; now rewrite andb_false_r|].
  rewrite squeeze_two. destruct ((x =? c)%N && (y =? c)%N) eqn:E;
    [now apply IH|].
  rewrite noPair_cons, (IH Ht), andb_true_r.
  destruct (squeeze_head tl y) as [r ->]. exact Hx.
Qed.

Lemma squeeze_fixed (s : str) : noPair c s = true -> squeeze c s = s.
Proof.
  induction s as [|x tl IH]; [reflexivity|].
  rewrite noPair_cons, andb_true_iff, negb_true_iff. intros [Hx Ht].
  cbn [squeeze]. rewrite Hx. f_equal. now apply IH.
Qed.

Lemma noPair_app (a b : str) :
  noPair c (a ++ b) = true -> noPair c a = true /\ noPair c b = true.
Proof.
  induction a as [|x a IH]; cbn [app]; [auto|].
  rewrite !noPair_cons, !andb_true_iff, !negb_true_iff.
  intros [Hx Ht]. destruct (IH Ht) as [Ha Hb]. repeat split; auto.
  destruct a as [|y a]; [apply andb_false_r | exact Hx].
Qed.

End PairFacts.

Section Tests.

Lemma test_chars (p : cu -> bool) (s : str) : test (Chars p) s = existsb p s.
Proof.
  unfold test, exec. generalize 0%nat as i.
  induction s as [|x tl IH]; intros i; cbn [execFrom existsb];
    rewrite matchAt_chars; [reflexivity|].
  destruct (p x); [reflexivity | apply IH].
Qed.

Lemma test_pair (c : cu) (s : str) : test (Lit [c; c]) s = negb (noPair c s).
Proof.
  assert (E : forall i s,
    matchAt (Lit [c; c]) i s =
    match s with
    | x :: y :: tl =>
        if (c =? x)%N && (c =? y)%N then Some (mkState (S (S i)) tl []) else None
    | _ => None
    end).
  { intros i [|x [|y tl]]; [reflexivity | |]; unfold matchAt; cbn;
      destruct (c =? x)%N; try reflexivity; destruct (c =? y)%N; reflexivity. }
  unfold test, exec. generalize 0%nat as i.
  induction s as [|x tl IH]; intros i; cbn [execFrom]; rewrite E;
    [reflexivity|].
  rewrite noPair_cons, (N.eqb_sym x c). destruct tl as [|y tl].
  - rewrite andb_false_r. apply IH.
  - rewrite (N.eqb_sym y c).
    destruct ((c =? x)%N && (c =? y)%N); [reflexivity|]. apply IH.
Qed.

End Tests.

Section CleanNames.
Context {builtins : Builtins}.

Lemma lowerCU_idem (x : cu) : lowerCU (lowerCU x) = lowerCU x.
Proof.
  unfold lowerCU, isUpper, between.
  destruct ((65 <=? x)%N && (x <=? 90)%N) eqn:E; [|now rewrite E].
  apply andb_true_iff in E. destruct E as [E1 E2].
  apply N.leb_le in E1, E2.
  replace (x + 32 <=? 90)%N with false by (symmetry; apply N.leb_gt; lia).
  now rewrite andb_false_r.
Qed.

Lemma firstn_members (n : nat) (s : str) (x : cu) : In x (firstn n s) -> In x s.
Proof.
  intros H. rewrite <- (firstn_skipn n s). apply in_or_app. now left.
Qed.

Lemma prefix_stops (q : cu -> bool) (a b : str) :
  stopsAt q (a ++ b) -> a <> [] -> stopsAt q a.
Proof. destruct a; [contradiction | intros H _; exact H]. Qed.

Lemma beforeTruncation_clean (name : str) :
  Clean (beforeTruncation name) /\
  stopsAt isSeparator (rev (beforeTruncation name)).
Proof.
  unfold beforeTruncation.
  set (t0 := toLowerCase (trim name)).
  set (t1 := collapseRuns isWhiteSpace (code "-") false t0).
  set (t2 := collapseRuns isUnderscore (code "-") false t1).
  set (t3 := filter (fun c => negb (isSpecial c)) t2).
  set (t4 := squeeze (code ".") t3).
  set (t5 := squeeze (code "/") t4).
  set (t6 := dropWhile isSeparator t5).
  set (t7 := stripEnd isSeparator t6).
  assert (M0 : forall x, In x t0 -> lowerCU x = x).
  { intros x Hx. apply toLowerCase_lower in Hx.
    unfold lowerCU. now rewrite Hx. }
  assert (M1 : forall x, In x t1 -> isWhiteSpace x = false /\ lowerCU x = x).
  { intros x Hx. apply collapse_members in Hx.
    destruct Hx as [->|[Hx Hw]]; [split; reflexivity | auto]. }
  assert (M2 : forall x, In x t2 ->
            isWhiteSpace x = false /\ isUnderscore x = false /\ lowerCU x = x).
  { intros x Hx. apply collapse_members in Hx.
    destruct Hx as [->|[Hx Hu]]; [repeat split|].
    destruct (M1 x Hx). auto. }
  assert (M3 : forall x, In x t3 ->
            isWhiteSpace x = false /\ isUnderscore x = false /\
            isSpecial x = false /\ lowerCU x = x).
  { intros x Hx. apply filter_In in Hx. destruct Hx as [Hx Hs].
    apply negb_true_iff in Hs. destruct (M2 x Hx) as (? & ? & ?). auto. }
  destruct (dropWhile_split isSeparator t5) as [w5 [H5 _]]. fold t6 in H5.
  destruct (stripEnd_split isSeparator t6) as [w6 [H6 _]]. fold t7 in H6.
  assert (D5 : noPair (code ".") t5 = true)
    by apply squeeze_keeps_noPair, squeeze_noPair.
  assert (S5 : noPair (code "/") t5 = true) by apply squeeze_noPair.
  rewrite H5 in D5, S5. apply noPair_app in D5, S5.
  destruct D5 as [_ D6]. destruct S5 as [_ S6].
  rewrite H6 in D6, S6. apply noPair_app in D6, S6.
  split; [|apply stripEnd_last]. split; [|split; [tauto | split; [tauto|]]].
  - intros x Hx. apply M3.
    apply (squeeze_members (code ".")), (squeeze_members (code "/")).
    apply (dropWhile_members isSeparator), (stripEnd_members isSeparator).
    exact Hx.
  - pose proof (dropWhile_head isSeparator t5) as Hh. fold t6 in Hh.
    destruct t7 as [|x t7'] eqn:E; [exact I|].
    rewrite H6 in Hh. exact Hh.
Qed.

Lemma firstn_clean (n : nat) (t : str) : Clean t -> Clean (firstn n t).
Proof.
  intros (M & D & S & H).
  rewrite <- (firstn_skipn n t) in D, S. apply noPair_app in D, S.
  split; [|split; [tauto | split; [tauto|]]].
  - intros x Hx. apply M. now apply firstn_members in Hx.
  - destruct n; [exact I|]. destruct t; [exact I | exact H].
Qed.

Lemma sanitized_clean (name : str) :
  Clean (sanitizeBranchName name) /\ (length (sanitizeBranchName name) <= 250)%nat.
Proof.
  rewrite sanitizeBranchName_steps. split.
  - apply firstn_clean, beforeTruncation_clean.
  - apply firstn_le_length.
Qed.

Lemma clean_trimmed (t : str) : Clean t -> trim t = t.
Proof.
  intros (M & _). apply trimmed_fixed. split.
  - destruct t as [|x t]; [exact I|]. apply M. now left.
  - destruct (rev t) as [|x r] eqn:E; [exact I|]. apply M.
    apply in_rev. rewrite E. now left.
Qed.

(** On a clean name that [toLowerCase] leaves as it is and that does not
    end with a separator, every step before the truncation is the
    identity. *)
Lemma clean_fixed (t : str) :
  Clean t -> toLowerCase t = t -> stopsAt isSeparator (rev t) ->
  beforeTruncation t = t.
Proof.
  intros C E0 L. pose proof (clean_trimmed C) as T.
  destruct C as (M & D & S & H). unfold beforeTruncation. rewrite T.
  rewrite E0.
  rewrite (collapse_fixed isWhiteSpace) by (intros x Hx; now apply M).
  rewrite (collapse_fixed isUnderscore) by (intros x Hx; now apply M).
  rewrite (filter_fixed isSpecial) by (intros x Hx; now apply M).
  rewrite (squeeze_fixed (code ".") t D), (squeeze_fixed (code "/") t S).
  rewrite (dropWhile_fixed isSeparator t H).
  now apply stripEnd_fixed.
Qed.

End CleanNames.

(** ** The sanitiser against the validator *)

Section SanitisedNames.
Context {builtins : Builtins}.

Lemma existsb_none (p : cu -> bool) (s : str) :
  (forall x, In x s -> p x = false) -> existsb p s = false.
Proof.
  induction s as [|y tl IH]; intros H; cbn [existsb]; [reflexivity|].
  rewrite (H y) by now left. apply IH. intros x Hx. apply H. now right.
Qed.

Lemma separator_not_first (t : str) (c : cu) :
  stopsAt isSeparator t -> isSeparator c = true -> startsWith t [c] = false.
Proof.
  destruct t as [|x t]; [reflexivity|]. cbn [stopsAt startsWith].
  intros Hx Hc. destruct (N.eqb_spec c x) as [->|_]; [congruence | reflexivity].
Qed.

(** A sanitised name that [toLowerCase] leaves as it is and that does not
    end with a separator is sanitised to itself. *)
Lemma sanitizeBranchName_fixed (name : str) :
  toLowerCase (sanitizeBranchName name) = sanitizeBranchName name ->
  stopsAt isSeparator (rev (sanitizeBranchName name)) ->
  sanitizeBranchName (sanitizeBranchName name) = sanitizeBranchName name.
Proof.
  intros E L. destruct (sanitized_clean name) as [C Hl].
  rewrite sanitizeBranchName_steps at 1. rewrite (clean_fixed C E L).
  now apply firstn_all2.
Qed.

(** A name that the cut at 250 characters does not touch ends with no
    separator once sanitised. *)
Lemma uncut_ends_clean (name : str) :
  (length (beforeTruncation name) <= 250)%nat ->
  stopsAt isSeparator (rev (sanitizeBranchName name)).
Proof.
  intros Hl. rewrite sanitizeBranchName_steps, firstn_all2 by assumption.
  apply beforeTruncation_clean.
Qed.

Lemma sanitized_passes (name : str) :
  let t := sanitizeBranchName name in
  t <> [] ->
  arrayIncludes
    (map js ["HEAD"; "FETCH_HEAD"; "ORIG_HEAD"; "MERGE_HEAD";
             "CHERRY_PICK_HEAD"]%string) (toUpperCase t) = false ->
  endsWith t (js ".lock") = false ->
  endsWith t (js ".") = false -> endsWith t (js "/") = false ->
  test controlChars t = false ->
  valid (validateBranchName t noBranchOptions) = true /\
  error (validateBranchName t noBranchOptions) = None.
Proof.
  intros t Hn Hr Hk Hd Hs Hc.
  destruct (sanitized_clean name) as [C Hl]. fold t in C, Hl.
  pose proof (clean_trimmed C) as T. destruct C as (M & D & S & H).
  unfold validateBranchName. cbv zeta.
  rewrite isBlank_length, T.
  replace (length t =? 0)%nat with false
    by (symmetry; apply Nat.eqb_neq; destruct t; [contradiction | discriminate]).
  change (merged maxLength DEFAULT_BRANCH_OPTIONS noBranchOptions)
    with (Some 250%Z).
  unfold exceeds. cbn [truthyNum Z.eqb negb andb].
  replace (Z.of_nat (length t) >? 250)%Z with false
    by (symmetry; rewrite Z.gtb_ltb; apply Z.ltb_ge; lia).
  change (merged reservedNames DEFAULT_BRANCH_OPTIONS noBranchOptions)
    with (Some (map js ["HEAD"; "FETCH_HEAD"; "ORIG_HEAD"; "MERGE_HEAD";
                        "CHERRY_PICK_HEAD"]%string)).
  change (merged allowSlash DEFAULT_BRANCH_OPTIONS noBranchOptions)
    with (Some true).
  change (merged enforcePrefix DEFAULT_BRANCH_OPTIONS noBranchOptions)
    with (@None (list str)).
  change (merged pattern DEFAULT_BRANCH_OPTIONS noBranchOptions)
    with (@None (str -> bool)).
  cbn [truthyBool negb andb]. cbv beta iota. rewrite Hr.
  change (js ".") with [code "."] in *. change (js "-") with [code "-"].
  rewrite !(@separator_not_first t _ H) by reflexivity.
  rewrite Hd, Hk, Hs, Hc.
  change consecutiveDots with (Lit [code "."; code "."]).
  change consecutiveSlashes with (Lit [code "/"; code "/"]).
  rewrite !test_pair, D, S. cbn [negb].
  unfold whitespace, special, OneOf. rewrite !test_chars.
  rewrite (existsb_none isWhiteSpace) by (intros x Hx; now apply M).
  rewrite (existsb_none (fun c => mem c specialChars))
    by (intros x Hx; now apply M).
  split; reflexivity.
Qed.

End SanitisedNames.

(** C1, as the code has it. For every input [s], if [sanitizeBranchName s]
    is not empty, is not a reserved name in any letter case, does not end
    with [.lock], with a dot or with a slash, and holds no control
    character, then [validateBranchName] with the default options accepts
    it. *)
Theorem sanitized_name_accepted {builtins : Builtins} (s : str) :
  sanitizeBranchName s <> [] ->
  arrayIncludes
    (map js ["HEAD"; "FETCH_HEAD"; "ORIG_HEAD"; "MERGE_HEAD";
             "CHERRY_PICK_HEAD"]%string)
    (toUpperCase (sanitizeBranchName s)) = false ->
  endsWith (sanitizeBranchName s) (js ".lock") = false ->
  endsWith (sanitizeBranchName s) (js ".") = false ->
  endsWith (sanitizeBranchName s) (js "/") = false ->
  test controlChars (sanitizeBranchName s) = false ->
  valid (validateBranchName (sanitizeBranchName s) noBranchOptions) = true.
Proof. intros. now apply sanitized_passes. Qed.

Lemma sanitized_name_accepted_witness :
  valid (validateBranchName (sanitizeBranchName (js "  Fix: login_page  v2.."))
           noBranchOptions) = true.
Proof.
  apply sanitized_name_accepted; vm_compute; (discriminate || reflexivity).
Defined.

(** C1, as stated, fails. The sanitiser returns a non-empty name that the
    validator rejects under the default options when the input ends in
    [.lock], is a reserved name in any letter case, holds a control
    character, or is cut at 250 characters just after a dot. *)
Lemma sanitized_name_rejected :
  (sanitizeBranchName (js "Release.lock") = js "release.lock"
   /\ error (validateBranchName (js "release.lock") noBranchOptions)
      = Some (js "Branch name cannot end with .lock"))
  /\ (sanitizeBranchName (js "HEAD") = js "head"
      /\ valid (validateBranchName (js "head") noBranchOptions) = false)
  /\ (sanitizeBranchName (js "a" ++ [7%N] ++ js "b") = js "a" ++ [7%N] ++ js "b"
      /\ error (validateBranchName (js "a" ++ [7%N] ++ js "b") noBranchOptions)
         = Some (js "Branch name cannot contain control characters"))
  /\ (sanitizeBranchName (repeat (code "a") 249 ++ js ".b")
      = repeat (code "a") 249 ++ js "."
      /\ error (validateBranchName (repeat (code "a") 249 ++ js ".")
                  noBranchOptions)
         = Some (js "Branch name cannot end with a dot")).
Proof. repeat split; vm_compute; reflexivity. Qed.

(** A sanitised name of Basic Latin characters is in lower case already. *)
Lemma sanitized_basic {builtins : Builtins} (s : str) :
  forallb isBasicLatin s = true ->
  toLowerCase (sanitizeBranchName s) = sanitizeBranchName s.
Proof.
  intros A. destruct (sanitized_clean s) as [(M & _) _].
  pose proof (trim_basic s A) as T.
  assert (L : forallb isBasicLatin (sanitizeBranchName s) = true).
  { apply forallb_forall. intros x Hx.
    rewrite sanitizeBranchName_steps in Hx. apply firstn_members in Hx.
    unfold beforeTruncation in Hx.
    apply (stripEnd_members isSeparator), (dropWhile_members isSeparator),
      (squeeze_members (code "/")), (squeeze_members (code ".")) in Hx.
    apply filter_In in Hx. destruct Hx as [Hx _].
    apply collapse_members in Hx. destruct Hx as [-> | [Hx _]]; [reflexivity|].
    apply collapse_members in Hx. destruct Hx as [-> | [Hx _]]; [reflexivity|].
    rewrite (toLowerCase_basic _ T) in Hx. apply in_map_iff in Hx.
    destruct Hx as (y & <- & Hy).
    rewrite forallb_forall in T. specialize (T y Hy).
    unfold isBasicLatin, lowerCU, isUpper, between in *.
    apply N.ltb_lt in T. apply N.ltb_lt.
    destruct ((65 <=? y)%N && (y <=? 90)%N) eqn:U; [|exact T].
    rewrite andb_true_iff, !N.leb_le in U. lia. }
  rewrite (toLowerCase_basic _ L). rewrite <- (map_id (sanitizeBranchName s)) at 2.
  apply map_ext_in. intros x Hx. now apply M.
Qed.

(** C4, as the code has it. For every input [s] whose sanitised form does
    not end with a dash, a dot or a slash, and is left as it is by
    [toLowerCase], sanitising twice is sanitising once. The first
    condition holds whenever the steps before the cut at 250 characters
    leave at most 250 characters, the second for every input of Basic Latin
    characters. *)
Theorem sanitizeBranchName_idempotent_unless_cut {builtins : Builtins} (s : str) :
  stopsAt isSeparator (rev (sanitizeBranchName s))
  \/ (length (beforeTruncation s) <= 250)%nat ->
  toLowerCase (sanitizeBranchName s) = sanitizeBranchName s
  \/ forallb isBasicLatin s = true ->
  sanitizeBranchName (sanitizeBranchName s) = sanitizeBranchName s.
Proof.
  intros H L. apply sanitizeBranchName_fixed.
  - destruct L as [L|L]; [exact L | now apply sanitized_basic].
  - destruct H as [H|H]; [assumption | now apply uncut_ends_clean].
Qed.

Lemma sanitizeBranchName_idempotent_unless_cut_witness :
  sanitizeBranchName (sanitizeBranchName (js "  Fix: login_page  v2.."))
  = sanitizeBranchName (js "  Fix: login_page  v2..").
Proof.
  apply sanitizeBranchName_idempotent_unless_cut.
  - right. vm_compute. lia.
  - left. vm_compute. reflexivity.
Defined.

(** C4, as stated, fails on two counts. A name of 251 characters whose
    250th is a dash is cut just after the dash; sanitised again, it loses
    the dash. And on a host that knows the Deseret letters, the two halves
    of the capital letter U+10400 with a tilde between them are sanitised
    to the capital letter, which has no separator at its end, and that to
    the small letter U+10428. *)
Lemma sanitizeBranchName_not_idempotent :
  (sanitizeBranchName (repeat (code "a") 249 ++ js "-b")
   = repeat (code "a") 249 ++ js "-"
   /\ sanitizeBranchName (repeat (code "a") 249 ++ js "-")
      = repeat (code "a") 249
   /\ sanitizeBranchName (sanitizeBranchName (repeat (code "a") 249 ++ js "-b"))
      <> sanitizeBranchName (repeat (code "a") 249 ++ js "-b"))
  /\ (sanitizeBranchName (builtins := deseret) [55297; code "~"; 56320]%N
      = [55297; 56320]%N
      /\ sanitizeBranchName (builtins := deseret) [55297; 56320]%N
         = [55297; 56360]%N
      /\ stopsAt isSeparator (rev [55297; 56320]%N)).
Proof.
  repeat match goal with |- _ /\ _ => split end;
    vm_compute; (reflexivity || discriminate).
Qed.


(** ** The order of the checks *)

Section RuleChecks.
Context {builtins : Builtins}.

Lemma trim_nil_iff (s : str) : trim s = [] <-> forallb isWhiteSpace s = true.
Proof.
  split.
  - intros E. destruct (trim_split s) as (w1 & w2 & Hs & H1 & H2).
    rewrite E in Hs. rewrite Hs, !forallb_app, H1, H2. reflexivity.
  - intros H. unfold trim, trimStart, trimEnd.
    assert (D : forall t, forallb isWhiteSpace t = true -> dropWhile isWhiteSpace t = []).
    { induction t as [|c t IH]; [reflexivity|]. cbn [forallb dropWhile].
      intros X. apply andb_true_iff in X. destruct X as [-> X]. auto. }
    rewrite (D _ H). reflexivity.
Qed.

(** The checks of [validateBranchName] as conditions on the characters of
    the name. *)
Lemma blank_check (s : str) : forallb isWhiteSpace s = isBlank s.
Proof.
  destruct (isBlank s) eqn:B.
  - now apply trim_nil_iff, trim_nil_blank.
  - destruct (forallb isWhiteSpace s) eqn:F; [|reflexivity].
    apply trim_nil_iff, trim_nil_blank in F. congruence.
Qed.

Lemma limit_check (len : nat) (limit : option Z) :
  match limit with
  | Some m => negb (m =? 0)%Z && (m <? Z.of_nat len)%Z
  | None => false
  end = exceeds len limit.
Proof.
  destruct limit as [m|]; [|reflexivity].
  unfold exceeds, truthyNum. now rewrite Z.gtb_ltb.
Qed.

Lemma pair_check (c : cu) (s : str) : includes s [c; c] = test (Lit [c; c]) s.
Proof.
  rewrite test_pair. induction s as [|x tl IH]; [reflexivity|].
  rewrite noPair_cons, negb_andb, negb_involutive, <- IH.
  cbn [includes startsWith]. rewrite (N.eqb_sym c x).
  destruct tl as [|y tl]; [now rewrite !andb_false_r|].
  cbn [startsWith]. now rewrite andb_true_r, (N.eqb_sym c y).
Qed.

Lemma existsb_same (p q : cu -> bool) (s : str) :
  (forall c, p c = q c) -> existsb p s = existsb q s.
Proof.
  intros H. induction s as [|x tl IH]; [reflexivity|].
  cbn [existsb]. now rewrite H, IH.
Qed.

Lemma control_check (s : str) :
  existsb (fun c => (c <=? 31)%N || (c =? 127)%N) s = test controlChars s.
Proof.
  unfold controlChars. rewrite test_chars. apply existsb_same.
  intros c. unfold between. now destruct c.
Qed.

Lemma slash_check (allow : option bool) (b : bool) :
  match allow with Some true => false | _ => b end
  = negb (truthyBool allow) && b.
Proof. now destruct allow as [[|]|]. Qed.

(** The table of rules, each entry as [validateBranchName] tests it. *)
Lemma violates_checks (options : BranchValidationOptions) (name : str)
    (r : BranchRule) :
  violates options name r =
  match r with
  | RuleEmpty => isBlank name
  | RuleMaxLength =>
      exceeds (length (trim name))
        (merged maxLength DEFAULT_BRANCH_OPTIONS options)
  | RuleReserved =>
      match merged reservedNames DEFAULT_BRANCH_OPTIONS options with
      | Some l => arrayIncludes l (toUpperCase (trim name))
      | None => false
      end
  | RuleLeadingDot => startsWith (trim name) (js ".")
  | RuleTrailingDot => endsWith (trim name) (js ".")
  | RuleLockSuffix => endsWith (trim name) (js ".lock")
  | RuleConsecutiveDots => test consecutiveDots (trim name)
  | RuleLeadingDash => startsWith (trim name) (js "-")
  | RuleTrailingSlash => endsWith (trim name) (js "/")
  | RuleConsecutiveSlashes => test consecutiveSlashes (trim name)
  | RuleWhitespace => test whitespace (trim name)
  | RuleControl => test controlChars (trim name)
  | RuleSpecial => test special (trim name)
  | RuleAllowSlash =>
      negb (truthyBool (merged allowSlash DEFAULT_BRANCH_OPTIONS options))
      && includes (trim name) (js "/")
  | RuleEnforcePrefix =>
      match merged enforcePrefix DEFAULT_BRANCH_OPTIONS options with
      | Some (p :: ps) =>
          negb (existsb (fun prefix => startsWith (trim name) (prefix ++ js "/"))
                  (p :: ps))
      | _ => false
      end
  | RulePattern =>
      match merged pattern DEFAULT_BRANCH_OPTIONS options with
      | Some p => negb (p (trim name))
      | None => false
      end
  end.
Proof.
  destruct r; cbn [violates claimedViolates]; try reflexivity.
  - apply blank_check.
  - apply limit_check.
  - apply (pair_check (code ".")).
  - apply (pair_check (code "/")).
  - unfold whitespace. now rewrite test_chars.
  - apply control_check.
  - unfold special, OneOf. now rewrite test_chars.
  - apply slash_check.
Qed.





End RuleChecks.




(** * Further properties of the code

    Properties of [GitValidation] besides those the specification states,
    of its callers [BranchProtectionManager] and [CommitTemplateManager],
    and of [ErrorHandlerService]. *)

Import Behaviour.

(** ** The validators and the commit grammar *)

Lemma valid_iff_no_violation {builtins : Builtins}
    (name : str) (options : BranchValidationOptions) :
  valid (validateBranchName name options) = true <->
  firstViolation options name = None.
Proof.
  unfold firstViolation, checkOrder, validateBranchName.
  cbn [find]. rewrite !violates_checks. cbv beta iota.
  repeat match goal with
  | |- context [find _ _] => fail 1
  | |- context [if ?b then reject _ else _] =>
      destruct b eqn:?; [cbn [valid reject]; split; discriminate|]
  end.
  destruct (merged enforcePrefix DEFAULT_BRANCH_OPTIONS options)
    as [[|p ps]|] eqn:E;
    try match goal with
        | |- context [existsb ?f ?l] => destruct (existsb f l)
        end;
    cbn [negb valid rejectWith]; try (split; discriminate);
    destruct (merged pattern DEFAULT_BRANCH_OPTIONS options) as [q|];
    try destruct (q (trim name)); cbn [negb valid reject acceptWith];
    split; try discriminate; reflexivity.
Qed.

(** X1. [validateTagName], [validateRemoteName], [validateRemoteUrl],
    [validateStashMessage] and [validateFilePath] see their argument only
    through [trim]: a string and its trimmed form get the same result. *)
Theorem validators_trim_invariant {builtins : Builtins} (s : str) :
  validateTagName s = validateTagName (trim s) /\
  validateRemoteName s = validateRemoteName (trim s) /\
  validateRemoteUrl s = validateRemoteUrl (trim s) /\
  validateStashMessage s = validateStashMessage (trim s) /\
  validateFilePath s = validateFilePath (trim s).
Proof.
  unfold validateTagName, validateRemoteName, validateRemoteUrl,
    validateStashMessage, validateFilePath.
  rewrite !isBlank_trim, !trim_idem. repeat split.
Qed.

Lemma str_eqb_eq (a b : str) : str_eqb a b = true <-> a = b.
Proof.
  revert b. induction a as [|x a IH]; intros [|y b]; cbn [str_eqb];
    try (split; [discriminate | congruence]); [tauto|].
  rewrite andb_true_iff, N.eqb_eq, IH. split; [intros [-> ->] | intros [= -> ->]]; auto.
Qed.

Lemma arrayIncludes_In (l : list str) (x : str) :
  arrayIncludes l x = true <-> In x l.
Proof.
  unfold arrayIncludes. rewrite existsb_exists. split.
  - intros (y & Hy & E). apply str_eqb_eq in E. now subst.
  - intros H. exists x. split; [assumption | now apply str_eqb_eq].
Qed.

Lemma existsb_false_iff (p : cu -> bool) (s : str) :
  existsb p s = false <-> forall c, In c s -> p c = false.
Proof.
  induction s as [|x tl IH]; cbn [existsb In]; [tauto|].
  rewrite orb_false_iff, IH. split.
  - intros [H1 H2] c [<-|Hc]; auto.
  - intros H. split; [apply H; now left | intros c Hc; apply H; now right].
Qed.

Lemma isBlank_false (s : str) : isBlank s = false <-> trim s <> [].
Proof.
  pose proof (trim_nil_blank s) as H. destruct (isBlank s).
  - split; [intros X; discriminate X | intros N; exfalso; apply N, H; reflexivity].
  - split; [intros _ E; apply H in E; discriminate | reflexivity].
Qed.

(** X2. [validateTagName] accepts a name exactly when the trimmed name is
    not empty, holds no white space and none of the characters [~ ^ : ? * [
    ] @ { \ ], and does not start with a dash. *)
Theorem validateTagName_accepts (s : str) :
  valid (validateTagName s) = true <->
  trim s <> [] /\
  (forall c, In c (trim s) -> isWhiteSpace c = false /\ isSpecial c = false) /\
  startsWith (trim s) (js "-") = false.
Proof.
  unfold validateTagName, whitespace, special, OneOf.
  rewrite !test_chars.
  destruct (isBlank s) eqn:B.
  { apply trim_nil_blank in B. cbn [valid reject].
    split; [intros X; discriminate X | intros [N _]; contradiction]. }
  apply isBlank_false in B.
  destruct (existsb isWhiteSpace (trim s)) eqn:W.
  { cbn [valid reject]. split; [intros X; discriminate X|]. intros (_ & H & _).
    apply existsb_exists in W. destruct W as (c & Hc & Wc).
    destruct (H c Hc) as [E _]. congruence. }
  destruct (existsb (fun c => mem c specialChars) (trim s)) eqn:P.
  { cbn [valid reject]. split; [intros X; discriminate X|]. intros (_ & H & _).
    apply existsb_exists in P. destruct P as (c & Hc & Pc).
    destruct (H c Hc) as [_ E]. unfold isSpecial in E. congruence. }
  rewrite existsb_false_iff in W, P.
  destruct (startsWith (trim s) (js "-")) eqn:D.
  { cbn [valid reject].
    split; [intros X; discriminate X | intros (_ & _ & E); discriminate]. }
  assert (V : valid (if negb (test semverPattern (trim s))
                     then acceptSuggesting [js "Consider using semantic versioning format: v1.0.0"]
                     else accept) = true)
    by (destruct (test semverPattern (trim s)); reflexivity).
  rewrite V. split; [|reflexivity]. intros _.
  split; [assumption|]. split; [|reflexivity].
  intros c Hc. split; [now apply W | now apply P].
Qed.

(** X3. Every name [validateBranchName] accepts, under any options, is a
    name [validateTagName] accepts: the rules for tags are among the rules
    for branches. *)
Theorem branch_name_is_tag_name {builtins : Builtins}
    (s : str) (options : BranchValidationOptions) :
  valid (validateBranchName s options) = true ->
  valid (validateTagName s) = true.
Proof.
  intros V. apply valid_iff_no_violation in V.
  unfold firstViolation in V.
  assert (F : forall r, violates options s r = false).
  { intros r. apply (find_none _ _ V). unfold checkOrder.
    destruct r; cbn [In]; tauto. }
  pose proof (F RuleEmpty) as B. pose proof (F RuleWhitespace) as W.
  pose proof (F RuleSpecial) as P. pose proof (F RuleLeadingDash) as D.
  rewrite violates_checks in B, W, P, D. cbv beta iota in B, W, P, D.
  unfold validateTagName. rewrite B, W, P, D.
  destruct (test semverPattern (trim s)); reflexivity.
Qed.

Lemma branch_name_is_tag_name_witness :
  valid (validateBranchName (js " release/v1.2 ") noBranchOptions) = true /\
  valid (validateTagName (js " release/v1.2 ")) = true.
Proof.
  assert (H : valid (validateBranchName (js " release/v1.2 ") noBranchOptions) = true)
    by reflexivity.
  split; [exact H|].
  exact (branch_name_is_tag_name (js " release/v1.2 ") noBranchOptions H).
Defined.

Lemma below_128 (P : cu -> bool) :
  forallb P (map N.of_nat (seq 0 128)) = true ->
  forall c, (c < 128)%N -> P c = true.
Proof.
  intros H c Hc. rewrite forallb_forall in H. apply H.
  rewrite <- (N2Nat.id c). apply in_map, in_seq. lia.
Qed.

Lemma version_char_plain (c : cu) :
  isWord c || mem c [code "."; code "-"; code "+"] = true ->
  isWhiteSpace c = false /\ isSpecial c = false.
Proof.
  intros H.
  assert (L : (c < 128)%N).
  { unfold isWord, isUpper, isLower, isDigit, between, mem in H.
    cbn [existsb] in H.
    repeat rewrite ?orb_true_iff, ?andb_true_iff, ?N.leb_le, ?N.eqb_eq in H.
    change (code ".") with 46%N in H. change (code "-") with 45%N in H.
    change (code "+") with 43%N in H. lia. }
  pose proof (@below_128
    (fun c => implb (isWord c || mem c [code "."; code "-"; code "+"])
                (negb (isWhiteSpace c) && negb (isSpecial c)))
    eq_refl c L) as Q.
  cbv beta in Q. rewrite H in Q. cbn [implb] in Q.
  apply andb_true_iff in Q. destruct Q as [Q1 Q2].
  split; [now destruct (isWhiteSpace c) | now destruct (isSpecial c)].
Qed.

Lemma test_semverPattern (t : str) :
  test semverPattern t = true <-> SemanticVersion t.
Proof.
  unfold semverPattern. cbn [seqs]. unfold digit, wordOrDot, Chr.
  rewrite (test_anchored t
    (EndLang_seq (Lang_opt (Lang_chars _))
      (EndLang_seq (Lang_plus_chars _)
        (EndLang_seq (Lang_chars _)
          (EndLang_seq (Lang_plus_chars _)
            (EndLang_seq (Lang_chars _)
              (EndLang_seq (Lang_plus_chars _)
                (EndLang_seq
                   (Lang_opt (Lang_group 1
                      (Lang_seq (Lang_chars _) (Lang_plus_chars _))))
                   (EndLang_seq
                      (Lang_opt (Lang_group 2
                         (Lang_seq (Lang_chars _) (Lang_plus_chars _))))
                      EndLang_eol))))))))).
  unfold SemanticVersion, digits, identifiers. split.
  - intros (v & b0 & -> & Hv & major & b1 & -> & Hmajor
            & d1 & b2 & -> & (c1 & -> & Hc1) & minor & b3 & -> & Hminor
            & d2 & b4 & -> & (c2 & -> & Hc2) & patch & b5 & -> & Hpatch
            & pre & b6 & -> & Hpre & build & e & -> & Hbuild & ->).
    apply N.eqb_eq in Hc1, Hc2. subst c1 c2.
    exists v, major, minor, patch, pre, build. rewrite app_nil_r.
    split; [reflexivity|].
    split.
    { destruct Hv as [(ch & -> & Hch)| ->]; [left | now right].
      apply N.eqb_eq in Hch. now subst. }
    repeat (split; [assumption|]).
    split.
    { destruct Hpre as [(a & p & -> & (ch & -> & Hch) & Hp)| ->]; [left | now right].
      apply N.eqb_eq in Hch. subst ch. exists p. auto. }
    { destruct Hbuild as [(a & p & -> & (ch & -> & Hch) & Hp)| ->]; [left | now right].
      apply N.eqb_eq in Hch. subst ch. exists p. auto. }
  - intros (v & major & minor & patch & pre & build & -> & Hv & Hmajor & Hminor
            & Hpatch & Hpre & Hbuild).
    exists v, (major ++ js "." ++ minor ++ js "." ++ patch ++ pre ++ build).
    split; [reflexivity|]. split.
    { destruct Hv as [->| ->]; [left | now right].
      exists (code "v"). split; [reflexivity | apply N.eqb_refl]. }
    exists major, (js "." ++ minor ++ js "." ++ patch ++ pre ++ build).
    repeat (split; [first [reflexivity | assumption]|]).
    exists (js "."), (minor ++ js "." ++ patch ++ pre ++ build).
    split; [reflexivity|].
    split; [exists (code "."); split; [reflexivity | apply N.eqb_refl]|].
    exists minor, (js "." ++ patch ++ pre ++ build).
    repeat (split; [first [reflexivity | assumption]|]).
    exists (js "."), (patch ++ pre ++ build).
    split; [reflexivity|].
    split; [exists (code "."); split; [reflexivity | apply N.eqb_refl]|].
    exists patch, (pre ++ build).
    repeat (split; [first [reflexivity | assumption]|]).
    exists pre, build. split; [reflexivity|]. split.
    { destruct Hpre as [(p & -> & Hp)| ->]; [left | now right].
      exists (js "-"), p. split; [reflexivity|].
      split; [exists (code "-"); split; [reflexivity | apply N.eqb_refl] | assumption]. }
    exists build, []. rewrite app_nil_r. split; [reflexivity|]. split; [|reflexivity].
    destruct Hbuild as [(p & -> & Hp)| ->]; [left | now right].
    exists (js "+"), p. split; [reflexivity|].
    split; [exists (code "+"); split; [reflexivity | apply N.eqb_refl] | assumption].
Qed.

Lemma forallb_weaken (p q : cu -> bool) (s : str) :
  (forall c, p c = true -> q c = true) ->
  forallb p s = true -> forallb q s = true.
Proof.
  intros I H. rewrite forallb_forall in *. auto.
Qed.

Lemma semver_chars (t : str) :
  SemanticVersion t -> forallb versionChar t = true.
Proof.
  assert (D : forall s, forallb isDigit s = true -> forallb versionChar s = true).
  { intros s. apply forallb_weaken. intros c H. unfold versionChar, isWord.
    rewrite H. now rewrite !orb_true_r. }
  assert (I : forall s, forallb (fun c => isWord c || (c =? code ".")%N) s = true ->
                        forallb versionChar s = true).
  { intros s. apply forallb_weaken. intros c H. unfold versionChar, mem. cbn [existsb].
    apply orb_true_iff in H. destruct H as [-> | ->]; [reflexivity|].
    now rewrite !orb_true_r. }
  intros (v & major & minor & patch & pre & build & -> & Hv & [_ Hmajor]
          & [_ Hminor] & [_ Hpatch] & Hpre & Hbuild).
  rewrite !forallb_app, (D _ Hmajor), (D _ Hminor), (D _ Hpatch).
  assert (forallb versionChar v = true) as -> by (destruct Hv as [->| ->]; reflexivity).
  assert (forallb versionChar pre = true) as ->.
  { destruct Hpre as [(p & -> & _ & Hp)| ->]; [|reflexivity].
    rewrite forallb_app, (I _ Hp). reflexivity. }
  assert (forallb versionChar build = true) as ->.
  { destruct Hbuild as [(p & -> & _ & Hp)| ->]; [|reflexivity].
    rewrite forallb_app, (I _ Hp). reflexivity. }
  reflexivity.
Qed.

Lemma semver_head (t : str) :
  SemanticVersion t -> t <> [] /\ startsWith t (js "-") = false.
Proof.
  intros (v & major & minor & patch & pre & build & -> & Hv & [Hn Hmajor] & _).
  destruct major as [|d major]; [contradiction|].
  cbn [forallb] in Hmajor. apply andb_true_iff in Hmajor. destruct Hmajor as [Hd _].
  destruct Hv as [->| ->].
  - split; [discriminate | reflexivity].
  - split; [discriminate|]. cbn [app startsWith js list_ascii_of_string map].
    destruct (N.eqb_spec (N_of_ascii "-") d) as [<-|]; [discriminate Hd | reflexivity].
Qed.

(** X4. [validateTagName] returns the bare [{ valid: true }], with no
    suggestion, exactly when the trimmed name is a semantic version: an
    optional [v], three dot-separated runs of digits, an optional [-pre] and
    an optional [+build] part made of word characters and dots. *)
Theorem validateTagName_semver (s : str) :
  validateTagName s = accept <-> SemanticVersion (trim s).
Proof.
  rewrite <- test_semverPattern. unfold validateTagName. split.
  - destruct (isBlank s); [intros X; discriminate X|].
    destruct (test whitespace (trim s)); [intros X; discriminate X|].
    destruct (test special (trim s)); [intros X; discriminate X|].
    destruct (startsWith (trim s) (js "-")); [intros X; discriminate X|].
    destruct (test semverPattern (trim s)); [reflexivity | intros X; discriminate X].
  - intros T. pose proof T as V. apply test_semverPattern in V.
    destruct (semver_head V) as [N D]. apply semver_chars in V.
    apply isBlank_false in N. rewrite N, D, T.
    unfold whitespace, special, OneOf. rewrite !test_chars.
    rewrite forallb_forall in V.
    rewrite (existsb_none isWhiteSpace)
      by (intros x Hx; now apply version_char_plain, V).
    rewrite (existsb_none (fun c => mem c specialChars))
      by (intros x Hx; now apply version_char_plain, V).
    reflexivity.
Qed.

Lemma letter_plain (c : cu) :
  isLower (lowerCU c) = true ->
  isWhiteSpace c = false /\ mem c (specialChars ++ [code "/"]) = false.
Proof.
  intros H.
  assert (L : (c < 128)%N).
  { unfold lowerCU, isLower, isUpper, between in H.
    destruct ((65 <=? c)%N && (c <=? 90)%N) eqn:U.
    - rewrite andb_true_iff, !N.leb_le in U. lia.
    - rewrite andb_true_iff, !N.leb_le in H. lia. }
  pose proof (@below_128
    (fun c => implb (isLower (lowerCU c))
                (negb (isWhiteSpace c)
                 && negb (mem c (specialChars ++ [code "/"]))))
    eq_refl c L) as Q.
  cbv beta in Q. rewrite H in Q. cbn [implb] in Q.
  apply andb_true_iff in Q. destruct Q as [Q1 Q2].
  split; [now destruct (isWhiteSpace c)
         | now destruct (mem c (specialChars ++ [code "/"]))].
Qed.

Lemma special_kept (c : cu) :
  mem c (specialChars ++ [code "/"]) = true -> keptByLowerCase c = true.
Proof.
  unfold mem. intros H. apply existsb_exists in H.
  destruct H as (y & Hy & E). apply N.eqb_eq in E. subst y.
  cbn [specialChars app In] in Hy.
  repeat (destruct Hy as [<-|Hy]; [reflexivity|]). destruct Hy.
Qed.

(** X5. [validateRemoteName] accepts a name exactly when the trimmed name is
    not empty and holds no white space, no slash and none of the characters
    [~ ^ : ? * [ ] @ { \ ]; it returns the bare [{ valid: true }] exactly
    when the trimmed name is [origin], [upstream] or [fork] in any letter
    case. *)
Theorem validateRemoteName_accepts {builtins : Builtins} (s : str) :
  (valid (validateRemoteName s) = true <->
   trim s <> [] /\
   forall c, In c (trim s) ->
     isWhiteSpace c = false /\ isSpecial c = false /\ c <> code "/")
  /\ (validateRemoteName s = accept <->
      In (toLowerCase (trim s)) commonRemoteNames).
Proof.
  unfold validateRemoteName, whitespace, remoteSpecial, OneOf.
  rewrite !test_chars. fold commonRemoteNames.
  assert (M : forall c, mem c (specialChars ++ [code "/"]) = false <->
                        isSpecial c = false /\ c <> code "/").
  { intros c. unfold mem, isSpecial, mem. rewrite existsb_app, orb_false_iff.
    cbn [existsb]. rewrite orb_false_r, N.eqb_neq. tauto. }
  split.
  - destruct (isBlank s) eqn:B.
    { apply trim_nil_blank in B. cbn [valid reject].
      split; [intros X; discriminate X | intros [N _]; contradiction]. }
    apply isBlank_false in B.
    destruct (existsb isWhiteSpace (trim s)) eqn:W.
    { cbn [valid reject]. split; [intros X; discriminate X|]. intros (_ & H).
      apply existsb_exists in W. destruct W as (c & Hc & Wc).
      destruct (H c Hc) as [E _]. congruence. }
    destruct (existsb (fun c => mem c (specialChars ++ [code "/"])) (trim s)) eqn:P.
    { cbn [valid reject]. split; [intros X; discriminate X|]. intros (_ & H).
      apply existsb_exists in P. destruct P as (c & Hc & Pc).
      destruct (H c Hc) as [_ E]. apply M in E. congruence. }
    rewrite existsb_false_iff in W, P.
    assert (V : valid (if negb (arrayIncludes commonRemoteNames (toLowerCase (trim s)))
                       then acceptSuggesting [js "Common remote names: origin, upstream, fork"]
                       else accept) = true)
      by (destruct (arrayIncludes commonRemoteNames (toLowerCase (trim s))); reflexivity).
    rewrite V. split; [|reflexivity]. intros _.
    split; [assumption|]. intros c Hc. split; [now apply W | now apply M, P].
  - rewrite <- arrayIncludes_In. split.
    + destruct (isBlank s); [intros X; discriminate X|].
      destruct (existsb isWhiteSpace (trim s)); [intros X; discriminate X|].
      destruct (existsb _ (trim s)); [intros X; discriminate X|].
      destruct (arrayIncludes commonRemoteNames (toLowerCase (trim s)));
        [reflexivity | intros X; discriminate X].
    + intros A. rewrite A. cbn [negb].
      apply arrayIncludes_In in A.
      assert (L : forall c, In c (toLowerCase (trim s)) -> isLower c = true).
      { unfold commonRemoteNames in A. cbn [map In] in A.
        destruct A as [E|[E|[E|[]]]]; rewrite <- E;
          apply forallb_forall; reflexivity. }
      assert (K : forall x, In x (trim s) -> keptByLowerCase x = true ->
                            isLower x = true)
        by (intros x Hx Kx; apply L; now apply toLowerCase_keeps).
      assert (N : trim s <> []).
      { intros E. rewrite E, toLowerCase_basic in A by reflexivity.
        unfold commonRemoteNames in A. cbn [map In] in A.
        destruct A as [X|[X|[X|[]]]]; discriminate X. }
      apply isBlank_false in N. rewrite N.
      rewrite (existsb_none isWhiteSpace).
      2:{ intros x Hx. destruct (isWhiteSpace x) eqn:W; [|reflexivity].
          assert (Lx : isLower x = true)
            by (apply K; [exact Hx | unfold keptByLowerCase; now rewrite W]).
          rewrite letter_not_space in W by (rewrite Lx; apply orb_true_r).
          discriminate W. }
      rewrite (existsb_none (fun c => mem c (specialChars ++ [code "/"]))).
      2:{ intros x Hx.
          destruct (mem x (specialChars ++ [code "/"])) eqn:P; [|reflexivity].
          pose proof (special_kept x P) as Kx.
          pose proof (K x Hx Kx) as Lx.
          rewrite <- (kept_lowerCU x Kx) in Lx.
          apply letter_plain in Lx. destruct Lx as [_ Q]. congruence. }
      reflexivity.
Qed.

Lemma toUpperCase_not_lower {builtins : Builtins} (t : str) :
  existsb isLower (toUpperCase t) = false.
Proof.
  apply existsb_false_iff. intros c Hc. now apply toUpperCase_upper in Hc.
Qed.

(** X6. The reserved-name check compares the upper-cased branch name with
    the entries of [reservedNames] as they are written: entries that hold a
    lower-case Basic Latin letter reject nothing, and the validator answers
    as if the list were empty. *)
Theorem lowercase_reserved_names_inert {builtins : Builtins}
    (name : str) (a : prop bool) (m : prop Z) (l : list str)
    (p : prop (str -> bool)) (e : prop (list str)) :
  Forall (fun r => existsb isLower r = true) l ->
  validateBranchName name (mkBranchOptions a m (Value l) p e)
  = validateBranchName name (mkBranchOptions a m (Value []) p e).
Proof.
  intros H. unfold validateBranchName. cbv zeta.
  change (merged reservedNames DEFAULT_BRANCH_OPTIONS (mkBranchOptions a m (Value l) p e))
    with (Some l).
  change (merged reservedNames DEFAULT_BRANCH_OPTIONS (mkBranchOptions a m (Value []) p e))
    with (Some (@nil str)).
  assert (A : arrayIncludes l (toUpperCase (trim name)) = false).
  { destruct (arrayIncludes l (toUpperCase (trim name))) eqn:A; [|reflexivity].
    apply arrayIncludes_In in A. rewrite Forall_forall in H.
    apply H in A. rewrite toUpperCase_not_lower in A. discriminate A. }
  cbv beta iota. rewrite A. reflexivity.
Qed.

Lemma lowercase_reserved_names_inert_witness :
  Forall (fun r => existsb isLower r = true) [js "main"; js "Trunk"] /\
  validateBranchName (js "main")
    (mkBranchOptions Absent Absent (Value [js "main"; js "Trunk"]) Absent Absent)
  = validateBranchName (js "main")
      (mkBranchOptions Absent Absent (Value []) Absent Absent).
Proof.
  assert (H : Forall (fun r => existsb isLower r = true) [js "main"; js "Trunk"])
    by (repeat constructor).
  split; [exact H|].
  exact (lowercase_reserved_names_inert (js "main") Absent Absent Absent Absent H).
Defined.

Lemma firstLine_prefix (m : str) : exists r, m = firstLine m ++ r.
Proof.
  unfold firstLine. destruct (split LF m) as [|h tl] eqn:E.
  - now apply split_nonempty in E.
  - apply split_cons_inv in E. destruct E as [_ [[_ ->]|(s' & -> & _)]].
    + exists []. now rewrite app_nil_r.
    + exists (LF :: s'). reflexivity.
Qed.

Lemma blank_firstLine (m : str) : trim m = [] -> trim (firstLine m) = [].
Proof.
  rewrite !trim_nil_iff. intros H. destruct (firstLine_prefix m) as [r E].
  rewrite E, forallb_app in H. now apply andb_true_iff in H.
Qed.

(** X7. With the default options [validateCommitMessage] rejects a blank
    message as empty, rejects a message whose first line is blank for its
    empty subject even when later lines have text, and accepts a message
    exactly when its trimmed first line has between 1 and 72 characters;
    nothing in the body makes a message invalid. *)
Theorem validateCommitMessage_defaults {builtins : Builtins} (message : str) :
  (validateCommitMessage message noCommitOptions
   = reject (js "Commit message cannot be empty") <-> trim message = [])
  /\ (validateCommitMessage message noCommitOptions
      = reject (js "Commit subject line cannot be empty")
      <-> trim message <> [] /\ trim (firstLine message) = [])
  /\ (valid (validateCommitMessage message noCommitOptions) = true
      <-> (1 <= length (trim (firstLine message)) <= 72)%nat).
Proof.
  unfold validateCommitMessage. cbv zeta. fold (firstLine message).
  change (merged maxSubjectLength DEFAULT_COMMIT_OPTIONS noCommitOptions)
    with (Some 72%Z).
  change (merged requireType DEFAULT_COMMIT_OPTIONS noCommitOptions)
    with (Some false).
  cbn [truthyBool]. cbv beta iota. unfold exceeds. cbn [truthyNum Z.eqb negb andb].
  destruct (isBlank message) eqn:B.
  { apply trim_nil_blank in B. pose proof (blank_firstLine _ B) as F.
    rewrite F. cbn [length valid reject].
    split; [tauto|]. split; [split; [intros X; discriminate X | tauto]|].
    split; [intros X; discriminate X | lia]. }
  apply isBlank_false in B.
  destruct (Nat.eqb_spec (length (trim (firstLine message))) 0) as [E|E].
  { apply length_zero_iff_nil in E. rewrite E. cbn [length valid reject].
    split; [split; [intros X; discriminate X | tauto]|].
    split; [tauto|]. split; [intros X; discriminate X | lia]. }
  assert (N : trim (firstLine message) <> [])
    by (intros X; apply E; now rewrite X).
  destruct (Z.gtb_spec (Z.of_nat (length (trim (firstLine message)))) 72) as [G|G].
  { cbn [valid rejectWith].
    split; [split; [intros X; discriminate X | tauto]|].
    split; [split; [intros X; discriminate X | tauto]|].
    split; [intros X; discriminate X | lia]. }
  cbn [valid acceptWith].
  split; [split; [intros X; discriminate X | tauto]|].
  split; [split; [intros X; discriminate X | tauto]|].
  split; [lia | reflexivity].
Qed.

Lemma Matches_groupFree (r : regex) (x y : MatchState) :
  Matches r x y -> groupFree r = true -> captures y = captures x.
Proof.
  induction 1; cbn [groupFree captures]; intros G;
    try apply andb_true_iff in G; try reflexivity; try discriminate G.
  - destruct G as [G1 G2]. now rewrite IHMatches2, IHMatches1.
  - destruct G as [G1 G2]. auto.
  - destruct G as [G1 G2]. auto.
  - rewrite IHMatches2, IHMatches1; auto.
Qed.

Lemma Matches_group_lang (n : nat) (r : regex) (L : str -> Prop)
    (x z : MatchState) :
  Lang r L -> groupFree r = true -> Matches (Group n r) x z ->
  exists t, rest x = t ++ rest z /\ endIndex z = (endIndex x + length t)%nat /\
            L t /\ captures z = (n, t) :: captures x.
Proof.
  intros [HL _] G M. apply Matches_group_inv in M.
  destruct M as (y & M & ->). destruct (HL _ _ M) as (t & Hr & He & Ht).
  exists t. cbn [rest endIndex captures]. repeat split; try assumption.
  rewrite (Matches_groupFree M G), Hr, He.
  replace (endIndex x + length t - endIndex x)%nat with (length t) by lia.
  now rewrite firstn_app, Nat.sub_diag, firstn_all, firstn_O, app_nil_r.
Qed.

Lemma Matches_lang (r : regex) (L : str -> Prop) (x y : MatchState) :
  Lang r L -> groupFree r = true -> Matches r x y ->
  exists t, rest x = t ++ rest y /\ endIndex y = (endIndex x + length t)%nat /\
            L t /\ captures y = captures x.
Proof.
  intros [HL _] G M. destruct (HL _ _ M) as (t & Hr & He & Ht).
  exists t. repeat split; try assumption. now apply Matches_groupFree with r.
Qed.

Lemma execFrom_matchAt (r : regex) (s : str) :
  forall i j y, execFrom r i s = Some (j, y) ->
  exists pre suf, s = pre ++ suf /\ j = (i + length pre)%nat /\
                  matchAt r j suf = Some y.
Proof.
  induction s as [|c tl IH]; intros i j y; cbn [execFrom].
  - destruct (matchAt r i []) eqn:E; [|intros X; discriminate X].
    intros [= <- <-]. exists [], []. rewrite Nat.add_0_r. auto.
  - destruct (matchAt r i (c :: tl)) eqn:E.
    + intros [= <- <-]. exists [], (c :: tl). rewrite Nat.add_0_r. auto.
    + intros H. apply IH in H. destruct H as (pre & suf & -> & -> & H).
      exists (c :: pre), suf. cbn [length app].
      replace (i + S (length pre))%nat with (S i + length pre)%nat by lia.
      auto.
Qed.

(** A match of the subject pattern, read off its derivation. *)
Lemma conventionalPattern_captures (subject : str) (caps : list (nat * str)) :
  matchCaptures conventionalPattern subject = Some caps ->
  exists t (sc : option str) (b : bool) w d,
    subject = t ++ match sc with Some c => js "(" ++ c ++ js ")" | None => [] end
              ++ (if b then js "!" else []) ++ js ":" ++ w ++ d /\
    (t <> [] /\ forallb isWord t = true) /\
    match sc with
    | Some c => c <> [] /\ forallb (fun x => negb (mem x [code ")"])) c = true
    | None => True
    end /\
    forallb isWhiteSpace w = true /\
    (d <> [] /\ forallb (fun c => negb (isLineTerminator c)) d = true) /\
    capture 1 caps = Some t /\ capture 2 caps = sc /\
    capture 3 caps = (if b then Some (js "!") else None) /\
    capture 4 caps = Some d.
Proof.
  unfold matchCaptures, exec.
  destruct (execFrom conventionalPattern 0 subject) as [[j y]|] eqn:E;
    [|intros X; discriminate X].
  intros [= <-]. apply execFrom_matchAt in E.
  destruct E as (pre & suf & -> & -> & E). unfold matchAt in E.
  apply compile_sound in E. destruct E as (y' & M & [= ->]).
  unfold conventionalPattern in M. cbn [seqs] in M.
  apply Matches_seq_inv in M. destruct M as (x1 & M0 & M).
  apply Matches_bol_inv in M0. destruct M0 as [Z ->]. cbn [endIndex] in Z.
  assert (pre = []) as -> by (destruct pre; [reflexivity | discriminate Z]).
  cbn [length app Nat.add] in *. clear Z.
  apply Matches_seq_inv in M. destruct M as (x1 & M1 & M).
  apply (Matches_group_lang (Lang_plus_chars isWord) eq_refl) in M1.
  destruct M1 as (t & R1 & I1 & Ht & C1). cbn [rest endIndex captures] in R1, I1, C1.
  apply Matches_seq_inv in M. destruct M as (x2 & M2 & M).
  assert (S2 : exists sc : option str,
            rest x1 = match sc with Some c => js "(" ++ c ++ js ")" | None => [] end
                      ++ rest x2 /\
            match sc with
            | Some c => c <> [] /\ forallb (fun x => negb (mem x [code ")"])) c = true
            | None => True
            end /\
            captures x2 = match sc with Some c => [(2%nat, c)] | None => [] end
                          ++ captures x1).
  { apply Matches_alt_inv in M2. destruct M2 as [M2|M2].
    - cbn [seqs] in M2.
      apply Matches_seq_inv in M2. destruct M2 as (a1 & A1 & M2).
      apply Matches_seq_inv in M2. destruct M2 as (a2 & A2 & A3).
      apply Matches_chars_inv in A1. destruct A1 as (ch & tl & Ra & Hch & ->).
      apply N.eqb_eq in Hch. subst ch.
      apply (Matches_group_lang (Lang_plus_chars _) eq_refl) in A2.
      destruct A2 as (c & Rc & Ic & Hc & Cc). cbn [rest endIndex captures] in Rc, Ic, Cc.
      apply Matches_chars_inv in A3. destruct A3 as (ch & tl' & Rb & Hch & ->).
      apply N.eqb_eq in Hch. subst ch. cbn [rest captures].
      exists (Some c). rewrite Ra, Rc, Rb, Cc. repeat split; try apply Hc.
      now rewrite <- !app_assoc.
    - apply Matches_empty_inv in M2. subst x2. exists None. auto. }
  destruct S2 as (sc & R2 & Hsc & C2).
  apply Matches_seq_inv in M. destruct M as (x3 & M3 & M).
  assert (S3 : exists b : bool,
            rest x2 = (if b then js "!" else []) ++ rest x3 /\
            captures x3 = (if b then [(3%nat, js "!")] else []) ++ captures x2).
  { apply Matches_alt_inv in M3. destruct M3 as [M3|M3].
    - apply (Matches_group_lang (Lang_chars _) eq_refl) in M3.
      destruct M3 as (c & Rc & _ & (ch & -> & Hch) & Cc).
      apply N.eqb_eq in Hch. subst ch. exists true. auto.
    - apply Matches_empty_inv in M3. subst x3. exists false. auto. }
  destruct S3 as (b & R3 & C3).
  apply Matches_seq_inv in M. destruct M as (x4 & M4 & M).
  apply Matches_chars_inv in M4. destruct M4 as (ch & tl & R4 & Hch & ->).
  apply N.eqb_eq in Hch. subst ch.
  apply Matches_seq_inv in M. destruct M as (x5 & M5 & M).
  apply (Matches_lang (Lang_star_chars isWhiteSpace) eq_refl) in M5.
  destruct M5 as (w & R5 & _ & Hw & C5). cbn [rest captures] in R5, C5.
  apply Matches_seq_inv in M. destruct M as (x6 & M6 & M7).
  apply (Matches_group_lang (Lang_plus_chars _) eq_refl) in M6.
  destruct M6 as (d & R6 & _ & Hd & C6).
  apply Matches_eol_inv in M7. destruct M7 as [R7 ->].
  exists t, sc, b, w, d.
  split.
  { rewrite R1, R2, R3, R4, R5, R6, R7, app_nil_r. reflexivity. }
  repeat (split; [assumption|]).
  rewrite C6, C5, C3, C2, C1.
  destruct sc as [c|]; destruct b; repeat split; reflexivity.
Qed.

Lemma not_in_forallb (x : cu) (s : str) :
  forallb (fun c => negb (mem c [x])) s = true <-> ~ In x s.
Proof.
  induction s as [|c s IH]; cbn [forallb In]; [tauto|].
  rewrite andb_true_iff, IH. unfold mem. cbn [existsb]. rewrite orb_false_r.
  destruct (N.eqb_spec c x); cbn [negb]; intuition congruence.
Qed.

Lemma test_conventionalPattern (s : str) :
  test conventionalPattern s = true <-> ConventionalSubject s.
Proof.
  unfold conventionalPattern. cbn [seqs]. unfold word, whitespace, dot, Chr, NoneOf.
  rewrite (test_anchored s
    (EndLang_seq (Lang_group 1 (Lang_plus_chars _))
      (EndLang_seq
         (Lang_opt (Lang_seq (Lang_chars _)
                      (Lang_seq (Lang_group 2 (Lang_plus_chars _)) (Lang_chars _))))
         (EndLang_seq (Lang_opt (Lang_group 3 (Lang_chars _)))
            (EndLang_seq (Lang_chars _)
               (EndLang_seq (Lang_star_chars _)
                  (EndLang_seq (Lang_group 4 (Lang_plus_chars _)) EndLang_eol))))))).
  unfold ConventionalSubject, subjectOf, subjectParts. split.
  - intros (t & b0 & -> & Ht & o & b1 & -> & Ho & g & b2 & -> & Hg
            & c & b3 & -> & (ch & -> & Hch) & w & b4 & -> & Hw
            & d & e & -> & Hd & ->).
    apply N.eqb_eq in Hch. subst ch. rewrite app_nil_r.
    destruct Ho as [(l & r0 & -> & (ch & -> & Hch) & sc & r1 & -> & [Hn Hsc]
                     & (ch' & -> & Hch'))| ->];
      destruct Hg as [(ch2 & -> & Hch2)| ->];
      try (apply N.eqb_eq in Hch, Hch'; subst ch ch');
      try (apply N.eqb_eq in Hch2; subst ch2).
    + exists t, (Some sc), true, w, d. apply not_in_forallb in Hsc.
      destruct sc; [contradiction|]. split; [reflexivity|].
      repeat split; auto; try apply Ht; try apply Hd; discriminate.
    + exists t, (Some sc), false, w, d. apply not_in_forallb in Hsc.
      destruct sc; [contradiction|]. split; [reflexivity|].
      repeat split; auto; try apply Ht; try apply Hd; discriminate.
    + exists t, None, true, w, d. split; [reflexivity|].
      repeat split; auto; try apply Ht; try apply Hd.
    + exists t, None, false, w, d. split; [reflexivity|].
      repeat split; auto; try apply Ht; try apply Hd.
  - intros (t & sc & b & w & d & -> & Ht & Hsc & Hw & Hd).
    exists t, (scopeText sc ++ (if b then js "!" else []) ++ js ":" ++ w ++ d).
    repeat (split; [first [reflexivity | assumption]|]).
    exists (scopeText sc), ((if b then js "!" else []) ++ js ":" ++ w ++ d).
    split; [reflexivity|]. split.
    { destruct sc as [[|c sc]|]; [destruct Hsc as [N _]; contradiction | left | now right].
      destruct Hsc as [Hn Hc]. exists (js "("), ((c :: sc) ++ js ")").
      split; [reflexivity|].
      split; [exists (code "("); split; [reflexivity | apply N.eqb_refl]|].
      exists (c :: sc), (js ")"). split; [reflexivity|].
      split; [split; [assumption | now apply not_in_forallb]|].
      exists (code ")"). split; [reflexivity | apply N.eqb_refl]. }
    exists (if b then js "!" else []), (js ":" ++ w ++ d).
    split; [reflexivity|]. split.
    { destruct b; [left | now right].
      exists (code "!"). split; [reflexivity | apply N.eqb_refl]. }
    exists (js ":"), (w ++ d). split; [reflexivity|].
    split; [exists (code ":"); split; [reflexivity | apply N.eqb_refl]|].
    exists w, d. repeat (split; [first [reflexivity | assumption]|]).
    exists d, []. rewrite app_nil_r. auto.
Qed.

Lemma matchCaptures_test (r : regex) (s : str) :
  matchCaptures r s = None <-> test r s = false.
Proof.
  unfold matchCaptures, test. destruct (exec r s) as [[i y]|].
  - split; intros X; discriminate X.
  - tauto.
Qed.

(** X8. [parseConventionalCommit] returns [null] exactly when the first line
    of the message is not of the form [type(scope)!: description], with a
    type made of word characters, an optional non-empty scope free of
    closing parentheses, an optional exclamation mark, any white space after
    the colon, and a non-empty description. *)
Theorem parseConventionalCommit_null (message : str) :
  parseConventionalCommit message = None <->
  ~ ConventionalSubject (firstLine message).
Proof.
  rewrite <- test_conventionalPattern, not_true_iff_false, <- matchCaptures_test.
  unfold parseConventionalCommit, firstLine.
  destruct (matchCaptures conventionalPattern (hd [] (split LF message))).
  - destruct (if (2 <? length (split LF message))%nat
              then classifyLines false (skipn 2 (split LF message))
              else ([], [])).
    split; intros X; discriminate X.
  - tauto.
Qed.

(** X9. What [parseConventionalCommit] returns is read off the first line:
    that line is the type, the scope in parentheses when there is one, an
    exclamation mark exactly when [breaking] is true, a colon, white space
    and the description; the type and the description are never empty and a
    scope is never the empty string. *)
Theorem parseConventionalCommit_subject (message : str) (p : ParsedCommit) :
  parseConventionalCommit message = Some p ->
  exists w,
    firstLine message
    = subjectOf (type p) (scope p) (breaking p) w (description p) /\
    subjectParts (type p) (scope p) w (description p).
Proof.
  unfold parseConventionalCommit. fold (firstLine message).
  destruct (matchCaptures conventionalPattern (firstLine message)) as [caps|] eqn:E;
    [|intros X; discriminate X].
  apply conventionalPattern_captures in E.
  destruct E as (t & sc & b & w & d & S & Ht & Hsc & Hw & Hd & C1 & C2 & C3 & C4).
  destruct (if (2 <? length (split LF message))%nat
            then classifyLines false (skipn 2 (split LF message))
            else ([], [])) as [bodyLines footerLines].
  intros [= <-]. cbn [type scope breaking description].
  rewrite C1, C2, C3, C4. exists w.
  assert (B : match (if b then Some (js "!") else None) with
              | Some x => str_eqb x (js "!")
              | None => false
              end = b) by (destruct b; reflexivity).
  rewrite B. unfold subjectOf, subjectParts. split.
  - rewrite S. destruct sc as [[|c sc]|]; [destruct Hsc as [N _]; contradiction | |];
      reflexivity.
  - repeat split; try assumption; try apply Ht; try apply Hd.
    destruct sc as [c|]; [|exact I]. destruct Hsc as [Hn Hc].
    split; [assumption | now apply not_in_forallb].
Qed.

Lemma parseConventionalCommit_subject_witness :
  exists w,
    firstLine (js "feat(api)!:  add login" ++ nl ++ nl ++ js "Body text")
    = subjectOf (js "feat") (Some (js "api")) true w (js "add login") /\
    subjectParts (js "feat") (Some (js "api")) w (js "add login").
Proof.
  apply (@parseConventionalCommit_subject
           (js "feat(api)!:  add login" ++ nl ++ nl ++ js "Body text")
           (mkParsed (js "feat") (Some (js "api")) true (js "add login")
              (Some (js "Body text")) None)).
  vm_compute. reflexivity.
Defined.

Lemma split_first (a b : str) :
  ~ In LF a -> split LF (a ++ nl ++ b) = a :: split LF b.
Proof.
  intros H. change (a ++ nl ++ b) with (a ++ LF :: b).
  rewrite split_app_sep, (split_no_sep _ _ H). reflexivity.
Qed.

(** X10. [parseConventionalCommit] never reads the second line of a message:
    a two-line message parses as its first line alone, and changing the
    second line of a longer message does not change the result. *)
Theorem parseConventionalCommit_second_line (subject second other tl : str) :
  ~ In LF subject -> ~ In LF second -> ~ In LF other ->
  parseConventionalCommit (subject ++ nl ++ second) = parseConventionalCommit subject
  /\ parseConventionalCommit (subject ++ nl ++ second ++ nl ++ tl)
     = parseConventionalCommit (subject ++ nl ++ other ++ nl ++ tl).
Proof.
  intros H1 H2 H3. unfold parseConventionalCommit.
  rewrite !split_first, !(split_no_sep _ _ H1), (split_no_sep _ _ H2) by assumption.
  split; reflexivity.
Qed.

Lemma parseConventionalCommit_second_line_witness :
  parseConventionalCommit (js "fix: crash" ++ nl ++ js "on start-up")
  = parseConventionalCommit (js "fix: crash")
  /\ parseConventionalCommit
       (js "fix: crash" ++ nl ++ js "on start-up" ++ nl ++ js "Fixes #7")
     = parseConventionalCommit
         (js "fix: crash" ++ nl ++ js "" ++ nl ++ js "Fixes #7").
Proof.
  apply (@parseConventionalCommit_second_line (js "fix: crash") (js "on start-up")
           (js "") (js "Fixes #7"));
    intros H; cbv in H; repeat destruct H as [H|H]; try discriminate H; exact H.
Defined.

Lemma lower_fixed_not_upper (x : cu) : lowerCU x = x -> isUpper x = false.
Proof.
  unfold lowerCU. destruct (isUpper x); [|reflexivity]. lia.
Qed.

(** X11. The output of [sanitizeBranchName] has at most 250 characters,
    holds no white space, no underscore, no upper-case Basic Latin letter
    and none of the characters [~ ^ : ? * [ ] @ { \ ], has no two dots or
    two slashes in a row, and does not start with a dash, a dot or a slash.
    *)
Theorem sanitizeBranchName_output {builtins : Builtins} (s : str) :
  (length (sanitizeBranchName s) <= 250)%nat
  /\ (forall c, In c (sanitizeBranchName s) ->
        isWhiteSpace c = false /\ isSpecial c = false /\
        isUpper c = false /\ c <> code "_")
  /\ test consecutiveDots (sanitizeBranchName s) = false
  /\ test consecutiveSlashes (sanitizeBranchName s) = false
  /\ startsWith (sanitizeBranchName s) (js "-") = false
  /\ startsWith (sanitizeBranchName s) (js ".") = false
  /\ startsWith (sanitizeBranchName s) (js "/") = false.
Proof.
  destruct (sanitized_clean s) as [(M & D & S & H) L].
  split; [exact L|]. split.
  { intros c Hc. destruct (M c Hc) as (W & U & P & Lw).
    repeat split; try assumption; [now apply lower_fixed_not_upper|].
    intros ->. discriminate U. }
  change consecutiveDots with (Lit [code "."; code "."]).
  change consecutiveSlashes with (Lit [code "/"; code "/"]).
  rewrite !test_pair, D, S.
  change (js "-") with [code "-"]. change (js ".") with [code "."].
  change (js "/") with [code "/"].
  rewrite !(@separator_not_first _ _ H) by reflexivity.
  repeat split.
Qed.

Lemma no_violation {builtins : Builtins}
    (name : str) (options : BranchValidationOptions) :
  valid (validateBranchName name options) = true ->
  forall r, violates options name r = false.
Proof.
  intros V r. apply valid_iff_no_violation in V. unfold firstViolation in V.
  apply (find_none _ _ V). unfold checkOrder. destruct r; cbn [In]; tauto.
Qed.

Lemma not_first (t : str) (c : cu) :
  startsWith t [c] = false -> match t with [] => True | x :: _ => x <> c end.
Proof.
  destruct t as [|x t]; [trivial|]. cbn [startsWith]. rewrite andb_true_r.
  intros H. apply N.eqb_neq in H. congruence.
Qed.

Lemma stops_at_separator (t : str) :
  startsWith t [code "-"] = false -> startsWith t [code "."] = false ->
  startsWith t [code "/"] = false -> stopsAt isSeparator t.
Proof.
  intros A B C. apply not_first in A, B, C. destruct t as [|x t]; [exact I|].
  cbn [stopsAt]. unfold isSeparator, mem. cbn [existsb].
  rewrite !orb_false_iff, !N.eqb_neq. auto.
Qed.

Lemma accepted_clean {builtins : Builtins} (name : str) :
  valid (validateBranchName name noBranchOptions) = true ->
  (forall c, In c (trim name) -> isUpper c = false /\ c <> code "_") ->
  startsWith (trim name) (js "/") = false ->
  Clean (trim name).
Proof.
  intros V L S. pose proof (no_violation _ _ V) as F.
  pose proof (F RuleWhitespace) as W. pose proof (F RuleSpecial) as P.
  pose proof (F RuleConsecutiveDots) as D. pose proof (F RuleConsecutiveSlashes) as SS.
  pose proof (F RuleLeadingDot) as LD. pose proof (F RuleLeadingDash) as LH.
  rewrite violates_checks in W, P, D, SS, LD, LH. cbv beta iota in W, P, D, SS, LD, LH.
  unfold whitespace, special, OneOf in W, P. rewrite test_chars in W, P.
  rewrite existsb_false_iff in W, P.
  change consecutiveDots with (Lit [code "."; code "."]) in D.
  change consecutiveSlashes with (Lit [code "/"; code "/"]) in SS.
  rewrite test_pair in D, SS. apply negb_false_iff in D, SS.
  repeat split; try assumption.
  - now apply W.
  - unfold isUnderscore. apply N.eqb_neq. intros E. now apply (L x H).
  - now apply P.
  - unfold lowerCU. now rewrite (proj1 (L x H)).
  - now apply stops_at_separator.
Qed.

(** X12. [sanitizeBranchName] only trims a name that [validateBranchName]
    accepts with the default options, provided the trimmed name is left as
    it is by [toLowerCase], holds no underscore, does not start with a slash
    and does not end with a dash. *)
Theorem sanitizeBranchName_keeps_valid {builtins : Builtins} (s : str) :
  valid (validateBranchName s noBranchOptions) = true ->
  toLowerCase (trim s) = trim s ->
  ~ In (code "_") (trim s) ->
  startsWith (trim s) (js "/") = false ->
  endsWith (trim s) (js "-") = false ->
  sanitizeBranchName s = trim s.
Proof.
  intros V E0 U S E.
  assert (L : forall c, In c (trim s) -> isUpper c = false /\ c <> code "_").
  { intros c Hc. split; [|intros ->; contradiction].
    rewrite <- E0 in Hc. now apply toLowerCase_lower in Hc. }
  pose proof (accepted_clean s V L S) as C.
  pose proof (no_violation _ _ V) as F.
  pose proof (F RuleMaxLength) as M. pose proof (F RuleTrailingDot) as TD.
  pose proof (F RuleTrailingSlash) as TS.
  rewrite violates_checks in M, TD, TS. cbv beta iota in M, TD, TS.
  change (merged maxLength DEFAULT_BRANCH_OPTIONS noBranchOptions)
    with (Some 250%Z) in M.
  unfold exceeds in M. cbn [truthyNum Z.eqb negb andb] in M.
  rewrite Z.gtb_ltb, Z.ltb_ge in M.
  assert (R : stopsAt isSeparator (rev (trim s))).
  { unfold endsWith in E, TD, TS. now apply stops_at_separator. }
  rewrite sanitizeBranchName_steps.
  assert (B : beforeTruncation s = beforeTruncation (trim s))
    by (unfold beforeTruncation; now rewrite trim_idem).
  rewrite B, (clean_fixed C E0 R). apply firstn_all2. lia.
Qed.

Lemma sanitizeBranchName_keeps_valid_witness :
  sanitizeBranchName (js " feature/login-page.v2 ") = js "feature/login-page.v2".
Proof.
  apply (@sanitizeBranchName_keeps_valid _ (js " feature/login-page.v2 "));
    [reflexivity | reflexivity | | reflexivity | reflexivity].
  intros H. vm_compute in H.
  repeat (destruct H as [H|H]; [discriminate H|]).
  destruct H.
Defined.

Lemma word_not_space (c : cu) : isWord c = true -> isWhiteSpace c = false.
Proof.
  intros H. apply version_char_plain. now rewrite H.
Qed.

Lemma subject_trimmed (type : str) (scope : option str) (b : bool) (d : str) :
  type <> [] -> forallb isWord type = true ->
  d <> [] -> stopsAt isWhiteSpace (rev d) ->
  trim (subjectLine type scope b d) = subjectLine type scope b d.
Proof.
  intros Hn Hw Hd Hr. apply trimmed_fixed. unfold trimmed, subjectLine. split.
  - destruct type as [|c t]; [contradiction|]. cbn [app].
    cbn [forallb] in Hw. apply andb_true_iff in Hw. now apply word_not_space.
  - rewrite !rev_app_distr. destruct (rev d) as [|x r] eqn:E.
    + apply (f_equal (@rev cu)) in E. rewrite rev_involutive in E. contradiction.
    + exact Hr.
Qed.

(** X13. A message written by [generateConventionalCommit] with one of the
    eleven default types, a scope free of closing parentheses and line
    feeds, and a trimmed one-line description passes [validateCommitMessage]
    with [requireType] set, whatever its body and footer, as long as the
    subject line has at most 72 characters. *)
Theorem generated_commit_validates {builtins : Builtins}
    (type : str) (scope : option str) (description : str)
    (body : option str) (breaking : bool) (footer : option str) :
  In type conventionalTypes ->
  plainScope scope -> plainDescription description ->
  stopsAt isWhiteSpace (rev description) ->
  (length (subjectLine type scope breaking description) <= 72)%nat ->
  valid (validateCommitMessage
           (generateConventionalCommit type scope description body
              (Some breaking) footer) typeRequired) = true.
Proof.
  intros Ht Hs Hd Hr Hl.
  assert (T : type <> [] /\ forallb isWord type = true).
  { unfold conventionalTypes in Ht. cbn [map In] in Ht.
    repeat (destruct Ht as [<-|Ht]; [split; [discriminate | reflexivity]|]).
    destruct Ht. }
  destruct T as [Tn Tw].
  pose proof (subject_one_line type scope breaking Tw Hs Hd) as L.
  pose proof (subject_trimmed scope breaking Tn Tw (proj1 Hd) Hr) as Tr.
  pose proof (subject_matches scope breaking Tn Tw Hs Hd) as M.
  destruct (subject_captures type scope breaking description Hs) as (C1 & C2 & _).
  rewrite generate_shape. unfold validateCommitMessage. cbv zeta.
  rewrite (generated_lines _ body footer L). cbn [hd]. rewrite Tr, M.
  assert (Sn : subjectLine type scope breaking description <> []).
  { unfold subjectLine. destruct type; [contradiction | discriminate]. }
  assert (B : isBlank (subjectLine type scope breaking description
                       ++ section body ++ section footer) = false).
  { apply isBlank_false. intros E.
    destruct type as [|c t]; [contradiction|].
    cbn [forallb] in Tw. apply andb_true_iff in Tw. destruct Tw as [Wc _].
    apply word_not_space in Wc.
    assert (I : In c (trim (subjectLine (c :: t) scope breaking description
                            ++ section body ++ section footer)))
      by (apply (trim_keeps _ _ Wc); now left).
    rewrite E in I. destruct I. }
  rewrite B.
  replace (length (subjectLine type scope breaking description) =? 0)%nat
    with false
    by (symmetry; apply Nat.eqb_neq; intros Z;
        now apply length_zero_iff_nil in Z).
  change (merged maxSubjectLength DEFAULT_COMMIT_OPTIONS typeRequired)
    with (Some 72%Z).
  change (merged requireType DEFAULT_COMMIT_OPTIONS typeRequired)
    with (Some true).
  change (merged requireScope DEFAULT_COMMIT_OPTIONS typeRequired)
    with (Some false).
  change (merged allowedTypes DEFAULT_COMMIT_OPTIONS typeRequired)
    with (Some conventionalTypes).
  change (merged allowedScopes DEFAULT_COMMIT_OPTIONS typeRequired)
    with (@None (list str)).
  unfold exceeds. cbn [truthyNum truthyBool Z.eqb negb andb].
  replace (Z.of_nat (length (subjectLine type scope breaking description)) >? 72)%Z
    with false by (symmetry; rewrite Z.gtb_ltb; apply Z.ltb_ge; lia).
  rewrite C1, C2. apply arrayIncludes_In in Ht. rewrite Ht. cbn [negb].
  destruct scope as [[|c sc]|]; reflexivity.
Qed.

Lemma generated_commit_validates_witness :
  valid (validateCommitMessage
           (generateConventionalCommit (js "feat") (Some (js "api"))
              (js "add login") (Some (js "Any body: text")) (Some true)
              (Some (js "Fixes #12"))) typeRequired) = true.
Proof.
  apply (@generated_commit_validates _ (js "feat") (Some (js "api"))
           (js "add login") (Some (js "Any body: text")) true
           (Some (js "Fixes #12"))).
  - now left.
  - repeat split; try discriminate;
      intros H; cbv in H; repeat destruct H as [H|H]; try discriminate H; exact H.
  - repeat split; try discriminate; reflexivity.
  - reflexivity.
  - vm_compute. lia.
Defined.

Lemma firstLine_no_LF (m : str) : ~ In LF (firstLine m).
Proof.
  unfold firstLine. destruct (split LF m) as [|h tl] eqn:E.
  - now apply split_nonempty in E.
  - apply split_cons_inv in E. apply E.
Qed.

Lemma trim_no_LF (s : str) : ~ In LF s -> ~ In LF (trim s).
Proof.
  intros H X. apply H. destruct (trim_split s) as (w1 & w2 & E & _).
  rewrite E. apply in_or_app. right. apply in_or_app. now left.
Qed.

(** X14. A message [validateCommitMessage] accepts with [requireType] set
    has a first line that, once trimmed, [parseConventionalCommit] reads,
    with a type among the eleven allowed types; the parser does not trim, so
    the accepted message [ feat: x], with a space in front, is one it
    returns [null] for. *)
Theorem typed_commit_parses {builtins : Builtins} (message : str) :
  (valid (validateCommitMessage message typeRequired) = true ->
   exists p, parseConventionalCommit (trim (firstLine message)) = Some p /\
             In (type p) conventionalTypes)
  /\ (valid (validateCommitMessage (js " feat: x") typeRequired) = true /\
      parseConventionalCommit (js " feat: x") = None).
Proof.
  split; [|split; reflexivity].
  unfold validateCommitMessage. cbv zeta. fold (firstLine message).
  change (merged requireType DEFAULT_COMMIT_OPTIONS typeRequired) with (Some true).
  change (merged allowedTypes DEFAULT_COMMIT_OPTIONS typeRequired)
    with (Some conventionalTypes).
  cbn [truthyBool]. cbv beta iota.
  destruct (isBlank message); [intros X; discriminate X|].
  destruct (length (trim (firstLine message)) =? 0)%nat; [intros X; discriminate X|].
  destruct (exceeds (length (trim (firstLine message)))
              (merged maxSubjectLength DEFAULT_COMMIT_OPTIONS typeRequired));
    [intros X; discriminate X|].
  unfold parseConventionalCommit.
  rewrite (split_no_sep _ _ (@trim_no_LF _ (firstLine_no_LF message))). cbn [hd].
  destruct (matchCaptures conventionalPattern (trim (firstLine message)))
    as [caps|]; [|intros X; discriminate X].
  destruct (arrayIncludes conventionalTypes
              match capture 1 caps with Some t => t | None => [] end) eqn:A;
    cbn [negb]; [|intros X; discriminate X].
  intros _. eexists. split; [reflexivity|]. cbn [type].
  now apply arrayIncludes_In.
Qed.

Section CleanAccepted.
Context {builtins : Builtins}.

Lemma clean_accepted (u : str) :
  Clean u -> u <> [] -> (length u <= 250)%nat ->
  arrayIncludes defaultReservedNames (toUpperCase u) = false ->
  endsWith u (js ".lock") = false ->
  endsWith u (js ".") = false -> endsWith u (js "/") = false ->
  test controlChars u = false ->
  validateBranchName u noBranchOptions
  = acceptWith
      ((if (length u <? 3)%nat then
          [js "Branch name is very short, consider using a more descriptive name"]
        else []) ++ [] ++ [])
      (if negb (includes u (js "/")) then
         [js "Consider using a prefix like feature/, bugfix/, or hotfix/ for better organization"]
       else []).
Proof.
  intros C Hn Hl Hr Hk Hd Hs Hc.
  pose proof (clean_trimmed C) as T. destruct C as (M & D & S & H).
  unfold validateBranchName. cbv zeta.
  rewrite isBlank_length, T.
  replace (length u =? 0)%nat with false
    by (symmetry; apply Nat.eqb_neq; destruct u; [contradiction | discriminate]).
  change (merged maxLength DEFAULT_BRANCH_OPTIONS noBranchOptions)
    with (Some 250%Z).
  unfold exceeds. cbn [truthyNum Z.eqb negb andb].
  replace (Z.of_nat (length u) >? 250)%Z with false
    by (symmetry; rewrite Z.gtb_ltb; apply Z.ltb_ge; lia).
  change (merged reservedNames DEFAULT_BRANCH_OPTIONS noBranchOptions)
    with (Some defaultReservedNames).
  change (merged allowSlash DEFAULT_BRANCH_OPTIONS noBranchOptions)
    with (Some true).
  change (merged enforcePrefix DEFAULT_BRANCH_OPTIONS noBranchOptions)
    with (@None (list str)).
  change (merged pattern DEFAULT_BRANCH_OPTIONS noBranchOptions)
    with (@None (str -> bool)).
  cbn [truthyBool negb andb]. cbv beta iota. rewrite Hr.
  change (js ".") with [code "."] in *. change (js "-") with [code "-"].
  rewrite !(@separator_not_first u _ H) by reflexivity.
  rewrite Hd, Hk, Hs, Hc.
  change consecutiveDots with (Lit [code "."; code "."]).
  change consecutiveSlashes with (Lit [code "/"; code "/"]).
  rewrite !test_pair, D, S. cbn [negb].
  unfold whitespace, special, OneOf, upperCase, underscore, Chr. rewrite !test_chars.
  rewrite (existsb_none isWhiteSpace) by (intros x Hx; now apply M).
  rewrite (existsb_none (fun c => mem c specialChars))
    by (intros x Hx; now apply M).
  rewrite (existsb_none isUpper)
    by (intros x Hx; apply lower_fixed_not_upper; now apply M).
  rewrite (existsb_none (N.eqb (code "_")))
    by (intros x Hx; now apply M).
  reflexivity.
Qed.

End CleanAccepted.

(** ** Branch protection and naming *)

Section BranchProtection.
Import BranchProtectionManager.

Section DefaultRules.
Variable newRegExp : str -> option (str -> bool).

Lemma str_eqb_refl (a : str) : str_eqb a a = true.
Proof. now apply str_eqb_eq. Qed.

Lemma str_eqb_neq (a b : str) : str_eqb a b = false <-> a <> b.
Proof.
  rewrite <- str_eqb_eq. destruct (str_eqb a b); split; congruence.
Qed.

(** X15. With [DEFAULT_PROTECTED_BRANCHES], [validateDelete] refuses the
    deletion of [main], [master] and [develop] and of no other branch,
    whatever the [RegExp] constructor makes of the two regular-expression
    rules. *)
Theorem default_rules_delete (convention : BranchNamingConvention) (b : str) :
  allowed (validateDelete newRegExp
             (mkManager DEFAULT_PROTECTED_BRANCHES convention) b) = false
  <-> In b [js "main"; js "master"; js "develop"].
Proof.
  unfold validateDelete, getProtectionRule, DEFAULT_PROTECTED_BRANCHES.
  cbn [protectionRules find matchesRule isRegex pattern In].
  destruct (str_eqb b (js "main")) eqn:E1.
  { apply str_eqb_eq in E1. cbn [preventDelete allowed].
    split; [intros _; subst b; tauto | reflexivity]. }
  destruct (str_eqb b (js "master")) eqn:E2.
  { apply str_eqb_eq in E2. cbn [preventDelete allowed].
    split; [intros _; subst b; tauto | reflexivity]. }
  destruct (str_eqb b (js "develop")) eqn:E3.
  { apply str_eqb_eq in E3. cbn [preventDelete allowed].
    split; [intros _; subst b; tauto | reflexivity]. }
  apply str_eqb_neq in E1, E2, E3.
  assert (A : allowed
    (match
       (if match newRegExp (js "^release/.*$") with
           | Some regex => regex b | None => false end
        then Some (mkRule (js "^release/.*$") true false true true false false None)
        else if match newRegExp (js "^hotfix/.*$") with
                | Some regex => regex b | None => false end
             then Some (mkRule (js "^hotfix/.*$") true false true true false false None)
             else None)
     with
     | Some rule =>
         if preventDelete rule then
           mkValidation false (Some rule)
             (Some (js "Branch '" ++ b ++ js "' is protected and cannot be deleted."))
             None
         else allow
     | None => allow
     end) = true).
  { destruct (match newRegExp (js "^release/.*$") with
              | Some regex => regex b | None => false end); [reflexivity|].
    destruct (match newRegExp (js "^hotfix/.*$") with
              | Some regex => regex b | None => false end); reflexivity. }
  rewrite A. split; [intros X; discriminate X|].
  intros [X|[X|[X|[]]]]; congruence.
Qed.

Lemma test_prefix_pattern (p b : str) :
  test (seqs [Bol; Lit p; Star dot; Eol]) b = true <->
  exists t, b = p ++ t /\ oneLine t.
Proof.
  cbn [seqs]. unfold dot.
  rewrite (test_anchored b
             (EndLang_seq (Lang_Lit p)
                (EndLang_seq (Lang_star_chars _) EndLang_eol))).
  unfold oneLine. split.
  - intros (a & r & -> & -> & t & e & -> & Ht & ->).
    exists t. now rewrite app_nil_r.
  - intros (t & -> & Ht). exists p, t. repeat split.
    exists t, []. now rewrite app_nil_r.
Qed.

(** X16. With [DEFAULT_PROTECTED_BRANCHES], [validateForcePush] refuses
    exactly [main], [master], [develop] and the one-line names that start
    with [release/] or [hotfix/]; [validateDirectPush] refuses the same
    branches but [develop]. *)
Theorem default_rules_push (convention : BranchNamingConvention) (b : str) :
  readsDefaultPatterns newRegExp ->
  (allowed (validateForcePush newRegExp
              (mkManager DEFAULT_PROTECTED_BRANCHES convention) b) = false
   <-> In b [js "main"; js "master"; js "develop"] \/ releaseOrHotfix b)
  /\ (allowed (validateDirectPush newRegExp
                 (mkManager DEFAULT_PROTECTED_BRANCHES convention) b) = false
      <-> In b [js "main"; js "master"] \/ releaseOrHotfix b).
Proof.
  intros [(f & Ef & Hf) (g & Eg & Hg)].
  unfold validateForcePush, validateDirectPush, getProtectionRule,
    DEFAULT_PROTECTED_BRANCHES.
  cbn [protectionRules find matchesRule isRegex pattern In].
  rewrite Ef, Eg, Hf, Hg.
  destruct (str_eqb b (js "main")) eqn:E1.
  { apply str_eqb_eq in E1. subst b. cbn [preventForcePush requirePullRequest allowed].
    split; (split; [intros _; left; tauto | reflexivity]). }
  destruct (str_eqb b (js "master")) eqn:E2.
  { apply str_eqb_eq in E2. subst b. cbn [preventForcePush requirePullRequest allowed].
    split; (split; [intros _; left; tauto | reflexivity]). }
  destruct (str_eqb b (js "develop")) eqn:E3.
  { apply str_eqb_eq in E3. subst b. cbn [preventForcePush requirePullRequest allowed].
    split; [split; [intros _; left; tauto | reflexivity]|].
    split; [intros X; discriminate X|].
    intros [[X|[X|[]]]|(t & [X|X] & _)]; discriminate X. }
  apply str_eqb_neq in E1, E2, E3.
  pose proof (test_prefix_pattern (js "release/") b) as TR.
  pose proof (test_prefix_pattern (js "hotfix/") b) as TH.
  fold releasePattern in TR. fold hotfixPattern in TH.
  destruct (test releasePattern b).
  { cbn [preventForcePush requirePullRequest allowed].
    assert (X : releaseOrHotfix b).
    { destruct (proj1 TR eq_refl) as (t & E & Ht). exists t. auto. }
    split; (split; [intros _; now right | reflexivity]). }
  destruct (test hotfixPattern b).
  { cbn [preventForcePush requirePullRequest allowed].
    assert (X : releaseOrHotfix b).
    { destruct (proj1 TH eq_refl) as (t & E & Ht). exists t. auto. }
    split; (split; [intros _; now right | reflexivity]). }
  cbn [allowed allow].
  assert (X : ~ releaseOrHotfix b).
  { intros (t & [E|E] & Ht).
    - assert (Y : false = true) by (apply TR; now exists t). discriminate Y.
    - assert (Y : false = true) by (apply TH; now exists t). discriminate Y. }
  split; (split; [intros Y; discriminate Y|]).
  - intros [[Y|[Y|[Y|[]]]]|Y]; congruence.
  - intros [[Y|[Y|[]]]|Y]; congruence.
Qed.

End DefaultRules.

Lemma default_rules_push_witness :
  readsDefaultPatterns defaultRegExp /\
  allowed (validateForcePush defaultRegExp create (js "release/1.0")) = false.
Proof.
  assert (H : readsDefaultPatterns defaultRegExp).
  { split; eexists; (split; [reflexivity | intros s; reflexivity]). }
  split; [exact H|].
  apply (proj1 (default_rules_push DEFAULT_NAMING_CONVENTION (js "release/1.0") H)).
  right. exists (js "1.0"). split; [now left | reflexivity].
Defined.

Section ProtectedBranches.
Variable newRegExp : str -> option (str -> bool).

(** X17. Every name [getProtectedBranches] returns is a protected branch:
    [isProtected] is true of it. *)
Theorem protected_branches_are_protected (this : Manager) (b : str) :
  In b (getProtectedBranches this) -> isProtected newRegExp this b = true.
Proof.
  unfold getProtectedBranches, isProtected, getProtectionRule. intros H.
  apply in_map_iff in H. destruct H as (r & <- & H).
  apply filter_In in H. destruct H as [H R]. apply negb_true_iff in R.
  destruct (find (matchesRule newRegExp (pattern r)) (protectionRules this)) eqn:F;
    [reflexivity|].
  apply (find_none _ _ F) in H. unfold matchesRule in H.
  rewrite R, str_eqb_refl in H. discriminate H.
Qed.

End ProtectedBranches.

Lemma protected_branches_are_protected_witness :
  In (js "develop") (getProtectedBranches create) /\
  isProtected (fun _ => None) create (js "develop") = true.
Proof.
  assert (H : In (js "develop") (getProtectedBranches create))
    by (right; right; now left).
  split; [exact H|].
  exact (protected_branches_are_protected (fun _ => None) create (js "develop") H).
Defined.

Section Registry.

Lemma filter_filter (A : Type) (p q : A -> bool) (l : list A) :
  filter p (filter q l) = filter (fun x => p x && q x) l.
Proof.
  induction l as [|x l IH]; [reflexivity|]. cbn [filter].
  destruct (q x); cbn [filter]; rewrite ?andb_true_r, ?andb_false_r;
    [destruct (p x)|]; now rewrite IH.
Qed.

Lemma filter_none (A : Type) (p : A -> bool) (l : list A) :
  (forall x, In x l -> p x = false) -> filter p l = [].
Proof.
  induction l as [|x l IH]; [reflexivity|]. intros H. cbn [filter].
  rewrite (H x) by now left. apply IH. intros y Hy. apply H. now right.
Qed.

Lemma str_eqb_sym (a b : str) : str_eqb a b = str_eqb b a.
Proof.
  destruct (str_eqb a b) eqn:E; symmetry.
  - apply str_eqb_eq in E. subst. apply str_eqb_refl.
  - apply str_eqb_neq. apply str_eqb_neq in E. congruence.
Qed.

(** X18. After [addProtectionRule] the list holds exactly one rule with the
    pattern of the new rule, the new rule itself, in the last place; the
    rules with other patterns are kept in their order and the naming
    convention is untouched. *)
Theorem addProtectionRule_replaces (this : Manager) (rule : BranchProtectionRule) :
  filter (fun r => samePattern r rule)
    (getProtectionRules (addProtectionRule this rule)) = [rule]
  /\ filter (fun r => negb (samePattern r rule))
       (getProtectionRules (addProtectionRule this rule))
     = filter (fun r => negb (samePattern r rule)) (getProtectionRules this)
  /\ last (getProtectionRules (addProtectionRule this rule)) rule = rule
  /\ namingConvention (addProtectionRule this rule) = namingConvention this.
Proof.
  unfold getProtectionRules, addProtectionRule, samePattern.
  cbn [protectionRules namingConvention].
  rewrite !filter_app, !filter_filter. cbn [filter].
  rewrite str_eqb_refl. cbn [negb]. rewrite app_nil_r.
  repeat split.
  - rewrite filter_none; [reflexivity|]. intros x _. apply andb_negb_r.
  - apply filter_ext. intros x. apply andb_diag.
  - apply last_last.
Qed.

(** X19. The updates of the rule list compose as replacements: adding a rule
    after another rule with the same pattern, or after removing that
    pattern, is adding it alone; removing a pattern after adding a rule for
    it is removing it alone; and after [removeProtectionRule] no rule has
    the pattern. *)
Theorem protection_rule_updates (this : Manager) (rule other : BranchProtectionRule) :
  pattern other = pattern rule ->
  addProtectionRule (addProtectionRule this other) rule
  = addProtectionRule this rule
  /\ removeProtectionRule (addProtectionRule this other) (pattern rule)
     = removeProtectionRule this (pattern rule)
  /\ addProtectionRule (removeProtectionRule this (pattern other)) rule
     = addProtectionRule this rule
  /\ (forall r, In r (getProtectionRules (removeProtectionRule this (pattern rule))) ->
        pattern r <> pattern rule).
Proof.
  intros E. unfold addProtectionRule, removeProtectionRule, getProtectionRules.
  cbn [protectionRules namingConvention]. rewrite E.
  rewrite !filter_app, !filter_filter. cbn [filter].
  rewrite E, str_eqb_refl. cbn [negb]. rewrite app_nil_r.
  assert (D : filter (fun x => negb (str_eqb (pattern x) (pattern rule))
                               && negb (str_eqb (pattern x) (pattern rule)))
                (protectionRules this)
              = filter (fun r => negb (str_eqb (pattern r) (pattern rule)))
                  (protectionRules this))
    by (apply filter_ext; intros x; apply andb_diag).
  rewrite D. repeat split.
  intros r H. apply filter_In in H. destruct H as [_ H].
  apply negb_true_iff, str_eqb_neq in H. exact H.
Qed.

End Registry.

Lemma protection_rule_updates_witness :
  removeProtectionRule
    (addProtectionRule create
       (mkRule (js "main") false false false false false false None))
    (js "main")
  = removeProtectionRule create (js "main").
Proof.
  apply (proj1 (proj2
    (@protection_rule_updates create
       (mkRule (js "main") false true true true false false None)
       (mkRule (js "main") false false false false false false None)
       eq_refl))).
Defined.

Section Lookup.
Variable newRegExp : str -> option (str -> bool).

Lemma find_app (A : Type) (p : A -> bool) (l1 l2 : list A) :
  find p (l1 ++ l2) =
  match find p l1 with Some x => Some x | None => find p l2 end.
Proof.
  induction l1 as [|x l IH]; [reflexivity|]. cbn [app find].
  destruct (p x); [reflexivity | exact IH].
Qed.

Lemma find_filter_some (A : Type) (p q : A -> bool) (l : list A) (x : A) :
  find p l = Some x -> q x = true -> find p (filter q l) = Some x.
Proof.
  induction l as [|y l IH]; [intros X; discriminate X|]. cbn [find filter].
  destruct (p y) eqn:P.
  - intros [= ->] Q. rewrite Q. cbn [find]. now rewrite P.
  - intros F Q. destruct (q y); [cbn [find]; rewrite P|]; auto.
Qed.

Lemma find_filter_none (A : Type) (p q : A -> bool) (l : list A) :
  find p l = None -> find p (filter q l) = None.
Proof.
  induction l as [|y l IH]; [reflexivity|]. cbn [find filter].
  destruct (p y) eqn:P; [intros X; discriminate X|].
  intros F. destruct (q y); [cbn [find]; rewrite P|]; auto.
Qed.

(** X20. A rule is looked up from the front of the list and a new rule is
    put at its end: the rule found for a branch stays the rule found for it
    when a rule with another pattern is added, and the new rule is found
    only for the branches it matches that had no rule. *)
Theorem addProtectionRule_lookup
    (this : Manager) (rule found : BranchProtectionRule) (b : str) :
  (getProtectionRule newRegExp this b = Some found ->
   pattern found <> pattern rule ->
   getProtectionRule newRegExp (addProtectionRule this rule) b = Some found)
  /\ (getProtectionRule newRegExp this b = None ->
      getProtectionRule newRegExp (addProtectionRule this rule) b
      = if matchesRule newRegExp b rule then Some rule else None).
Proof.
  unfold getProtectionRule, addProtectionRule. cbn [protectionRules].
  rewrite find_app. split.
  - intros F N.
    rewrite (@find_filter_some _ _
               (fun r => negb (str_eqb (pattern r) (pattern rule))) _ _ F);
      [reflexivity|].
    now apply negb_true_iff, str_eqb_neq.
  - intros F.
    rewrite (@find_filter_none _ _
               (fun r => negb (str_eqb (pattern r) (pattern rule))) _ F).
    reflexivity.
Qed.

End Lookup.

Lemma addProtectionRule_lookup_witness :
  getProtectionRule (fun _ => Some (fun _ => true))
    (addProtectionRule create
       (mkRule (js ".*") true false false false false false None))
    (js "main")
  = Some (mkRule (js "main") false true true true false false None)
  /\ getProtectionRule (fun _ => Some (fun _ => true))
       (addProtectionRule (mkManager [] DEFAULT_NAMING_CONVENTION)
          (mkRule (js ".*") true false false false false false None))
       (js "main")
     = Some (mkRule (js ".*") true false false false false false None).
Proof.
  split.
  - apply (proj1 (addProtectionRule_lookup (fun _ => Some (fun _ => true)) create
                    (mkRule (js ".*") true false false false false false None)
                    (mkRule (js "main") false true true true false false None)
                    (js "main")));
      [reflexivity | intros H; discriminate H].
  - apply (proj2 (addProtectionRule_lookup (fun _ => Some (fun _ => true))
                    (mkManager [] DEFAULT_NAMING_CONVENTION)
                    (mkRule (js ".*") true false false false false false None)
                    (mkRule (js ".*") true false false false false false None)
                    (js "main"))).
    reflexivity.
Defined.

Section Naming.
Context {builtins : Builtins}.
Variable newRegExp : str -> option (str -> bool).

(** X21. A suggestion of [suggestBranchName] is never longer than the
    [maxLength] of the naming convention, and is empty when [maxLength] is
    negative. *)
Theorem suggestBranchName_length
    (this : Manager) (input : str) (type : option str) :
  (Z.of_nat (length (suggestBranchName this input type))
   <= Z.max 0 (maxLength (namingConvention this)))%Z.
Proof.
  unfold suggestBranchName. cbv zeta.
  match goal with
  | |- context [if (Z.of_nat (length ?s) >? ?m)%Z then _ else _] =>
      generalize s; intros u; destruct (Z.gtb_spec (Z.of_nat (length u)) m)
  end.
  - unfold substring0. rewrite length_firstn. lia.
  - lia.
Qed.


(** X22. [BranchProtectionManager.validateBranchName] allows a name exactly
    when [GitValidation] accepts it and, with the convention enabled, the
    untrimmed name is within [maxLength], starts with a prefix followed by
    the separator, and matches the ticket pattern when a ticket is required;
    the call throws exactly when all the earlier checks pass, a ticket is
    required and the ticket pattern is not a regular expression. *)
Theorem validateBranchName_allows (this : Manager) (b : str) :
  ((exists v, BranchProtectionManager.validateBranchName newRegExp this b = Some v
              /\ allowed v = true)
   <-> valid (GitValidation.validateBranchName b noBranchOptions) = true /\
       (enabled (namingConvention this) = true ->
        (Z.of_nat (length b)
         <= BranchProtectionManager.maxLength (namingConvention this))%Z /\
        hasPrefix (namingConvention this) b = true /\
        (ticketChecked (namingConvention this) = true ->
         exists f, newRegExp (ticketSource (namingConvention this)) = Some f
                   /\ f b = true)))
  /\ (BranchProtectionManager.validateBranchName newRegExp this b = None
      <-> valid (GitValidation.validateBranchName b noBranchOptions) = true /\
          enabled (namingConvention this) = true /\
          (Z.of_nat (length b)
           <= BranchProtectionManager.maxLength (namingConvention this))%Z /\
          hasPrefix (namingConvention this) b = true /\
          ticketChecked (namingConvention this) = true /\
          newRegExp (ticketSource (namingConvention this)) = None).
Proof.
  unfold BranchProtectionManager.validateBranchName. cbv zeta.
  fold (ticketSource (namingConvention this)).
  fold (ticketChecked (namingConvention this)).
  destruct (valid (GitValidation.validateBranchName b noBranchOptions)) eqn:V;
    cbn [negb].
  2:{ split; split.
      - intros (v & [= <-] & A). discriminate A.
      - intros [X _]. discriminate X.
      - intros X. discriminate X.
      - intros [X _]. discriminate X. }
  destruct (enabled (namingConvention this)) eqn:En.
  2:{ split; split.
      - intros _. split; [reflexivity | intros X; discriminate X].
      - intros _. eexists. split; reflexivity.
      - intros X. discriminate X.
      - intros (_ & X & _). discriminate X. }
  destruct (Z.gtb_spec (Z.of_nat (length b))
              (BranchProtectionManager.maxLength (namingConvention this))) as [G|G].
  { split; split.
    - intros (v & [= <-] & A). discriminate A.
    - intros [_ X]. destruct (X eq_refl) as [L _]. lia.
    - intros X. discriminate X.
    - intros (_ & _ & L & _). lia. }
  destruct (hasPrefix (namingConvention this) b) eqn:P; cbn [negb].
  2:{ split; split.
      - intros (v & [= <-] & A). discriminate A.
      - intros [_ X]. destruct (X eq_refl) as (_ & Y & _). discriminate Y.
      - intros X. discriminate X.
      - intros (_ & _ & _ & Y & _). discriminate Y. }
  destruct (ticketChecked (namingConvention this)) eqn:T.
  2:{ split; split.
      - intros _. split; [reflexivity|]. intros _.
        repeat split; [assumption|]. intros X. discriminate X.
      - intros _. eexists. split; reflexivity.
      - intros X. discriminate X.
      - intros (_ & _ & _ & _ & X & _). discriminate X. }
  destruct (newRegExp (ticketSource (namingConvention this))) as [f|] eqn:R.
  2:{ split; split.
      - intros (v & X & _). discriminate X.
      - intros [_ X]. destruct (X eq_refl) as (_ & _ & Y).
        destruct (Y eq_refl) as (f & Z & _). discriminate Z.
      - intros _. repeat split; assumption.
      - reflexivity. }
  destruct (f b) eqn:F; cbn [negb].
  - split; split.
    + intros _. split; [reflexivity|]. intros _.
      repeat split; [assumption|]. intros _. exists f. auto.
    + intros _. eexists. split; reflexivity.
    + intros X. discriminate X.
    + intros (_ & _ & _ & _ & _ & X). discriminate X.
  - split; split.
    + intros (v & [= <-] & A). discriminate A.
    + intros [_ X]. destruct (X eq_refl) as (_ & _ & Y).
      destruct (Y eq_refl) as (g & [= <-] & Z). congruence.
    + intros X. discriminate X.
    + intros (_ & _ & _ & _ & _ & X). discriminate X.
Qed.

(** X23. The recommended [patterns] of the naming convention and the
    protection rules have no part in the decision of
    [BranchProtectionManager.validateBranchName]: they change neither
    [allowed] nor [reason], nor whether the call throws. *)
Theorem patterns_only_warn
    (this : Manager) (rules : list BranchProtectionRule) (l : list str) (b : str) :
  option_map (fun v => (allowed v, reason v))
    (BranchProtectionManager.validateBranchName newRegExp
       (mkManager rules (withPatterns (namingConvention this) l)) b)
  = option_map (fun v => (allowed v, reason v))
      (BranchProtectionManager.validateBranchName newRegExp this b).
Proof.
  unfold BranchProtectionManager.validateBranchName, withPatterns, hasPrefix.
  cbn [namingConvention enabled prefixes separator requireTicketNumber
       ticketPattern BranchProtectionManager.maxLength patterns].
  cbv zeta.
  repeat match goal with
  | |- context [if ?c then _ else _] =>
      lazymatch c with
      | context [if _ then _ else _] => fail
      | context [match _ with _ => _ end] => fail
      | _ => destruct c; try reflexivity
      end
  | |- context [match newRegExp ?s with _ => _ end] =>
      destruct (newRegExp s); try reflexivity
  end.
Qed.

End Naming.

Section PrefixedNames.
Context {builtins : Builtins}.

Lemma startsWith_In (t p : str) :
  startsWith t p = true -> forall x, In x p -> In x t.
Proof.
  revert t. induction p as [|y p IH]; intros t H x Hx; [destruct Hx|].
  destruct t as [|z t]; [discriminate H|]. cbn [startsWith] in H.
  apply andb_true_iff in H. destruct H as [E H]. apply N.eqb_eq in E. subst z.
  destruct Hx as [<-|Hx]; [now left | right; eauto].
Qed.

Lemma startsWith_app_same (p r : str) : startsWith (p ++ r) p = true.
Proof.
  induction p as [|y p IH]; [reflexivity|]. cbn [app startsWith].
  now rewrite N.eqb_refl.
Qed.

Lemma endsWith_app_unit (a t : str) (c : cu) :
  t <> [] -> endsWith (a ++ t) [c] = endsWith t [c].
Proof.
  intros H. unfold endsWith. rewrite rev_app_distr. cbn [rev app].
  destruct (rev t) as [|x r] eqn:E; [|reflexivity].
  apply (f_equal (@rev cu)) in E. rewrite rev_involutive in E. contradiction.
Qed.

Lemma startsWith_app_last (a b w : str) (x : cu) :
  startsWith (a ++ b) (w ++ [x]) = true ->
  startsWith a (w ++ [x]) = true \/ In x b.
Proof.
  revert a. induction w as [|y w IH]; intros a H.
  - destruct a as [|z a]; cbn [app] in *.
    + right. destruct b as [|z b]; [discriminate H|]. cbn [startsWith] in H.
      rewrite andb_true_r in H. apply N.eqb_eq in H. subst. now left.
    + left. exact H.
  - destruct a as [|z a]; cbn [app] in *.
    + right. apply (startsWith_In _ _ H). right. apply in_or_app. right. now left.
    + cbn [startsWith] in *. apply andb_true_iff in H. destruct H as [E H].
      rewrite E. cbn [andb]. now apply IH.
Qed.

Lemma slash_not_reserved (u : str) :
  In (code "/") u -> arrayIncludes defaultReservedNames (toUpperCase u) = false.
Proof.
  intros H. destruct (arrayIncludes defaultReservedNames (toUpperCase u)) eqn:A;
    [|reflexivity].
  apply arrayIncludes_In in A.
  assert (I : In (code "/") (toUpperCase u))
    by (now apply toUpperCase_keeps).
  unfold defaultReservedNames in A. cbn [map In] in A.
  repeat (destruct A as [A|A];
          [rewrite <- A in I; cbv in I;
           repeat (destruct I as [I|I]; [discriminate I|]); destruct I|]).
  destruct A.
Qed.

Lemma noPair_middle (c x : cu) (a b : str) :
  noPair c (a ++ x :: b) = noPair c (a ++ [x]) && noPair c (x :: b).
Proof.
  induction a as [|y a IH].
  - cbn [app]. rewrite (noPair_cons c x []), andb_false_r. reflexivity.
  - cbn [app]. rewrite !noPair_cons, IH.
    destruct a; cbn [app]; now rewrite andb_assoc.
Qed.

Lemma noPair_absent (c y : cu) (a : str) :
  (forall x, In x a -> x <> c) -> noPair c (a ++ [y]) = true.
Proof.
  induction a as [|x a IH]; intros H.
  - cbn [app]. rewrite noPair_cons, andb_false_r. reflexivity.
  - cbn [app]. rewrite noPair_cons, IH by (intros z Hz; apply H; now right).
    replace (x =? c)%N with false
      by (symmetry; apply N.eqb_neq, H; now left).
    reflexivity.
Qed.

Lemma lower_plain (x : cu) :
  isLower x = true ->
  isWhiteSpace x = false /\ isUnderscore x = false /\ isSpecial x = false /\
  lowerCU x = x /\ isSeparator x = false /\ between 0 31 x || (x =? 127)%N = false.
Proof.
  intros H.
  assert (L : (x < 128)%N).
  { unfold isLower, between in H. rewrite andb_true_iff, !N.leb_le in H. lia. }
  pose proof (@below_128
    (fun x => implb (isLower x)
                (negb (isWhiteSpace x) && negb (isUnderscore x)
                 && negb (isSpecial x) && (lowerCU x =? x)%N
                 && negb (isSeparator x)
                 && negb (between 0 31 x || (x =? 127)%N)))
    eq_refl x L) as Q.
  cbv beta in Q. rewrite H in Q. cbn [implb] in Q.
  rewrite !andb_true_iff, !negb_true_iff, N.eqb_eq in Q. tauto.
Qed.

Lemma clean_prefixed (p t : str) :
  Clean t -> t <> [] -> p <> [] -> forallb isLower p = true ->
  Clean (p ++ js "/" ++ t).
Proof.
  intros (M & D & S & H) Hn Hp L. rewrite forallb_forall in L.
  change (js "/" ++ t) with (code "/" :: t).
  assert (A : forall c, (c = code "." \/ c = code "/") ->
                        forall x, In x p -> x <> c).
  { intros c Hc x Hx E. apply L, lower_plain in Hx.
    destruct Hx as (_ & _ & _ & _ & Sx & _). subst x.
    destruct Hc as [-> | ->]; discriminate Sx. }
  split; [|split; [|split]].
  - intros x Hx. apply in_app_or in Hx. destruct Hx as [Hx|[<-|Hx]].
    + destruct (lower_plain x (L x Hx)) as (Q1 & Q2 & Q3 & Q4 & _). auto.
    + repeat split; reflexivity.
    + now apply M.
  - rewrite noPair_middle, noPair_absent by (apply A; now left).
    rewrite noPair_cons, D. reflexivity.
  - rewrite noPair_middle, noPair_absent by (apply A; now right).
    rewrite noPair_cons, S.
    destruct t as [|y t]; [contradiction|]. cbn [stopsAt] in H.
    replace (y =? code "/")%N with false; [reflexivity|].
    symmetry. apply N.eqb_neq. intros ->. discriminate H.
  - destruct p as [|x p]; [contradiction|]. cbn [app stopsAt].
    apply lower_plain, L. now left.
Qed.

End PrefixedNames.

Section SuggestedNames.
Context {builtins : Builtins}.
Variable newRegExp : str -> option (str -> bool).

Lemma prefix_lower (ty : str) :
  In ty (prefixes DEFAULT_NAMING_CONVENTION) ->
  ty <> [] /\ forallb isLower ty = true /\ (length ty <= 8)%nat.
Proof.
  cbn [prefixes DEFAULT_NAMING_CONVENTION map In]. intros H.
  repeat (destruct H as [<-|H];
          [split; [discriminate | split; [reflexivity | cbn; lia]]|]).
  destruct H.
Qed.

Lemma short_uncut (input : str) :
  (length (sanitizeBranchName input) < 250)%nat ->
  stopsAt isSeparator (rev (sanitizeBranchName input)).
Proof.
  intros H. apply uncut_ends_clean.
  rewrite sanitizeBranchName_steps, length_firstn in H. lia.
Qed.

Lemma ends_clean (t : str) (c : cu) :
  stopsAt isSeparator (rev t) -> isSeparator c = true -> endsWith t [c] = false.
Proof.
  intros H C. unfold endsWith. cbn [rev app]. now apply separator_not_first.
Qed.

(** A name that is clean, ends clean and holds a slash is accepted. *)
Lemma clean_with_slash_accepted (u : str) :
  Clean u -> stopsAt isSeparator (rev u) -> In (code "/") u ->
  (length u <= 250)%nat ->
  endsWith u (js ".lock") = false -> test controlChars u = false ->
  valid (GitValidation.validateBranchName u noBranchOptions) = true.
Proof.
  intros C R S L K T.
  rewrite clean_accepted; try assumption; try reflexivity.
  - intros ->. destruct S.
  - now apply slash_not_reserved.
  - now apply ends_clean.
  - now apply ends_clean.
Qed.

Lemma accepted_then_allowed (rules : list BranchProtectionRule) (en : bool) (u : str) :
  valid (GitValidation.validateBranchName u noBranchOptions) = true ->
  (length u <= 100)%nat ->
  hasPrefix (defaultConvention en) u = true ->
  exists v,
    BranchProtectionManager.validateBranchName newRegExp
      (mkManager rules (defaultConvention en)) u = Some v
    /\ allowed v = true.
Proof.
  intros V L P. unfold BranchProtectionManager.validateBranchName. cbv zeta.
  rewrite V. cbn [negb namingConvention]. rewrite P. cbn [negb].
  cbn [defaultConvention enabled BranchProtectionManager.maxLength
       requireTicketNumber DEFAULT_NAMING_CONVENTION andb].
  replace (Z.of_nat (length u) >? 100)%Z with false
    by (symmetry; rewrite Z.gtb_ltb; apply Z.ltb_ge; lia).
  destruct en; eexists; split; reflexivity.
Qed.

Lemma allowed_with_prefix (rules : list BranchProtectionRule) (en : bool) (t : str) :
  Clean t -> stopsAt isSeparator (rev t) -> (length t <= 91)%nat ->
  endsWith t (js ".lock") = false -> test controlChars t = false ->
  hasPrefix (defaultConvention en) t = true ->
  exists v,
    BranchProtectionManager.validateBranchName newRegExp
      (mkManager rules (defaultConvention en)) t = Some v
    /\ allowed v = true.
Proof.
  intros C R Hl Hk Hc P.
  apply accepted_then_allowed; [|lia | exact P].
  apply clean_with_slash_accepted; try assumption; [|lia].
  unfold hasPrefix in P. apply existsb_exists in P.
  destruct P as (q & _ & P). apply (startsWith_In _ _ P).
  apply in_or_app. right. now left.
Qed.

Lemma allowed_prefixed (rules : list BranchProtectionRule) (en : bool) (ty t : str) :
  In ty (prefixes DEFAULT_NAMING_CONVENTION) ->
  Clean t -> t <> [] -> stopsAt isSeparator (rev t) -> (length t <= 91)%nat ->
  endsWith t (js ".lock") = false -> test controlChars t = false ->
  exists v,
    BranchProtectionManager.validateBranchName newRegExp
      (mkManager rules (defaultConvention en)) (ty ++ js "/" ++ t) = Some v
    /\ allowed v = true.
Proof.
  intros Ity C Hn R Hl Hk Hc.
  destruct (prefix_lower Ity) as (Tn & Tl & Tlen).
  assert (Len : length (ty ++ js "/" ++ t) = (length ty + 1 + length t)%nat)
    by (rewrite !length_app; cbn [length js map list_ascii_of_string]; lia).
  assert (Tt : (ty ++ js "/") ++ t = ty ++ js "/" ++ t)
    by now rewrite <- app_assoc.
  apply accepted_then_allowed; [|lia|].
  - apply clean_with_slash_accepted.
    + now apply clean_prefixed.
    + rewrite <- Tt, rev_app_distr. destruct (rev t) as [|x r] eqn:E; [|exact R].
      apply (f_equal (@rev cu)) in E. rewrite rev_involutive in E. contradiction.
    + apply in_or_app. right. now left.
    + lia.
    + unfold endsWith. rewrite <- Tt, rev_app_distr.
      destruct (startsWith (rev t ++ rev (ty ++ js "/")) (rev (js ".lock"))) eqn:K;
        [|reflexivity].
      change (rev (js ".lock")) with (js "kcol" ++ [code "."]) in K.
      apply startsWith_app_last in K. destruct K as [K|K].
      * unfold endsWith in Hk.
        change (rev (js ".lock")) with (js "kcol" ++ [code "."]) in Hk.
        congruence.
      * apply in_rev, in_app_or in K. rewrite forallb_forall in Tl.
        destruct K as [K|[K|[]]]; [|discriminate K].
        apply Tl in K. discriminate K.
    + unfold controlChars in *. rewrite test_chars in *.
      rewrite <- Tt, !existsb_app, Hc, orb_false_r.
      cbn [existsb js map list_ascii_of_string].
      rewrite orb_false_r, (existsb_none _ ty); [reflexivity|].
      intros x Hx. rewrite forallb_forall in Tl. now apply lower_plain, Tl.
  - unfold hasPrefix. apply existsb_exists. exists ty. split; [exact Ity|].
    change (separator (defaultConvention en)) with (js "/").
    rewrite <- Tt. apply startsWith_app_same.
Qed.

(** Without a type the suggestion uses the prefix feature. *)
Lemma suggestBranchName_default (this : Manager) (input : str) :
  suggestBranchName this input None
  = suggestBranchName this input (Some (js "feature")).
Proof.
  unfold suggestBranchName. cbv beta iota. reflexivity.
Qed.

(** The suggestion for an input whose sanitised form is short. *)
Lemma short_suggestion (rules : list BranchProtectionRule) (en : bool)
    (input ty : str) :
  In ty (prefixes DEFAULT_NAMING_CONVENTION) ->
  (length (sanitizeBranchName input) <= 91)%nat ->
  suggestBranchName (mkManager rules (defaultConvention en)) input (Some ty)
  = if hasPrefix (defaultConvention en) (sanitizeBranchName input)
    then sanitizeBranchName input
    else ty ++ js "/" ++ sanitizeBranchName input.
Proof.
  unfold suggestBranchName. cbv zeta. cbn [namingConvention].
  generalize (sanitizeBranchName input) as t.
  intros t Ity Hl. destruct (prefix_lower Ity) as (_ & _ & Tlen).
  replace (arrayIncludes (prefixes (defaultConvention en)) ty) with true
    by (symmetry; now apply arrayIncludes_In).
  change (separator (defaultConvention en)) with (js "/").
  change (BranchProtectionManager.maxLength (defaultConvention en)) with 100%Z.
  assert (Len : length (ty ++ js "/" ++ t) = (length ty + 1 + length t)%nat)
    by (rewrite !length_app; cbn [length js map list_ascii_of_string]; lia).
  destruct (hasPrefix (defaultConvention en) t); cbn [negb andb].
  - replace (Z.of_nat (length t) >? 100)%Z with false
      by (symmetry; rewrite Z.gtb_ltb; apply Z.ltb_ge; lia).
    reflexivity.
  - replace (Z.of_nat (length (ty ++ js "/" ++ t)) >? 100)%Z with false
      by (symmetry; rewrite Z.gtb_ltb; apply Z.ltb_ge; lia).
    reflexivity.
Qed.

Lemma suggestion_allowed (rules : list BranchProtectionRule) (en : bool)
    (input ty : str) :
  In ty (prefixes DEFAULT_NAMING_CONVENTION) ->
  sanitizeBranchName input <> [] ->
  (length (sanitizeBranchName input) <= 91)%nat ->
  endsWith (sanitizeBranchName input) (js ".lock") = false ->
  test controlChars (sanitizeBranchName input) = false ->
  exists v,
    BranchProtectionManager.validateBranchName newRegExp
      (mkManager rules (defaultConvention en))
      (suggestBranchName (mkManager rules (defaultConvention en)) input (Some ty))
    = Some v
    /\ allowed v = true.
Proof.
  intros Ity Hn Hl Hk Hc.
  destruct (sanitized_clean input) as [C _].
  assert (R : stopsAt isSeparator (rev (sanitizeBranchName input)))
    by (apply short_uncut; lia).
  rewrite (short_suggestion rules en input Ity Hl).
  destruct (hasPrefix (defaultConvention en) (sanitizeBranchName input)) eqn:P.
  - now apply allowed_with_prefix.
  - now apply allowed_prefixed.
Qed.

(** X24. With the default naming convention, enabled or not, the name
    [suggestBranchName] makes for a type among the prefixes is allowed by
    [BranchProtectionManager.validateBranchName], provided the sanitised
    input is not empty, has at most 91 characters, does not end with [.lock]
    and holds no control character. *)
Theorem suggestion_is_allowed
    (rules : list BranchProtectionRule) (en : bool) (input : str)
    (type : option str) :
  match type with
  | Some ty => In ty (prefixes DEFAULT_NAMING_CONVENTION)
  | None => True
  end ->
  sanitizeBranchName input <> [] ->
  (length (sanitizeBranchName input) <= 91)%nat ->
  endsWith (sanitizeBranchName input) (js ".lock") = false ->
  test controlChars (sanitizeBranchName input) = false ->
  exists v,
    BranchProtectionManager.validateBranchName newRegExp
      (mkManager rules (defaultConvention en))
      (suggestBranchName (mkManager rules (defaultConvention en)) input type)
    = Some v
    /\ allowed v = true.
Proof.
  intros Hty Hn Hl Hk Hc. destruct type as [ty|].
  - now apply suggestion_allowed.
  - rewrite suggestBranchName_default.
    apply suggestion_allowed; try assumption. now left.
Qed.

End SuggestedNames.

Lemma suggestion_is_allowed_witness :
  exists v,
    BranchProtectionManager.validateBranchName defaultRegExp
      (mkManager DEFAULT_PROTECTED_BRANCHES (defaultConvention true))
      (suggestBranchName
         (mkManager DEFAULT_PROTECTED_BRANCHES (defaultConvention true))
         (js "Fix: login_page v2") (Some (js "bugfix")))
    = Some v
    /\ allowed v = true.
Proof.
  apply (@suggestion_is_allowed _ defaultRegExp DEFAULT_PROTECTED_BRANCHES true
           (js "Fix: login_page v2") (Some (js "bugfix"))).
  - right. now left.
  - intros H. vm_compute in H. discriminate H.
  - vm_compute. lia.
  - reflexivity.
  - reflexivity.
Defined.

End BranchProtection.

(** ** Commit templates *)

Section Issues.
Import CommitTemplateManager.

Lemma takeWhile_dropWhile (p : cu -> bool) (s : str) :
  s = takeWhile p s ++ dropWhile p s.
Proof.
  induction s as [|c s IH]; [reflexivity|]. cbn [takeWhile dropWhile].
  destruct (p c); [cbn [app]; now f_equal | reflexivity].
Qed.

Lemma takeWhile_all (p : cu -> bool) (s : str) : forallb p (takeWhile p s) = true.
Proof.
  induction s as [|c s IH]; [reflexivity|]. cbn [takeWhile].
  destruct (p c) eqn:E; [cbn [forallb]; now rewrite E | reflexivity].
Qed.

Lemma takeWhile_prefix (p : cu -> bool) (t r : str) :
  forallb p t = true -> stopsAt p r -> takeWhile p (t ++ r) = t.
Proof.
  induction t as [|c t IH]; cbn [app forallb takeWhile]; intros H S.
  - destruct r as [|x r]; [reflexivity|]. cbn [stopsAt] in S.
    cbn [takeWhile]. now rewrite S.
  - apply andb_true_iff in H. destruct H as [-> H]. f_equal. auto.
Qed.

Lemma matchAt_issue (i : nat) (s : str) :
  matchAt issuePattern i s =
  match s with
  | c :: d :: tl =>
      if (code "#" =? c)%N && isDigit d then
        Some (mkState (S i + length (takeWhile isDigit (d :: tl)))
                (dropWhile isDigit (d :: tl))
                [(1%nat, takeWhile isDigit (d :: tl))])
      else None
  | _ => None
  end.
Proof.
  unfold matchAt, issuePattern, Chr, digit. rewrite compile_seq.
  destruct s as [|c s]; [apply compile_chars_nil|].
  rewrite compile_chars_cons. destruct (code "#" =? c)%N; cbn [andb].
  2:{ destruct s; reflexivity. }
  rewrite compile_group. cbn [endIndex rest captures].
  destruct s as [|d tl].
  { unfold Plus. rewrite compile_seq. apply compile_chars_nil. }
  destruct (isDigit d) eqn:D.
  - apply plus_chars_greedy
      with (t := takeWhile isDigit (d :: tl)) (tl := dropWhile isDigit (d :: tl)).
    + apply takeWhile_dropWhile.
    + cbn [takeWhile]. rewrite D. discriminate.
    + apply takeWhile_all.
    + pose proof (dropWhile_head isDigit (d :: tl)) as H.
      destruct (dropWhile isDigit (d :: tl)); [exact I | exact H].
    + cbn [endIndex rest captures]. do 3 f_equal.
      rewrite (takeWhile_dropWhile isDigit (d :: tl)) at 2.
      replace (S i + length (takeWhile isDigit (d :: tl)) - S i)%nat
        with (length (takeWhile isDigit (d :: tl))) by lia.
      now rewrite firstn_app, Nat.sub_diag, firstn_all, firstn_O, app_nil_r.
  - unfold Plus. rewrite compile_seq, compile_chars_cons, D. reflexivity.
Qed.

Lemma scan_digit (d : cu) (s : str) :
  isDigit d = true -> scanIssues (d :: s) = scanIssues s.
Proof.
  intros D. cbn [scanIssues].
  replace (code "#" =? d)%N with false; [reflexivity|].
  symmetry. apply N.eqb_neq. intros <-. discriminate D.
Qed.

Lemma scan_digits (s : str) : scanIssues (dropWhile isDigit s) = scanIssues s.
Proof.
  induction s as [|d s IH]; [reflexivity|]. cbn [dropWhile].
  destruct (isDigit d) eqn:D; [|reflexivity]. now rewrite scan_digit.
Qed.

Lemma issueNumbers_scan (fuel : nat) :
  forall s i, (length s < fuel)%nat -> issueNumbers fuel i s = scanIssues s.
Proof.
  induction fuel as [|f IHf]; [intros s i H; lia|].
  induction s as [|c s IHs]; intros i H.
  - reflexivity.
  - cbn [issueNumbers execFrom]. rewrite matchAt_issue.
    cbn [length] in H.
    destruct s as [|d tl].
    { cbn [execFrom]. rewrite matchAt_issue. cbn [scanIssues].
      now rewrite andb_false_r. }
    cbn [scanIssues]. destruct ((code "#" =? c)%N && isDigit d) eqn:E.
    + cbn [captures capture Nat.eqb endIndex rest]. f_equal.
      rewrite IHf
        by (pose proof (dropWhile_shorter isDigit (d :: tl));
            cbn [length] in *; lia).
      apply scan_digits.
    + change (match execFrom issuePattern (S i) (d :: tl) with
              | Some (_, y) =>
                  match capture 1 (captures y) with Some n => n | None => [] end
                  :: issueNumbers f (endIndex y) (rest y)
              | None => []
              end) with (issueNumbers (S f) (S i) (d :: tl)).
      rewrite IHs by lia. reflexivity.
Qed.

End Issues.

Section ContextRoundTrip.

Lemma scan_no_hash (a b : str) :
  ~ In (code "#") a -> scanIssues (a ++ b) = scanIssues b.
Proof.
  induction a as [|c a IH]; [reflexivity|]. intros H. cbn [app scanIssues].
  replace (code "#" =? c)%N with false
    by (symmetry; apply N.eqb_neq; intros E; apply H; now left).
  cbn [andb]. apply IH. intros X. apply H. now right.
Qed.

Lemma scan_fixes (n r : str) :
  n <> [] -> forallb isDigit n = true -> stopsAt isDigit r ->
  scanIssues (js "Fixes #" ++ n ++ r) = n :: scanIssues r.
Proof.
  intros Hn Hd Hr.
  change (js "Fixes #" ++ n ++ r) with (js "Fixes " ++ code "#" :: n ++ r).
  rewrite scan_no_hash
    by (intros H; cbv in H; repeat destruct H as [H|H]; try discriminate H; exact H).
  cbn [scanIssues]. rewrite N.eqb_refl. cbn [andb].
  destruct n as [|d n]; [contradiction|]. cbn [app].
  pose proof Hd as Hd'. cbn [forallb] in Hd'. apply andb_true_iff in Hd'.
  destruct Hd' as [D _]. rewrite D.
  change (d :: n ++ r) with ((d :: n) ++ r).
  rewrite takeWhile_prefix by assumption. f_equal.
  rewrite <- (scan_digits ((d :: n) ++ r)).
  assert (X : forall t, forallb isDigit t = true -> dropWhile isDigit (t ++ r) = r).
  { induction t as [|x t IH]; cbn [app forallb dropWhile]; intros H.
    - destruct r as [|y r]; [reflexivity|]. cbn [stopsAt] in Hr.
      cbn [dropWhile]. now rewrite Hr.
    - apply andb_true_iff in H. destruct H as [-> H]. auto. }
  now rewrite X.
Qed.

Lemma join_cons (a b : str) (l : list str) :
  join nl (a :: b :: l) = a ++ nl ++ join nl (b :: l).
Proof. reflexivity. Qed.

Lemma scan_fixesLines (issues : list str) :
  Forall digits issues -> scanIssues (fixesLines issues) = issues.
Proof.
  unfold fixesLines. induction 1 as [|n l [Hn Hd] Hl IH]; [reflexivity|].
  destruct l as [|m l].
  - cbn [map join]. rewrite <- (app_nil_r n) at 1.
    rewrite scan_fixes by (assumption || exact I). reflexivity.
  - cbn [map] in *. rewrite join_cons, <- app_assoc.
    rewrite scan_fixes by (assumption || reflexivity).
    f_equal. exact IH.
Qed.

Lemma fixesLines_shape (n : str) (l : list str) :
  Forall digits (n :: l) ->
  exists p d, fixesLines (n :: l) = js "Fixes #" ++ p ++ [d] /\ isDigit d = true.
Proof.
  revert n. induction l as [|m l IH]; intros n H.
  - apply Forall_inv in H. destruct H as [Hn Hd].
    destruct (exists_last Hn) as (p & d & ->).
    rewrite forallb_app in Hd. apply andb_true_iff in Hd. destruct Hd as [_ Hd].
    cbn [forallb] in Hd. rewrite andb_true_r in Hd.
    exists p, d. split; [reflexivity | exact Hd].
  - pose proof (Forall_inv_tail H) as T. destruct (IH m T) as (p & d & E & D).
    exists (n ++ nl ++ js "Fixes #" ++ p), d. split; [|exact D].
    unfold fixesLines in *. cbn [map] in *. rewrite join_cons.
    etransitivity;
      [apply (f_equal (fun x => (js "Fixes #" ++ n) ++ nl ++ x)); exact E|].
    cbv beta. now rewrite <- !app_assoc.
Qed.

Lemma digit_not_space (d : cu) : isDigit d = true -> isWhiteSpace d = false.
Proof.
  intros H. apply word_not_space. unfold isWord. rewrite H.
  now rewrite !orb_true_r.
Qed.

Lemma fixesLines_trimmed (n : str) (l : list str) :
  Forall digits (n :: l) -> trim (fixesLines (n :: l)) = fixesLines (n :: l).
Proof.
  intros H. destruct (fixesLines_shape H) as (p & d & -> & D).
  apply trimmed_fixed. split; [reflexivity|].
  rewrite !rev_app_distr. cbn [rev app]. now apply digit_not_space.
Qed.

Lemma digits_not_LF (n : str) : forallb isDigit n = true -> ~ In LF n.
Proof.
  intros H X. rewrite forallb_forall in H. apply H in X. discriminate X.
Qed.

Lemma fixes_token (n : str) :
  test footerToken (js "Fixes #" ++ n) = true.
Proof.
  apply test_iff. exists [], (js "Fixes #" ++ n).
  destruct (proj2 (Lang_seq (Lang_plus_chars (fun c => isWord c || (c =? code "-")%N))
                     (Lang_seq (Lang_chars isWhiteSpace)
                        (Lang_chars (N.eqb (code "#")))))
              (js "Fixes #")) with (i := 0%nat) (tl := n) (caps := @nil (nat * str))
    as (caps' & M).
  { exists (js "Fixes"), (js " #"). repeat split; try reflexivity; [discriminate|].
    exists (js " "), (js "#"). repeat split.
    - exists (code " "). split; reflexivity.
    - exists (code "#"). split; reflexivity. }
  eexists. split; [reflexivity|]. unfold footerToken. apply MAltR.
  cbn [seqs]. eapply MSeq; [now apply MBol|]. exact M.
Qed.

Lemma fixesLines_first (n : str) (l : list str) :
  Forall digits (n :: l) ->
  hd [] (split LF (fixesLines (n :: l))) = js "Fixes #" ++ n.
Proof.
  intros H. pose proof (Forall_inv H) as [_ Hd].
  assert (N : ~ In LF (js "Fixes #" ++ n)).
  { intros X. apply in_app_or in X. destruct X as [X|X].
    - cbv in X. repeat destruct X as [X|X]; try discriminate X; exact X.
    - now apply digits_not_LF in X. }
  unfold fixesLines. destruct l as [|m l].
  - cbn [map join]. now rewrite split_no_sep.
  - cbn [map]. rewrite join_cons, split_first by exact N. reflexivity.
Qed.

(** The message [generateConventionalCommit] writes without a body, read
    back. *)
Lemma parse_generated (type : str) (scope : option str) (d : str) (b : bool)
    (footer : option str) :
  type <> [] -> forallb isWord type = true ->
  plainScope scope -> plainDescription d -> tokenFooter footer ->
  parseConventionalCommit
    (subjectLine type scope b d ++ section None ++ section footer)
  = Some (mkParsed type scope b d None
            match footer with Some (c :: f) => Some (c :: f) | _ => None end).
Proof.
  intros Hn Hw Hs Hd Hf. unfold parseConventionalCommit. cbv zeta.
  rewrite generated_lines by (apply subject_one_line; assumption).
  cbn [hd]. rewrite subject_matches by assumption.
  destruct (@subject_captures type scope b d Hs) as (K1 & K2 & K3 & K4).
  rewrite K1, K2, K3, K4.
  destruct footer as [[|y ft]|]; try (destruct Hf as (Hf & _); contradiction);
    cbn [sectionLines app].
  - destruct Hf as (_ & Tf & Kf).
    rewrite classify_from_third by apply split_nonempty.
    rewrite classify_token by (try apply split_nonempty; assumption).
    rewrite joined_lines, Tf. destruct b; reflexivity.
  - destruct b; reflexivity.
Qed.

End ContextRoundTrip.

Section CommitTemplates.
Import CommitTemplateManager.
Lemma generateFromContext_agrees (context : Context) :
  generateFromContext context
  = generateConventionalCommit
      (match contextType context with Some t => t | None => js "feat" end)
      (contextScope context) (contextDescription context) None
      (contextBreaking context) (issuesFooter (contextIssues context)).
Proof.
  unfold generateFromContext, generateConventionalCommit, issuesFooter, fixesLines.
  destruct context as [ty sc d b iss]. cbn [contextType contextScope
    contextDescription contextBreaking contextIssues].
  destruct iss as [[|i [|j l]]|]; reflexivity.
Qed.

Section ContextMessages.

Lemma section_cons (f : str) :
  f <> [] -> section (Some f) = nl ++ nl ++ f.
Proof. destruct f; [contradiction | reflexivity]. Qed.

Lemma fixesLines_nonempty (i : str) (l : list str) : fixesLines (i :: l) <> [].
Proof. unfold fixesLines. destruct l; discriminate. Qed.

Lemma context_message (ty : str) (sc : option str) (d : str) (b : bool)
    (iss : option (list str)) :
  generateFromContext (mkContext (Some ty) sc d (Some b) iss)
  = subjectLine ty sc b d ++ section None ++ section (issuesFooter iss).
Proof.
  rewrite generateFromContext_agrees.
  cbn [contextType contextScope contextDescription contextBreaking contextIssues].
  apply generate_shape.
Qed.

Lemma issues_token (iss : list str) :
  Forall digits iss -> tokenFooter (issuesFooter (Some iss)).
Proof.
  intros H. destruct iss as [|i l]; [exact I|]. cbn [issuesFooter tokenFooter].
  split; [apply fixesLines_nonempty|]. split; [now apply fixesLines_trimmed|].
  rewrite fixesLines_first by assumption. apply fixes_token.
Qed.

Lemma subject_no_hash (ty : str) (sc : option str) (d : str) (b : bool) :
  forallb isWord ty = true -> ~ In (code "#") (scopeText sc ++ d) ->
  ~ In (code "#") (subjectLine ty sc b d).
Proof.
  intros Hw Hh X. unfold subjectLine in X.
  apply in_app_or in X. destruct X as [X|X].
  { rewrite forallb_forall in Hw. apply Hw in X. discriminate X. }
  apply in_app_or in X. destruct X as [X|X].
  { apply Hh, in_or_app. now left. }
  apply in_app_or in X. destruct X as [X|X].
  { destruct b; cbv in X; repeat destruct X as [X|X]; try discriminate X; exact X. }
  apply in_app_or in X. destruct X as [X|X].
  { cbv in X; repeat destruct X as [X|X]; try discriminate X; exact X. }
  apply Hh, in_or_app. now right.
Qed.

End ContextMessages.

(** X25. [parseMessage] reads back what [generateFromContext] writes: for a
    type made of word characters, a scope and a one-line description free of
    [#], and issue numbers made of digits, the parsed type, scope, subject
    and breaking flag are the ones given, there is no body, the footer is
    the lines [Fixes #n], and the issues are the numbers given, in their
    order. *)
Theorem context_round_trip {builtins : Builtins}
    (ty : str) (sc : option str) (d : str) (b : bool) (iss : list str) :
  ty <> [] -> forallb isWord ty = true ->
  plainScope sc -> plainDescription d ->
  ~ In (code "#") (scopeText sc ++ d) ->
  Forall digits iss ->
  parseMessage
    (generateFromContext (mkContext (Some ty) sc d (Some b) (Some iss)))
  = mkParsedMessage (Some ty) sc d None (issuesFooter (Some iss)) b
      (match iss with [] => None | _ :: _ => Some iss end).
Proof.
  intros Hn Hw Hs Hd Hh Hi.
  rewrite context_message. unfold parseMessage.
  rewrite parse_generated by (assumption || now apply issues_token).
  cbn [GitValidation.type GitValidation.scope GitValidation.description
       GitValidation.body GitValidation.footer GitValidation.breaking].
  rewrite issueNumbers_scan by lia.
  rewrite scan_no_hash by now apply subject_no_hash.
  destruct iss as [|i l].
  - reflexivity.
  - cbn [issuesFooter].
    rewrite (section_cons (fixesLines_nonempty i l)).
    change (section None) with (@nil cu). rewrite app_nil_l, app_assoc.
    rewrite (scan_no_hash (nl ++ nl))
      by (intros X; cbv in X; repeat destruct X as [X|X]; try discriminate X; exact X).
    rewrite scan_fixesLines by assumption.
    destruct (fixesLines_shape Hi) as (p & x & E & _).
    rewrite E. reflexivity.
Qed.

Lemma context_round_trip_witness :
  parseMessage
    (generateFromContext
       (mkContext (Some (js "fix")) (Some (js "ui")) (js "handle empty list")
          (Some true) (Some [js "12"; js "340"])))
  = mkParsedMessage (Some (js "fix")) (Some (js "ui")) (js "handle empty list")
      None (Some (js "Fixes #12" ++ nl ++ js "Fixes #340")) true
      (Some [js "12"; js "340"]).
Proof.
  apply (@context_round_trip _ (js "fix") (Some (js "ui")) (js "handle empty list")
           true [js "12"; js "340"]).
  - discriminate.
  - reflexivity.
  - repeat split; try discriminate;
      intros H; cbv in H; repeat destruct H as [H|H]; try discriminate H; exact H.
  - repeat split; try discriminate; reflexivity.
  - intros H; cbv in H; repeat destruct H as [H|H]; try discriminate H; exact H.
  - repeat constructor; discriminate.
Defined.

Section Templates.

Lemma find_filter_out (A : Type) (p : A -> bool) (l : list A) :
  find p (filter (fun x => negb (p x)) l) = None.
Proof.
  induction l as [|x l IH]; [reflexivity|]. cbn [filter].
  destruct (p x) eqn:E; cbn [negb find]; [exact IH | now rewrite E].
Qed.

(** X26. After [addCustomTemplate] a built-in template is still the one
    [getTemplate] returns for its id, the new template is returned for its
    own id when no built-in template has that id, the default template is
    the first built-in one, and loading the stored templates into a new
    manager gives the same manager. *)
Theorem builtin_templates_first
    (this : Manager) (template' : CommitTemplate) (globalState : Storage)
    (id' : str) :
  (forall builtin, find (sameId id') DEFAULT_TEMPLATES = Some builtin ->
     getTemplate (fst (addCustomTemplate this template' globalState)) id'
     = Some builtin)
  /\ (find (sameId (id template')) DEFAULT_TEMPLATES = None ->
      getTemplate (fst (addCustomTemplate this template' globalState))
        (id template') = Some template')
  /\ getDefaultTemplate (fst (addCustomTemplate this template' globalState))
     = hd_error DEFAULT_TEMPLATES
  /\ loadCustomTemplates create (snd (addCustomTemplate this template' globalState))
     = fst (addCustomTemplate this template' globalState).
Proof.
  unfold addCustomTemplate, getTemplate, getDefaultTemplate, loadCustomTemplates.
  cbn [fst snd templates customTemplates]. fold (sameId id').
  fold (sameId (id template')).
  split; [|split; [|split]].
  - intros builtin F. rewrite find_app, F. reflexivity.
  - intros F. rewrite !find_app, F.
    rewrite (find_filter_out (sameId (id template'))).
    cbn [find]. unfold sameId. now rewrite str_eqb_refl.
  - reflexivity.
  - reflexivity.
Qed.

End Templates.

End CommitTemplates.

(** ** Error classification and history *)

Section ErrorHandling.
Import ErrorHandlerService.

Section Classification.
Context {builtins : Builtins}.

Lemma test_alt_right (a b : regex) (s : str) :
  test b s = true -> test (Alt a b) s = true.
Proof.
  rewrite !test_iff. intros (pre & suf & y & E & M).
  exists pre, suf, y. split; [exact E | now apply MAltR].
Qed.

Lemma permission_is_authentication (m : str) :
  test (LitI (js "permission denied")) m = true ->
  test (Alt (LitI (js "authentication failed"))
          (Alt (LitI (js "invalid credentials"))
               (LitI (js "permission denied")))) m = true.
Proof. intros H. now do 2 apply test_alt_right. Qed.

Lemma classified_message (m : str) :
  match find (matches m) ERROR_PATTERNS with
  | Some p =>
      patternMessage p <> permissionMessage /\
      (patternCategory p = FileSystem ->
       patternSeverity p = Medium /\
       patternMessage p = js "The specified file or directory was not found.")
  | None => True
  end.
Proof.
  unfold ERROR_PATTERNS. cbn [find matches pattern].
  repeat match goal with
  | |- match (if ?c then _ else _) with _ => _ end =>
      let E := fresh "E" in
      destruct c eqn:E;
      [cbn [patternMessage patternCategory patternSeverity];
       try (split; [intros X; vm_compute in X; discriminate X
                   | intros X; try discriminate X; split; reflexivity])|]
  end; [|exact I].
  exfalso.
  match goal with
  | H : test (LitI (js "permission denied")) m = true |- _ =>
      apply permission_is_authentication in H; congruence
  end.
Qed.

End Classification.

(** X27. [classifyError] never gives the file-system message for [permission
    denied]: the authentication pattern, earlier in [ERROR_PATTERNS],
    matches wherever that pattern does; an error classified as file system
    is a missing file or directory, of medium severity. *)
Theorem permission_denied_never_file_system {builtins : Builtins}
    (error : Thrown) (context : str) :
  userMessage (classifyError error context) <> permissionMessage
  /\ (category (classifyError error context) = FileSystem ->
      severity (classifyError error context) = Medium /\
      userMessage (classifyError error context)
      = js "The specified file or directory was not found.").
Proof.
  unfold classifyError. cbv zeta.
  match goal with
  | |- context [find (matches ?m) ERROR_PATTERNS] =>
      generalize (classified_message m);
      destruct (find (matches m) ERROR_PATTERNS) as [p|]
  end.
  - cbn [userMessage category severity]. tauto.
  - intros _. cbn [userMessage category severity]. split.
    + intros X. vm_compute in X. discriminate X.
    + intros X. discriminate X.
Qed.

Section History.

(** X28. [addToHistory] keeps the history within [MAX_ERROR_HISTORY]
    entries: the new error is the last entry, a history with room grows by
    it, and a full history loses its oldest entry. *)
Theorem error_history_bounded
    (errorHistory : list GitNovaError) (error : GitNovaError) :
  (length errorHistory <= MAX_ERROR_HISTORY)%nat ->
  (length (addToHistory errorHistory error) <= MAX_ERROR_HISTORY)%nat
  /\ last (addToHistory errorHistory error) error = error
  /\ ((length errorHistory < MAX_ERROR_HISTORY)%nat ->
      addToHistory errorHistory error = errorHistory ++ [error])
  /\ (length errorHistory = MAX_ERROR_HISTORY ->
      addToHistory errorHistory error = tl errorHistory ++ [error]).
Proof.
  unfold addToHistory, MAX_ERROR_HISTORY. cbv zeta. intros H.
  rewrite length_app. cbn [length].
  destruct (Nat.ltb_spec 100 (length errorHistory + 1)) as [L|L].
  - assert (E : length errorHistory = 100%nat) by lia.
    destruct errorHistory as [|x h]; [discriminate E|]. cbn [app tl length] in *.
    repeat split.
    + rewrite length_app. cbn [length]. lia.
    + apply last_last.
    + lia.
  - repeat split.
    + rewrite length_app. cbn [length]. lia.
    + apply last_last.
    + lia.
Qed.

(** X29. [getRecentErrors(count)] returns the last [count] entries, or all
    of them when there are fewer, for a positive [count], the last ten when
    [count] is missing, and the whole history when [count] is 0. *)
Theorem recent_errors (errorHistory : list GitNovaError) :
  getRecentErrors errorHistory (Some 0%Z) = errorHistory
  /\ getRecentErrors errorHistory None
     = skipn (length errorHistory - 10) errorHistory
  /\ (forall count, (0 < count)%Z ->
        getRecentErrors errorHistory (Some count)
        = skipn (length errorHistory - Z.to_nat count) errorHistory /\
        length (getRecentErrors errorHistory (Some count))
        = Nat.min (Z.to_nat count) (length errorHistory)).
Proof.
  unfold getRecentErrors, sliceFrom. cbv zeta.
  split.
  { change (- 0 <? 0)%Z with false. cbv iota.
    replace (Z.to_nat (Z.min (- 0) (Z.of_nat (length errorHistory)))) with 0%nat
      by lia.
    reflexivity. }
  assert (G : forall count, (0 < count)%Z ->
            skipn (Z.to_nat (if (- count <? 0)%Z
                             then Z.max (Z.of_nat (length errorHistory) + - count) 0
                             else Z.min (- count) (Z.of_nat (length errorHistory))))
              errorHistory
            = skipn (length errorHistory - Z.to_nat count) errorHistory).
  { intros count H.
    replace (- count <? 0)%Z with true by (symmetry; apply Z.ltb_lt; lia).
    f_equal. lia. }
  split; [apply (G 10%Z); lia|].
  intros count H. rewrite (G count H). split; [reflexivity|].
  rewrite length_skipn. lia.
Qed.

End History.

Lemma error_history_bounded_witness :
  addToHistory
    (classifyError (NotAnError (js "first")) (js "test")
     :: repeat (classifyError (NotAnError (js "boom")) (js "test")) 99)
    (classifyError (NotAnError (js "last")) (js "test"))
  = repeat (classifyError (NotAnError (js "boom")) (js "test")) 99
    ++ [classifyError (NotAnError (js "last")) (js "test")].
Proof.
  assert (L : length
                (classifyError (NotAnError (js "first")) (js "test")
                 :: repeat (classifyError (NotAnError (js "boom")) (js "test")) 99)
              = MAX_ERROR_HISTORY) by reflexivity.
  apply (proj2 (proj2 (proj2
    (@error_history_bounded _
       (classifyError (NotAnError (js "last")) (js "test"))
       (Nat.eq_le_incl _ _ L))))).
  exact L.
Defined.

End ErrorHandling.
